(** * BJLConverter: a shallow embedding of the BJL binary layout codec

    The development follows the browser bundle of the converter
    (BinaryReader, BinaryWriter, BJLConverter).  JavaScript values are
    modelled by an untyped value type, objects by their own properties in
    [Object.keys] order, typed arrays by lists of bytes, and the platform
    functions the bundle calls (TextEncoder, TextDecoder, pako) are the
    fields of a record that the converter takes as an argument. *)

From Stdlib Require Import Strings.String Strings.Ascii Strings.Byte.
From Stdlib Require Import ZArith NArith Bool Lia List.
Import ListNotations.
Open Scope Z_scope.

Set Implicit Arguments.
Set Warnings "-register-all".

(* ================================================================== *)
(** ** Bytes and typed arrays *)

Definition bytes := list byte.

Definition Z_of_byte (b : byte) : Z := Z.of_N (Byte.to_N b).

(** Storing a number into a Uint8Array keeps it modulo 256. *)
Definition byte_of_Z (z : Z) : byte :=
  match Byte.of_N (Z.to_N (z mod 256)) with
  | Some b => b
  | None => x00
  end.

Definition blen (b : bytes) : Z := Z.of_nat (length b).

(** Two's complement reading of a [w]-bit unsigned number. *)
Definition to_signed (w : Z) (u : Z) : Z :=
  if u <? 2 ^ (w - 1) then u else u - 2 ^ w.

(** ToInt32, ToInt16 and the like on an integer-valued number. *)
Definition wrap (w : Z) (z : Z) : Z := to_signed w (z mod 2 ^ w).

(** Little-endian value of a run of bytes. *)
Fixpoint le_unsigned (bs : bytes) : Z :=
  match bs with
  | [] => 0
  | b :: bs' => Z_of_byte b + 256 * le_unsigned bs'
  end.

(** The [n] little-endian bytes of [z]. *)
Fixpoint le_bytes (n : nat) (z : Z) : bytes :=
  match n with
  | O => []
  | S n' => byte_of_Z z :: le_bytes n' (z / 256)
  end.

(** [TypedArray.prototype.slice(start, end)]: negative indices count from
    the end, both indices are clamped to the array, and an empty array is
    returned when the range is empty. *)
Definition rel_index (i len : Z) : Z :=
  if i <? 0 then Z.max (len + i) 0 else Z.min i len.

Definition slice (b : bytes) (start end_ : Z) : bytes :=
  let k := rel_index start (blen b) in
  let fin := rel_index end_ (blen b) in
  firstn (Z.to_nat (fin - k)) (skipn (Z.to_nat k) b).

(** DataView getters: [None] stands for the RangeError they throw when the
    requested bytes do not lie inside the view. *)
Definition in_view (b : bytes) (off n : Z) : bool :=
  (0 <=? off) && (off + n <=? blen b).

Definition view_bytes (b : bytes) (off : Z) (n : nat) : bytes :=
  firstn n (skipn (Z.to_nat off) b).

Definition getUint8 (b : bytes) (off : Z) : option Z :=
  if in_view b off 1 then Some (le_unsigned (view_bytes b off 1)) else None.

Definition getInt8 (b : bytes) (off : Z) : option Z :=
  if in_view b off 1 then Some (to_signed 8 (le_unsigned (view_bytes b off 1)))
  else None.

Definition getInt16 (b : bytes) (off : Z) : option Z :=
  if in_view b off 2 then Some (to_signed 16 (le_unsigned (view_bytes b off 2)))
  else None.

Definition getInt32 (b : bytes) (off : Z) : option Z :=
  if in_view b off 4 then Some (to_signed 32 (le_unsigned (view_bytes b off 4)))
  else None.

(** A float32 is kept as its bit pattern (an unsigned 32-bit number): the
    number [getFloat32] returns is the one this pattern denotes. *)
Definition getFloat32 (b : bytes) (off : Z) : option Z :=
  if in_view b off 4 then Some (le_unsigned (view_bytes b off 4)) else None.

(* ================================================================== *)
(** ** JavaScript values *)

(** A string is its sequence of UTF-16 code units. *)
Definition jsstring := list N.

Definition str (s : string) : jsstring :=
  List.map N_of_ascii (list_ascii_of_string s).

Fixpoint jsstring_eqb (a b : jsstring) : bool :=
  match a, b with
  | [], [] => true
  | x :: a', y :: b' => (x =? y)%N && jsstring_eqb a' b'
  | _, _ => false
  end.

(** Values: [JInt z] is the number with integer value [z]; [JFloat bits] is
    the number a float32 read produced from the pattern [bits]; [JObject]
    is a plain object (prototype [Object.prototype]) given by its own
    properties in [Object.keys] order. *)
Inductive jsval : Type :=
| JUndefined
| JNull
| JBool (b : bool)
| JInt (z : Z)
| JFloat (bits : Z)
| JString (s : jsstring)
| JArray (items : list jsval)
| JObject (props : list (jsstring * jsval)).

Definition jsobj := list (jsstring * jsval).

(** *** float32 patterns *)

Definition f32_exponent (bits : Z) : Z := Z.shiftr bits 23 mod 256.
Definition f32_fraction (bits : Z) : Z := bits mod 2 ^ 23.
Definition f32_negative (bits : Z) : bool := Z.testbit bits 31.

Definition f32_is_nan (bits : Z) : bool :=
  (f32_exponent bits =? 255) && negb (f32_fraction bits =? 0).

Definition f32_is_zero (bits : Z) : bool :=
  (f32_exponent bits =? 0) && (f32_fraction bits =? 0).

(** The pattern of the number 1. *)
Definition f32_one : Z := 0x3F800000.

(** The integer a float32 pattern denotes, when it denotes one. *)
Definition f32_int_value (bits : Z) : option Z :=
  let e := f32_exponent bits in
  let sig := 2 ^ 23 + f32_fraction bits in
  let sgn := if f32_negative bits then -1 else 1 in
  if e =? 255 then None
  else if e =? 0 then (if f32_fraction bits =? 0 then Some 0 else None)
  else if 150 <=? e then Some (sgn * (sig * 2 ^ (e - 150)))
  else if sig mod 2 ^ (150 - e) =? 0 then Some (sgn * (sig / 2 ^ (150 - e)))
  else None.

(** [typeof v === 'number' && Number.isInteger(v)], with the value. *)
Definition as_integer (v : jsval) : option Z :=
  match v with
  | JInt z => Some z
  | JFloat bits => f32_int_value bits
  | _ => None
  end.

(** [v === k] for an integer constant [k]. *)
Definition is_number (k : Z) (v : jsval) : bool :=
  match as_integer v with
  | Some z => z =? k
  | None => false
  end.

(* ================================================================== *)
(** ** Plain objects *)

(** An array index is the canonical decimal form of an integer below
    2^32 - 1; such property keys come first, in ascending order, in
    [Object.keys]; the other keys follow in insertion order. *)
Definition digit_value (c : N) : option N :=
  if ((48 <=? c) && (c <=? 57))%N then Some (c - 48)%N else None.

Fixpoint decimal_value (acc : N) (s : jsstring) : option N :=
  match s with
  | [] => Some acc
  | c :: s' =>
      match digit_value c with
      | Some d => decimal_value (10 * acc + d)%N s'
      | None => None
      end
  end.

Definition array_index (s : jsstring) : option N :=
  match s with
  | [] => None
  | [c] => digit_value c
  | c :: _ =>
      if (c =? 48)%N then None
      else if (10 <? N.of_nat (length s))%N then None
      else match decimal_value 0 s with
           | Some n => if (n <? 4294967295)%N then Some n else None
           | None => None
           end
  end.

(** [goes_before k k']: a new key [k] is listed before the present key [k']. *)
Definition goes_before (k k' : jsstring) : bool :=
  match array_index k, array_index k' with
  | Some i, Some j => (i <? j)%N
  | Some _, None => true
  | None, _ => false
  end.

Section Objects.
Variable V : Type.

(** Own-property lookup. *)
Fixpoint obj_get (k : jsstring) (o : list (jsstring * V)) : option V :=
  match o with
  | [] => None
  | (k', v) :: o' => if jsstring_eqb k k' then Some v else obj_get k o'
  end.

Definition obj_has_own (k : jsstring) (o : list (jsstring * V)) : bool :=
  match obj_get k o with Some _ => true | None => false end.

(** Defining or overwriting an own data property: an existing key keeps
    its place and takes the new value. *)
Fixpoint obj_set (k : jsstring) (v : V) (o : list (jsstring * V))
  : list (jsstring * V) :=
  match o with
  | [] => [(k, v)]
  | (k', v') :: o' =>
      if jsstring_eqb k k' then (k', v) :: o'
      else if goes_before k k' then (k, v) :: (k', v') :: o'
      else (k', v') :: obj_set k v o'
  end.

Definition obj_keys (o : list (jsstring * V)) : list jsstring :=
  List.map fst o.

(** The own properties are listed the way [Object.keys] lists them. *)
Fixpoint obj_canonical (o : list (jsstring * V)) : bool :=
  match o with
  | [] => true
  | (k, _) :: o' =>
      forallb (fun kv => negb (jsstring_eqb k (fst kv))
                         && negb (goes_before (fst kv) k)) o'
      && obj_canonical o'
  end.
End Objects.

(** The property names every plain object inherits from
    [Object.prototype]. *)
Definition Object_prototype_keys : list jsstring :=
  List.map str
    ["constructor"; "__defineGetter__"; "__defineSetter__"; "hasOwnProperty";
     "__lookupGetter__"; "__lookupSetter__"; "isPrototypeOf";
     "propertyIsEnumerable"; "toString"; "valueOf"; "__proto__";
     "toLocaleString"]%string.

Definition inherited (k : jsstring) : bool :=
  existsb (jsstring_eqb k) Object_prototype_keys.

(** [k in o] for a plain object [o]. *)
Definition obj_in (V : Type) (k : jsstring) (o : list (jsstring * V)) : bool :=
  obj_has_own k o || inherited k.

(** [v.name] for a value that is an object or an array. *)
Definition get_prop (name : string) (v : jsval) : jsval :=
  match v with
  | JObject props =>
      match obj_get (str name) props with
      | Some x => x
      | None => JUndefined
      end
  | _ => JUndefined
  end.

(* ================================================================== *)
(** ** Outcomes of a call *)

(** What the bundle throws: the RangeError of a DataView access or of
    [new Array] with a negative length, the Error of an unsupported version,
    the Error of a string missing from the cache, the Error of an
    unsupported value type, and the TypeError of a property access on
    undefined. *)
Inductive error : Type :=
| RangeError
| UnsupportedVersion
| CacheMiss (s : jsstring)
| UnsupportedValueType
| TypeError.

(** A call returns, throws, does not come back within the fuel given to
    the model ([Diverge]), or leaves the fragment of JavaScript that is
    modelled ([Unmodelled]: a prototype change through [__proto__], a write
    of NaN, a coercion between strings, numbers and objects). *)
Inductive outcome (A : Type) : Type :=
| Ok (a : A)
| Throw (e : error)
| Diverge
| Unmodelled.

Arguments Throw {A} e.
Arguments Diverge {A}.
Arguments Unmodelled {A}.

Definition outcome_bind (A B : Type) (o : outcome A) (f : A -> outcome B)
  : outcome B :=
  match o with
  | Ok a => f a
  | Throw e => Throw e
  | Diverge => Diverge
  | Unmodelled => Unmodelled
  end.

Notation "x <~ o ;; k" := (outcome_bind o (fun x => k))
  (at level 61, o at next level, right associativity).

(* ================================================================== *)
(** ** BinaryReader *)

(** The reader's typed array and its cursor.  [rewound] is a history flag
    that is not in the source: it records that [readBytes] was once called
    with a negative length, the one way the cursor moves backwards.  No
    operation reads it. *)
Record BinaryReader : Type := mkReader {
  buffer : bytes;
  offset : Z;
  rewound : bool
}.

Definition new_BinaryReader (b : bytes) : BinaryReader :=
  {| buffer := b; offset := 0; rewound := false |}.

Definition set_offset (r : BinaryReader) (o : Z) : BinaryReader :=
  {| buffer := buffer r; offset := o; rewound := rewound r |}.

(** A method that uses a reader: its outcome and the reader as the call
    leaves it (the reader is a mutable object, so it keeps its state when
    the call throws). *)
Definition M (A : Type) : Type := BinaryReader -> outcome A * BinaryReader.

Definition ret (A : Type) (a : A) : M A := fun r => (Ok a, r).

Definition bind (A B : Type) (m : M A) (f : A -> M B) : M B :=
  fun r =>
    match m r with
    | (Ok a, r') => f a r'
    | (Throw e, r') => (Throw e, r')
    | (Diverge, r') => (Diverge, r')
    | (Unmodelled, r') => (Unmodelled, r')
    end.

Definition lift (A : Type) (o : outcome A) : M A := fun r => (o, r).

Definition throw (A : Type) (e : error) : M A := lift (Throw e).

Arguments throw {A} e.

Notation "x <- m ;; k" := (bind m (fun x => k))
  (at level 61, m at next level, right associativity).
Notation "m ;;; k" := (bind m (fun _ => k))
  (at level 61, right associativity).

Definition of_view (A : Type) (x : option A) : outcome A :=
  match x with
  | Some a => Ok a
  | None => Throw RangeError
  end.

(** [readByte() { return this.view.getUint8(this.offset++); }]: the cursor
    is advanced before the getter runs. *)
Definition readByte : M Z :=
  fun r => (of_view (getUint8 (buffer r) (offset r)),
            set_offset r (offset r + 1)).

Definition readSignedByte : M Z :=
  fun r => (of_view (getInt8 (buffer r) (offset r)),
            set_offset r (offset r + 1)).

(** [readInt]: the getter runs first, the cursor moves when it returned. *)
Definition readInt : M Z :=
  fun r =>
    match getInt32 (buffer r) (offset r) with
    | Some v => (Ok v, set_offset r (offset r + 4))
    | None => (Throw RangeError, r)
    end.

Definition readFloat : M Z :=
  fun r =>
    match getFloat32 (buffer r) (offset r) with
    | Some v => (Ok v, set_offset r (offset r + 4))
    | None => (Throw RangeError, r)
    end.

(** [readBytes(len)]: a slice of the typed array, which never throws. *)
Definition readBytes (len : Z) : M bytes :=
  fun r =>
    (Ok (slice (buffer r) (offset r) (offset r + len)),
     {| buffer := buffer r;
        offset := offset r + len;
        rewound := rewound r || (len <? 0) |}).

(** [reader.offset += n]. *)
Definition skip (n : Z) : M unit :=
  fun r => (Ok tt, set_offset r (offset r + n)).

(** A counted [for] loop whose body pushes one element. *)
Fixpoint repeatM (A : Type) (n : nat) (body : M A) : M (list A) :=
  match n with
  | O => ret []
  | S n' => x <- body ;; xs <- repeatM n' body ;; ret (x :: xs)
  end.

(* ================================================================== *)
(** ** Type codes *)

Definition CINT : Z := 1.
Definition CSTRING : Z := 2.
Definition CMAP : Z := 3.
Definition ENDOFMAP : Z := 4.
Definition BOOL : Z := 5.
Definition CCOLOR : Z := 6.
Definition CFLOAT : Z := 7.
Definition CACHED_STRING : Z := 9.
Definition RECT32 : Z := 11.
Definition CNULL : Z := 12.


(* ================================================================== *)
(** ** Hexadecimal colours *)

(** The code unit of the hexadecimal digit of [d] (lower case, as
    [toString(16)] writes it). *)
Definition hex_digit (d : Z) : N :=
  if d <? 10 then Z.to_N (48 + d) else Z.to_N (87 + d).

(** [b.toString(16)] for a byte. *)
Definition toString16 (b : byte) : jsstring :=
  let z := Z_of_byte b in
  if z <? 16 then [hex_digit z] else [hex_digit (z / 16); hex_digit (z mod 16)].

(** [s.padStart(2, '0')]. *)
Definition padStart2 (s : jsstring) : jsstring :=
  List.repeat 48%N (2 - length s) ++ s.

(** [toUpperCase] on the code units of the ASCII letters, the only letters
    [_hexFromBytes] applies it to. *)
Definition toUpperCase (s : jsstring) : jsstring :=
  List.map (fun c => if ((97 <=? c) && (c <=? 122))%N then (c - 32)%N else c) s.

Definition _hexFromBytes (data : bytes) : jsstring :=
  toUpperCase (List.concat (List.map (fun b => padStart2 (toString16 b)) data)).

(** The value of a hexadecimal digit, for the digits [/[0-9a-fA-F]/] keeps. *)
Definition hex_value (c : N) : option Z :=
  if ((48 <=? c) && (c <=? 57))%N then Some (Z.of_N c - 48)
  else if ((97 <=? c) && (c <=? 102))%N then Some (Z.of_N c - 87)
  else if ((65 <=? c) && (c <=? 70))%N then Some (Z.of_N c - 55)
  else None.

Definition is_hex (c : N) : bool :=
  match hex_value c with Some _ => true | None => false end.

Definition hex_or_zero (c : N) : Z :=
  match hex_value c with Some d => d | None => 0 end.

(** [out[i / 2] = parseInt(clean.substring(i, i + 2), 16)] for [i] = 0, 2,
    ...: a last single digit falls outside the array of [clean.length / 2]
    bytes and is dropped. *)
Fixpoint hex_pairs (clean : jsstring) : bytes :=
  match clean with
  | a :: b :: rest => byte_of_Z (16 * hex_or_zero a + hex_or_zero b) :: hex_pairs rest
  | _ => []
  end.

Definition _hexToBytes (hex : jsstring) : bytes :=
  hex_pairs (List.filter is_hex hex).

(** [s.substring(2)]. *)
Definition substring2 (s : jsstring) : jsstring := skipn 2 s.

(* ================================================================== *)
(** ** The document *)

(** A control-type entry: each field is a string or, when a cache reference
    pointed outside the cache, undefined ([None]). *)
Record control_header : Type := {
  Name : option jsstring;
  JavaType : option jsstring;
  DesignerType : option jsstring
}.

Record layout_header : Type := {
  Version : Z;
  GridSize : Z;
  ControlsHeaders : list control_header;
  Files : list jsstring;
  DesignerScript : list jsstring
}.

(** [Scale] is a float32 pattern, [Width] and [Height] are integers. *)
Record variant : Type := {
  Scale : Z;
  Width : Z;
  Height : Z
}.

Record design : Type := {
  LayoutHeader : layout_header;
  Variants : list variant;
  Data : jsobj;
  FontAwesome : bool;
  MaterialIcons : bool
}.

(** The object literal [{ ValueType: type, ... }] of a tagged value. *)
Definition tagged (type : Z) (rest : jsobj) : jsval :=
  JObject ((str "ValueType", JInt type) :: rest).

Definition tagged_value (type : Z) (v : jsval) : jsval :=
  tagged type [(str "Value", v)].

(** The property key of [map[key]] for a key that is a string or undefined. *)
Definition property_key (key : option jsstring) : jsstring :=
  match key with
  | Some s => s
  | None => str "undefined"
  end.

Definition string_or_undefined (s : option jsstring) : jsval :=
  match s with
  | Some x => JString x
  | None => JUndefined
  end.

(** [map[key] = value] on a plain object.  Every key but [__proto__]
    defines or overwrites an own property.  [__proto__] reaches the setter
    of [Object.prototype]: it ignores a primitive value and replaces the
    prototype by an object or null, which a [jsobj] cannot express. *)
Definition assign (key : jsstring) (value : jsval) (map : jsobj) : outcome jsobj :=
  if jsstring_eqb key (str "__proto__") then
    match value with
    | JObject _ | JArray _ | JNull => Unmodelled
    | _ => Ok map
    end
  else Ok (obj_set key value map).

(** [value << shift] on int32 operands: the shift count is taken modulo 32
    and the result wraps to 32 bits. *)
Definition shl32 (value shift : Z) : Z := wrap 32 (value * 2 ^ (shift mod 32)).

(** The four shorts of a Rect: [v.getInt16(i, true)] for [i] = 0, 2, 4, 6
    over the bytes [readBytes(8)] returned, which are fewer than 8 at the
    end of the buffer. *)
Definition rect_shorts (d : bytes) : outcome jsval :=
  match getInt16 d 0, getInt16 d 2, getInt16 d 4, getInt16 d 6 with
  | Some a, Some b, Some c, Some e => Ok (JArray [JInt a; JInt b; JInt c; JInt e])
  | _, _, _, _ => Throw RangeError
  end.

(* ================================================================== *)
(** ** A platform for the examples *)

(** A text codec with one byte per code unit, and a container that only
    puts the two magic bytes of gzip before the data.  The examples at the
    end of the development run the converter on this platform. *)
Definition latin1_decode (b : bytes) : jsstring := List.map Byte.to_N b.

Definition latin1_encode (s : jsstring) : bytes :=
  List.map (fun c => byte_of_Z (Z.of_N c)) s.

Definition stored_gzip (b : bytes) : bytes := x1f :: x8b :: b.

Definition stored_ungzip (b : bytes) : option bytes :=
  match b with
  | x1f :: x8b :: data => Some data
  | _ => None
  end.

(* ================================================================== *)
(** ** The platform *)

(** The functions of the browser the bundle calls:
    [new TextDecoder().decode(bytes)], [new TextEncoder().encode(s)],
    [pako.ungzip(bytes)] ([None] when it throws, or returns no byte
    array, so that building the reader on its result throws) and
    [pako.gzip(bytes, { level: 9, mtime: 0 })]. *)
Record platform : Type := {
  TextDecoder_decode : bytes -> jsstring;
  TextEncoder_encode : jsstring -> bytes;
  pako_ungzip : bytes -> option bytes;
  pako_gzip : bytes -> bytes
}.

Definition example_platform : platform := {|
  TextDecoder_decode := latin1_decode;
  TextEncoder_encode := latin1_encode;
  pako_ungzip := stored_ungzip;
  pako_gzip := stored_gzip
|}.

(** A document for the examples: one control type, one file, one variant
    with its script, and a body with a string, a number, a boolean, a Null
    and a Rect entry and a nested map. *)
Definition example_design : design :=
  {| LayoutHeader :=
       {| Version := 4; GridSize := 10;
          ControlsHeaders :=
            [{| Name := Some (str "Button1");
                JavaType := Some (str ".ButtonWrapper");
                DesignerType := Some (str "Button") |}];
          Files := [str "logo.png"];
          DesignerScript := [str "AutoScaleAll"; str "Button1.Left = 10dip"] |};
     Variants := [{| Scale := f32_one; Width := 320; Height := 480 |}];
     Data := [(str "name", JString (str "Main"));
              (str "left", JInt 10);
              (str "visible", JBool true);
              (str "tag", JObject [(str "ValueType", JInt CNULL)]);
              (str "padding",
               JObject [(str "ValueType", JInt RECT32);
                        (str "Value", JArray [JInt 1; JInt 2; JInt 3; JInt 4])]);
              (str "font",
               JObject [(str "size",
                         JObject [(str "ValueType", JInt CFLOAT);
                                  (str "Value", JFloat f32_one)]);
                        (str "extra", JObject [(str "ValueType", JInt CNULL)])])];
     FontAwesome := true; MaterialIcons := false |}.

Section Platform.

Variable P : platform.

(* ------------------------------------------------------------------ *)
(** *** Decoding *)

Definition _readString : M jsstring :=
  len <- readInt ;;
  b <- readBytes len ;;
  ret (TextDecoder_decode P b).

(** [new Array(count)] throws a RangeError for a negative count. *)
Definition _loadStringsCache : M (list jsstring) :=
  count <- readInt ;;
  if count <? 0 then throw RangeError
  else repeatM (Z.to_nat count) _readString.

(** [cache[i]]: undefined outside the array. *)
Definition cache_at (cache : list jsstring) (i : Z) : option jsstring :=
  if i <? 0 then None else nth_error cache (Z.to_nat i).

Definition _readCachedString (cache : list jsstring) : M (option jsstring) :=
  match cache with
  | [] => s <- _readString ;; ret (Some s)
  | _ => i <- readInt ;; ret (cache_at cache i)
  end.

(** The cases of the switch on the type code; [None] is the default case.
    [readNested] reads a nested map. *)
Definition read_value (readNested : M jsobj) (cache : list jsstring) (type : Z)
  : M (option jsval) :=
  if type =? CINT then v <- readInt ;; ret (Some (JInt v))
  else if type =? CACHED_STRING then
    s <- _readCachedString cache ;; ret (Some (string_or_undefined s))
  else if type =? CFLOAT then
    v <- readFloat ;; ret (Some (tagged_value type (JFloat v)))
  else if type =? CSTRING then
    s <- _readString ;; ret (Some (tagged_value type (JString s)))
  else if type =? BOOL then
    b <- readSignedByte ;; ret (Some (JBool (b =? 1)))
  else if type =? CMAP then
    m <- readNested ;; ret (Some (JObject m))
  else if type =? CNULL then ret (Some (tagged type []))
  else if type =? CCOLOR then
    d <- readBytes 4 ;;
    ret (Some (tagged_value type (JString (str "0x" ++ _hexFromBytes d))))
  else if type =? RECT32 then
    d <- readBytes 8 ;;
    shorts <- lift (rect_shorts d) ;;
    ret (Some (tagged_value type shorts))
  else ret None.

(** [_readMap]: the [while (true)] loop, with [map] the object built so
    far; every iteration and every nested map takes one unit of fuel. *)
Fixpoint _readMap (fuel : nat) (cache : list jsstring) (map : jsobj) : M jsobj :=
  match fuel with
  | O => lift Diverge
  | S fuel' =>
      key <- _readCachedString cache ;;
      type <- readSignedByte ;;
      if type =? ENDOFMAP then ret map
      else
        v <- read_value (_readMap fuel' cache []) cache type ;;
        match v with
        | None => ret map
        | Some value =>
            map' <- lift (assign (property_key key) value map) ;;
            _readMap fuel' cache map'
        end
  end.

(** [_readBinaryString]: the length is a base-128 number, low group first;
    a byte that equals its low seven bits (a non-negative signed byte) ends
    it.  Every iteration reads one byte, so the bytes that remain bound the
    loop. *)
Fixpoint binary_string_length (fuel : nat) (length shift : Z) : M Z :=
  match fuel with
  | O => lift Diverge
  | S fuel' =>
      b <- readSignedByte ;;
      let value := Z.land b 0x7f in
      let length := length + shl32 value shift in
      if b =? value then ret length
      else binary_string_length fuel' length (shift + 7)
  end.

Definition _readBinaryString : M jsstring :=
  fun r =>
    (length <- binary_string_length
                 (S (Z.to_nat (blen (buffer r) - offset r))) 0 0 ;;
     data <- readBytes length ;;
     ret (TextDecoder_decode P data)) r.

Definition _readVariantFromStream : M variant :=
  scale <- readFloat ;;
  width <- readInt ;;
  height <- readInt ;;
  ret {| Scale := scale; Width := width; Height := height |}.

(** The body of the [try] block of [_readScripts], over the reader of the
    decompressed bytes. *)
Definition read_script_stream : M (list jsstring) :=
  general <- _readBinaryString ;;
  NumberOfVariants <- readInt ;;
  rest <- repeatM (Z.to_nat NumberOfVariants)
            (_readVariantFromStream ;;; _readBinaryString) ;;
  ret (general :: rest).

(** [_readScripts]: the length and the raw bytes are read outside the
    [try]; whatever is thrown inside it yields the empty list. *)
Definition _readScripts : M (list jsstring) :=
  len <- readInt ;;
  rawData <- readBytes len ;;
  match pako_ungzip P rawData with
  | None => ret []
  | Some decompressed =>
      match fst (read_script_stream (new_BinaryReader decompressed)) with
      | Ok res => ret res
      | Throw _ => ret []
      | Diverge => lift Diverge
      | Unmodelled => lift Unmodelled
      end
  end.

Definition read_control_header (cache : list jsstring) : M control_header :=
  name <- _readCachedString cache ;;
  javaType <- _readCachedString cache ;;
  designerType <- _readCachedString cache ;;
  ret {| Name := name; JavaType := javaType; DesignerType := designerType |}.

(** The statements of [_readLayoutHeader] between the version check and the
    script section: the skipped header length, the grid size, the header's
    string cache, the control types and the files. *)
Definition read_header_fields (version : Z)
  : M (Z * list control_header * list jsstring) :=
  skip 4 ;;;
  gridSize <- (if 4 <=? version then readInt else ret 10) ;;
  cache <- _loadStringsCache ;;
  cCount <- readInt ;;
  controls <- repeatM (Z.to_nat cCount) (read_control_header cache) ;;
  fCount <- readInt ;;
  files <- repeatM (Z.to_nat fCount) _readString ;;
  ret (gridSize, controls, files).

Definition _readLayoutHeader : M layout_header :=
  version <- readInt ;;
  if version <? 3 then
    ret {| Version := version; GridSize := 10; ControlsHeaders := [];
           Files := []; DesignerScript := [] |}
  else
    fields <- read_header_fields version ;;
    scripts <- _readScripts ;;
    ret {| Version := version; GridSize := fst (fst fields);
           ControlsHeaders := snd (fst fields); Files := snd fields;
           DesignerScript := scripts |}.

(** [convertBjlToJsonFromBytes], from a reader; [fuel] bounds the loop of
    [_readMap]. *)
Definition read_design (fuel : nat) : M design :=
  header <- _readLayoutHeader ;;
  if Version header <? 3 then throw UnsupportedVersion
  else
    cache <- _loadStringsCache ;;
    variantCount <- readInt ;;
    variants <- repeatM (Z.to_nat variantCount) _readVariantFromStream ;;
    data <- _readMap fuel cache [] ;;
    readInt ;;;
    fontAwesome <- readSignedByte ;;
    materialIcons <- readSignedByte ;;
    ret {| LayoutHeader := header; Variants := variants; Data := data;
           FontAwesome := fontAwesome =? 1;
           MaterialIcons := materialIcons =? 1 |}.

Definition convertBjlToJsonFromBytes (fuel : nat) (b : bytes) : outcome design :=
  fst (read_design fuel (new_BinaryReader b)).

(* ------------------------------------------------------------------ *)
(** *** BinaryWriter *)

(** The writer is given by the bytes written so far, [buffer.slice(0,
    offset)]: the capacity it grows in [ensure] is not observable. *)
Definition BinaryWriter : Type := bytes.

Definition new_BinaryWriter : BinaryWriter := [].

(** [writeByte(v)] stores [v & 0xff]. *)
Definition writeByte (w : BinaryWriter) (v : Z) : BinaryWriter :=
  w ++ [byte_of_Z (Z.land v 0xff)].

(** [writeInt(v)] stores [v | 0], little-endian. *)
Definition writeInt (w : BinaryWriter) (v : Z) : BinaryWriter :=
  w ++ le_bytes 4 (wrap 32 v).

(** [writeFloat] of the number a float32 pattern denotes (not NaN). *)
Definition writeFloat (w : BinaryWriter) (bits : Z) : BinaryWriter :=
  w ++ le_bytes 4 bits.

Definition writeBytes (w : BinaryWriter) (b : bytes) : BinaryWriter := w ++ b.

(** [updateInt(offset, v)] over bytes already written. *)
Definition updateInt (w : BinaryWriter) (off : nat) (v : Z) : BinaryWriter :=
  firstn off w ++ le_bytes 4 (wrap 32 v) ++ skipn (off + 4) w.

Definition getBuffer (w : BinaryWriter) : bytes := w.

Definition writer_offset (w : BinaryWriter) : nat := length w.

(* ------------------------------------------------------------------ *)
(** *** Encoding *)

Definition _writeString (w : BinaryWriter) (s : jsstring) : BinaryWriter :=
  let b := TextEncoder_encode P s in
  writeBytes (writeInt w (blen b)) b.

Definition _writeStringsCacheInOrder (w : BinaryWriter) (order : list jsstring)
  : BinaryWriter :=
  fold_left _writeString order (writeInt w (Z.of_nat (length order))).

(** A string cache: the plain object that maps a string to its index. *)
Definition string_cache : Type := list (jsstring * Z).

(** [_writeCachedString]: with an empty cache the string is written in
    full ([encode(undefined)] is the encoding of the empty string); with a
    cache, only a string that is an own property of it can be written. *)
Definition _writeCachedString (w : BinaryWriter) (cache : string_cache)
    (s : option jsstring) : outcome BinaryWriter :=
  match cache with
  | [] => Ok (_writeString w (match s with Some x => x | None => [] end))
  | _ =>
      match obj_get (property_key s) cache with
      | Some i => Ok (writeInt w i)
      | None => Throw (CacheMiss (property_key s))
      end
  end.

(** [if (!(key in cache)) { cache[key] = Object.keys(cache).length;
    order.push(key); }] *)
Definition collect (key : jsstring) (st : string_cache * list jsstring)
  : string_cache * list jsstring :=
  let (cache, order) := st in
  if obj_in key cache then st
  else (obj_set key (Z.of_nat (length cache)) cache, order ++ [key]).

Definition is_object (v : jsval) : bool :=
  match v with
  | JObject _ | JArray _ => true
  | _ => false
  end.

Definition is_undefined (v : jsval) : bool :=
  match v with
  | JUndefined => true
  | _ => false
  end.

(** The decimal form of an array index. *)
Fixpoint decimal_digits (fuel : nat) (n : N) (acc : jsstring) : jsstring :=
  match fuel with
  | O => acc
  | S fuel' =>
      let acc' := (48 + n mod 10)%N :: acc in
      if (n <? 10)%N then acc' else decimal_digits fuel' (n / 10)%N acc'
  end.

Definition index_key (i : nat) : jsstring :=
  decimal_digits (S i) (N.of_nat i) [].

Fixpoint indexed (i : nat) (items : list jsval) : jsobj :=
  match items with
  | [] => []
  | x :: items' => (index_key i, x) :: indexed (S i) items'
  end.

(** The own enumerable properties [Object.keys(m)] walks, with values. *)
Definition entries (m : jsval) : jsobj :=
  match m with
  | JObject props => props
  | JArray items => indexed 0 items
  | _ => []
  end.

(** What [_collectStringsInOrder] does with the value of a key. *)
Definition collect_value (recurse : jsval -> string_cache * list jsstring ->
                                    string_cache * list jsstring)
    (val : jsval) (st : string_cache * list jsstring)
  : string_cache * list jsstring :=
  if is_object val then
    if is_undefined (get_prop "ValueType" val) then recurse val st
    else if is_number CSTRING (get_prop "ValueType" val) then
      match get_prop "Value" val with
      | JString s => collect s st
      | _ => st
      end
    else st
  else
    match val with
    | JString s => collect s st
    | _ => st
    end.

Fixpoint _collectStringsInOrder (data : jsval)
    (st : string_cache * list jsstring) : string_cache * list jsstring :=
  match data with
  | JArray items =>
      fold_left (fun st item => _collectStringsInOrder item st) items st
  | JObject props =>
      fold_left
        (fun st kv =>
           collect_value
             (fun val st =>
                match val with
                | JArray _ | JObject _ => _collectStringsInOrder val st
                | _ => st
                end)
             (snd kv) (collect (fst kv) st))
        props st
  | _ => st
  end.

(** [ToInt32(v)] as [writeByte(v)] applies it in [v & 0xff]; strings and
    objects are not modelled. *)
Definition to_int32 (v : jsval) : outcome Z :=
  match v with
  | JUndefined | JNull => Ok 0
  | JBool b => Ok (if b then 1 else 0)
  | JString _ | JArray _ | JObject _ => Unmodelled
  | _ => match as_integer v with Some z => Ok z | None => Unmodelled end
  end.

(** [String(v)]; numbers and objects are not modelled. *)
Definition ToString (v : jsval) : outcome jsstring :=
  match v with
  | JString s => Ok s
  | JUndefined => Ok (str "undefined")
  | JNull => Ok (str "null")
  | JBool b => Ok (if b then str "true" else str "false")
  | _ => Unmodelled
  end.

(** The string [new TextEncoder().encode(v)] encodes: the empty string for
    undefined (the default of the parameter), [String(v)] otherwise. *)
Definition encode_argument (v : jsval) : outcome jsstring :=
  match v with
  | JUndefined => Ok []
  | _ => ToString v
  end.

(** [setInt16(i * 2, shorts[i], true)] for the elements of an array of
    integers. *)
Fixpoint shorts_bytes (shorts : list jsval) : outcome bytes :=
  match shorts with
  | [] => Ok []
  | x :: rest =>
      match as_integer x with
      | Some z => outcome_bind (shorts_bytes rest)
                    (fun b => Ok (le_bytes 2 (wrap 16 z) ++ b))
      | None => Unmodelled
      end
  end.

(** [_shortsToBytes(shorts)]: [shorts.length] throws a TypeError on
    undefined and null. *)
Definition _shortsToBytes (shorts : jsval) : outcome bytes :=
  match shorts with
  | JArray items => shorts_bytes items
  | JUndefined | JNull => Throw TypeError
  | _ => Unmodelled
  end.

(** The switch on the type code of a tagged value, after the code was
    written. *)
Definition write_tagged_payload (w : BinaryWriter) (b : jsval) (val : jsval)
  : outcome BinaryWriter :=
  if is_number CSTRING b then
    s <~ encode_argument (get_prop "Value" val) ;; Ok (_writeString w s)
  else if is_number CFLOAT b then
    match get_prop "Value" val with
    | JFloat bits => if f32_is_nan bits then Unmodelled else Ok (writeFloat w bits)
    | _ => Unmodelled
    end
  else if is_number CCOLOR b then
    hexColor <~ ToString (get_prop "Value" val) ;;
    Ok (writeBytes w (_hexToBytes (substring2 hexColor)))
  else if is_number RECT32 b then
    data <~ _shortsToBytes (get_prop "Value" val) ;; Ok (writeBytes w data)
  else Ok w.

(** One iteration of the loop of [_writeMap] over the key [k] with value
    [val]; [writeNested] writes [val] as a nested map. *)
Definition write_entry (toBil : bool) (cache : string_cache)
    (writeNested : BinaryWriter -> outcome BinaryWriter)
    (k : jsstring) (val : jsval) (w : BinaryWriter) : outcome BinaryWriter :=
  let type := get_prop "ValueType" val in
  if toBil && is_object val && (is_number CNULL type || is_number RECT32 type)
  then Ok w
  else
    w <~ _writeCachedString w cache (Some k) ;;
    if is_object val then
      if negb (is_undefined type) then
        b <~ to_int32 type ;;
        write_tagged_payload (writeByte w b) type val
      else
        w <~ writeNested (writeByte w CMAP) ;;
        Ok (writeByte (_writeString w []) ENDOFMAP)
    else
      match as_integer val with
      | Some z => Ok (writeInt (writeByte w CINT) z)
      | None =>
          match val with
          | JString s =>
              _writeCachedString (writeByte w CACHED_STRING) cache (Some s)
          | JBool b => Ok (writeByte (writeByte w BOOL) (if b then 1 else 0))
          | JNull => Ok (writeByte w CNULL)
          | _ => Throw UnsupportedValueType
          end
      end.

(** The loop over [Object.keys(m)] of a plain object ... *)
Fixpoint write_entries
    (entry : jsstring -> jsval -> BinaryWriter -> outcome BinaryWriter)
    (props : jsobj) (w : BinaryWriter) : outcome BinaryWriter :=
  match props with
  | [] => Ok w
  | (k, val) :: props' => w' <~ entry k val w ;; write_entries entry props' w'
  end.

(** ... and of an array, whose keys are its indices. *)
Fixpoint write_items
    (entry : jsstring -> jsval -> BinaryWriter -> outcome BinaryWriter)
    (i : nat) (items : list jsval) (w : BinaryWriter) : outcome BinaryWriter :=
  match items with
  | [] => Ok w
  | val :: items' =>
      w' <~ entry (index_key i) val w ;; write_items entry (S i) items' w'
  end.

Fixpoint _writeMap (toBil : bool) (w : BinaryWriter) (m : jsval)
    (cache : string_cache) {struct m} : outcome BinaryWriter :=
  match m with
  | JObject props =>
      write_entries
        (fun k val =>
           write_entry toBil cache (fun w' => _writeMap toBil w' val cache) k val)
        props w
  | JArray items =>
      write_items
        (fun k val =>
           write_entry toBil cache (fun w' => _writeMap toBil w' val cache) k val)
        0 items w
  | _ => Ok w
  end.

(** [v.Scale || 1]: zero and NaN are falsy. *)
Definition scale_or_one (bits : Z) : Z :=
  if f32_is_zero bits || f32_is_nan bits then f32_one else bits.

Definition _writeVariant (w : BinaryWriter) (v : variant) : BinaryWriter :=
  let w := writeFloat w (scale_or_one (Scale v)) in
  let w := writeInt w (Width v) in
  writeInt w (Height v).

(** The loop of [_writeBinaryString]: seven bits of [len] per byte, the
    high bit set while bits remain; [len >>>= 7] takes [len] modulo 2^32
    first, so five iterations end the loop. *)
Fixpoint write_length (fuel : nat) (w : BinaryWriter) (len : Z) : BinaryWriter :=
  match fuel with
  | O => w
  | S fuel' =>
      let b := Z.land len 0x7f in
      let len' := Z.shiftr (len mod 2 ^ 32) 7 in
      if len' =? 0 then writeByte w b
      else write_length fuel' (writeByte w (Z.lor b 0x80)) len'
  end.

(** The length written is the number of code units of the string. *)
Definition _writeBinaryString (w : BinaryWriter) (s : jsstring) : BinaryWriter :=
  let raw := TextEncoder_encode P s in
  let w := write_length 5 w (Z.of_nat (length s)) in
  writeBytes w raw.

(** [scriptsCopy[i] || ""]. *)
Definition script_at (scripts : list jsstring) (i : nat) : jsstring :=
  nth i scripts [].

Fixpoint write_variant_scripts (w : BinaryWriter) (scripts : list jsstring)
    (scriptIdx : nat) (variants : list variant) : BinaryWriter :=
  match variants with
  | [] => w
  | v :: variants' =>
      write_variant_scripts
        (_writeBinaryString (_writeVariant w v) (script_at scripts scriptIdx))
        scripts (S scriptIdx) variants'
  end.

Definition _writeScripts (scripts : list jsstring) (variants : list variant)
  : bytes :=
  let w := _writeBinaryString new_BinaryWriter (script_at scripts 0) in
  let w := writeInt w (Z.of_nat (length variants)) in
  let w := write_variant_scripts w scripts 1 variants in
  pako_gzip P (getBuffer w).

(** [if (!(c.Name in cache)) cache[c.Name] = Object.keys(cache).length] *)
Definition collect_header (key : option jsstring) (cache : string_cache)
  : string_cache :=
  let k := property_key key in
  if obj_in k cache then cache
  else obj_set k (Z.of_nat (length cache)) cache.

Definition header_cache (controlsHeaders : list control_header) : string_cache :=
  fold_left
    (fun cache c =>
       collect_header (DesignerType c)
         (collect_header (JavaType c) (collect_header (Name c) cache)))
    controlsHeaders [].

Definition write_control_header (cache : string_cache) (w : BinaryWriter)
    (c : control_header) : outcome BinaryWriter :=
  w <~ _writeCachedString w cache (Name c) ;;
  w <~ _writeCachedString w cache (JavaType c) ;;
  _writeCachedString w cache (DesignerType c).

Fixpoint write_control_headers (cache : string_cache) (w : BinaryWriter)
    (cs : list control_header) : outcome BinaryWriter :=
  match cs with
  | [] => Ok w
  | c :: cs' =>
      w' <~ write_control_header cache w c ;; write_control_headers cache w' cs'
  end.

(** [_writeLayoutHeader], for a header whose script list is an array. *)
Definition _writeLayoutHeader (header : layout_header) (w : BinaryWriter)
    (variants : list variant) : outcome BinaryWriter :=
  let version := if Version header =? 0 then 4 else Version header in
  let w := writeInt w version in
  let headerSizePosition := writer_offset w in
  let w := writeInt w 0 in
  let w := if 4 <=? version
           then writeInt w (if GridSize header =? 0 then 10 else GridSize header)
           else w in
  let cache := header_cache (ControlsHeaders header) in
  tempWriter <~ write_control_headers cache
                  (writeInt new_BinaryWriter
                     (Z.of_nat (length (ControlsHeaders header))))
                  (ControlsHeaders header) ;;
  let cacheKeys := obj_keys cache in
  let w := writeInt w (Z.of_nat (length cacheKeys)) in
  let w := fold_left _writeString cacheKeys w in
  let w := writeBytes w (getBuffer tempWriter) in
  let w := writeInt w (Z.of_nat (length (Files header))) in
  let w := fold_left _writeString (Files header) w in
  let scriptBytes := _writeScripts (DesignerScript header) variants in
  let w := writeInt w (blen scriptBytes) in
  let w := writeBytes w scriptBytes in
  let finalPosition := writer_offset w in
  Ok (updateInt w headerSizePosition
        (Z.of_nat finalPosition - Z.of_nat headerSizePosition - 4)).

Definition _writeAllLayout (toBil : bool) (w : BinaryWriter)
    (variants : list variant) (data : jsobj) : outcome BinaryWriter :=
  let (cache, cacheOrder) := _collectStringsInOrder (JObject data) ([], []) in
  let tempWriter := writeInt new_BinaryWriter (Z.of_nat (length variants)) in
  let tempWriter := fold_left _writeVariant variants tempWriter in
  tempWriter <~ _writeMap toBil tempWriter (JObject data) cache ;;
  let tempWriter := _writeString tempWriter [] in
  let tempWriter := writeByte tempWriter ENDOFMAP in
  let w := _writeStringsCacheInOrder w cacheOrder in
  let w := writeBytes w (getBuffer tempWriter) in
  Ok (writeInt w 0).

(** [convertJsonToBjlToBytes] of a converter built with [toBil]. *)
Definition convertJsonToBjlToBytes (toBil : bool) (json : design)
  : outcome bytes :=
  w <~ _writeLayoutHeader (LayoutHeader json) new_BinaryWriter (Variants json) ;;
  w <~ _writeAllLayout toBil w (Variants json) (Data json) ;;
  let w := writeByte w (if FontAwesome json then 1 else 0) in
  let w := writeByte w (if MaterialIcons json then 1 else 0) in
  Ok (getBuffer w).

End Platform.

(* ================================================================== *)
(** * Predicates and functions of the statements *)

Unset Implicit Arguments.

(* ------------------------------------------------------------------ *)
(** *** Reading what lies at the cursor *)

(** The bytes from the cursor on. *)
Definition at_stream (r : BinaryReader) (s : bytes) : Prop :=
  0 <= offset r /\ skipn (Z.to_nat (offset r)) (buffer r) = s.

(** [reads m bs v]: run where [bs] lies at the cursor, [m] returns [v] and
    leaves the cursor behind [bs]. *)
Definition reads {A : Type} (m : M A) (bs : bytes) (v : A) : Prop :=
  forall r rest, at_stream r (bs ++ rest) ->
    exists r', m r = (Ok v, r') /\ at_stream r' rest.

(* ------------------------------------------------------------------ *)
(** *** The bytes that remain *)

(** The bytes between the cursor and the end of the buffer. *)
Definition remaining (r : BinaryReader) : Z := blen (buffer r) - offset r.

(* ------------------------------------------------------------------ *)
(** *** The string cache and the script block *)

(** The cache and the list of collected strings hold the same strings. *)
Definition cache_lists (st : string_cache * list jsstring) : Prop :=
  forall s, In s (obj_keys (fst st)) <-> In s (snd st).

(** The raw bytes of a script block cannot be decoded: decompression
    throws, or reading the scripts from the decompressed bytes throws. *)
Definition undecodable (P : platform) (rawData : bytes) : Prop :=
  pako_ungzip P rawData = None
  \/ exists d e,
       pako_ungzip P rawData = Some d
       /\ fst (read_script_stream P (new_BinaryReader d)) = Throw e.

(* ------------------------------------------------------------------ *)
(** *** The entries of a map on the wire *)

(** [m'] returns what [m] returns whenever [m] comes back within its
    fuel. *)
Definition refines {A : Type} (m m' : M A) : Prop :=
  forall r o r', m r = (o, r') -> o <> Diverge -> m' r = (o, r').

(** [wire_entries P fuel cache es r r']: from the cursor of [r] on lie the
    entries [es], in this order, each with a key, a type code other than
    ENDOFMAP and the payload of its value (a nested map is read with
    [fuel]); [r'] is the reader behind the last of them. *)
Fixpoint wire_entries (P : platform) (fuel : nat) (cache : list jsstring)
    (es : list (option jsstring * jsval)) (r r' : BinaryReader) : Prop :=
  match es with
  | [] => r = r'
  | (key, value) :: es' =>
      exists type r1 r2 r3,
        _readCachedString P cache r = (Ok key, r1)
        /\ readSignedByte r1 = (Ok type, r2)
        /\ type <> ENDOFMAP
        /\ read_value P (_readMap P fuel cache []) cache type r2
           = (Ok (Some value), r3)
        /\ wire_entries P fuel cache es' r3 r'
  end.

(** The assignments [map[key] = value] of a run of entries. *)
Fixpoint assign_all (es : list (option jsstring * jsval)) (map : jsobj)
  : outcome jsobj :=
  match es with
  | [] => Ok map
  | (key, value) :: es' =>
      outcome_bind (assign (property_key key) value map) (assign_all es')
  end.

(* ------------------------------------------------------------------ *)
(** *** The properties of a decoded map *)

(** The value of the last entry whose key is [k]. *)
Fixpoint last_value (k : jsstring) (es : list (option jsstring * jsval))
  : option jsval :=
  match es with
  | [] => None
  | (key, value) :: es' =>
      match last_value k es' with
      | Some v => Some v
      | None => if jsstring_eqb k (property_key key) then Some value else None
      end
  end.

(** A key that is neither [__proto__] nor an array index. *)
Definition plain_key (k : jsstring) : bool :=
  negb (jsstring_eqb k (str "__proto__"))
  && match array_index k with Some _ => false | None => true end.

Definition entry_property (e : option jsstring * jsval) : jsstring * jsval :=
  (property_key (fst e), snd e).

Definition is_array_index (k : jsstring) : bool :=
  match array_index k with Some _ => true | None => false end.

(** The keys of [l], each once, at the place of its first occurrence. *)
Fixpoint first_occurrences (l : list jsstring) : list jsstring :=
  match l with
  | [] => []
  | k :: l' =>
      k :: List.filter (fun k' => negb (jsstring_eqb k' k))
             (first_occurrences l')
  end.

(** The keys of the entries [es], as [map[key] = value] takes them. *)
Definition entry_keys (es : list (option jsstring * jsval)) : list jsstring :=
  List.map (fun e => property_key (fst e)) es.

(* ------------------------------------------------------------------ *)
(** *** Buffers that differ in the header length *)

(** Two buffers of the same length that agree everywhere but at the
    offsets 4 to 7, the place of the header length. *)
Definition same_outside_header_length (b1 b2 : bytes) : Prop :=
  length b1 = length b2
  /\ forall i : nat, (i < 4 \/ 8 <= i)%nat -> nth_error b1 i = nth_error b2 i.

(** Two readers in step behind the header length: the same cursor, at
    offset 8 or later, no negative length read so far, over such buffers. *)
Definition in_step (r1 r2 : BinaryReader) : Prop :=
  offset r1 = offset r2
  /\ 8 <= offset r1
  /\ rewound r1 = false
  /\ rewound r2 = false
  /\ same_outside_header_length (buffer r1) (buffer r2).

(** [m] keeps two readers in step for as long as no negative length is
    read, and never clears the flag of a negative length. *)
Definition lockstep {A : Type} (m : M A) : Prop :=
  (forall r, rewound r = true -> rewound (snd (m r)) = true)
  /\ (forall r1 r2, in_step r1 r2 -> rewound (snd (m r1)) = false ->
                    fst (m r2) = fst (m r1) /\ in_step (snd (m r1)) (snd (m r2))).

(* ------------------------------------------------------------------ *)
(** *** The decoder behind the header length *)

(** [read_design] behind the version field and the skipped header length,
    for a version that is supported. *)
Definition design_behind_length (P : platform) (fuel : nat) (version : Z)
  : M design :=
  header <- (fields <- (gridSize <- (if 4 <=? version then readInt else ret 10) ;;
                        cache <- _loadStringsCache P ;;
                        cCount <- readInt ;;
                        controls <- repeatM (Z.to_nat cCount)
                                      (read_control_header P cache) ;;
                        fCount <- readInt ;;
                        files <- repeatM (Z.to_nat fCount) (_readString P) ;;
                        ret (gridSize, controls, files)) ;;
             scripts <- _readScripts P ;;
             ret {| Version := version; GridSize := fst (fst fields);
                    ControlsHeaders := snd (fst fields); Files := snd fields;
                    DesignerScript := scripts |}) ;;
  if Version header <? 3 then throw UnsupportedVersion
  else
    cache <- _loadStringsCache P ;;
    variantCount <- readInt ;;
    variants <- repeatM (Z.to_nat variantCount) _readVariantFromStream ;;
    data <- _readMap P fuel cache [] ;;
    readInt ;;;
    fontAwesome <- readSignedByte ;;
    materialIcons <- readSignedByte ;;
    ret {| LayoutHeader := header; Variants := variants; Data := data;
           FontAwesome := fontAwesome =? 1;
           MaterialIcons := materialIcons =? 1 |}.

(* ------------------------------------------------------------------ *)
(** *** Documents that survive encoding and decoding *)

Definition int32 (z : Z) : bool := (- 2 ^ 31 <=? z) && (z <? 2 ^ 31).


(** A count that [writeInt] stores without wrapping. *)
Definition count_ok (n : nat) : bool := Z.of_nat n <? 2 ^ 31.

(** The platform decodes the encoding of [s] to [s] again, and the encoding
    is short enough for its length field. *)
Definition text_ok (P : platform) (s : jsstring) : bool :=
  jsstring_eqb (TextDecoder_decode P (TextEncoder_encode P s)) s
  && count_ok (length (TextEncoder_encode P s)).

(** The platform encodes the empty string to no bytes, and [pako.ungzip]
    undoes [pako.gzip]. *)
Definition platform_ok (P : platform) : Prop :=
  TextEncoder_encode P [] = []
  /\ forall b, pako_ungzip P (pako_gzip P b) = Some b.

(** The entries that reduced mode leaves out. *)
Definition skipped (v : jsval) : bool :=
  is_object v
  && (is_number CNULL (get_prop "ValueType" v)
      || is_number RECT32 (get_prop "ValueType" v)).













(** A script: its encoding has as many bytes as the string has code
    units. *)
Definition script_ok (P : platform) (s : jsstring) : bool :=
  text_ok P s && (length (TextEncoder_encode P s) =? length s)%nat.





(* ------------------------------------------------------------------ *)
(** *** The bytes of strings, tables and variants *)

(** The bytes of [_writeString]. *)
Definition string_bytes (P : platform) (s : jsstring) : bytes :=
  le_bytes 4 (wrap 32 (blen (TextEncoder_encode P s))) ++ TextEncoder_encode P s.

(** The bytes of a string table: the count, then the strings. *)
Definition table_bytes (P : platform) (l : list jsstring) : bytes :=
  le_bytes 4 (wrap 32 (Z.of_nat (length l)))
  ++ List.concat (List.map (string_bytes P) l).

(** The bytes of a variant. *)
Definition variant_bytes (v : variant) : bytes :=
  le_bytes 4 (scale_or_one (Scale v))
  ++ le_bytes 4 (wrap 32 (Width v)) ++ le_bytes 4 (wrap 32 (Height v)).

(* ------------------------------------------------------------------ *)
(** *** The two caches and the entries of a map *)

(** The encoder's cache and the decoder's cache agree on [s]. *)
Definition served (cache : string_cache) (arr : list jsstring) (s : jsstring)
  : Prop :=
  exists i, obj_get s cache = Some i /\ int32 i = true /\ 0 <= i
            /\ nth_error arr (Z.to_nat i) = Some s.

(** [bs] holds the entries [es]. *)
Definition wire_reads (P : platform) (fuel : nat) (arr : list jsstring)
    (bs : bytes) (es : list (option jsstring * jsval)) : Prop :=
  forall r rest, at_stream r (bs ++ rest) ->
    exists r', wire_entries P fuel arr es r r' /\ at_stream r' rest.



(** The end-of-map pair. *)
Definition sentinel (P : platform) : bytes :=
  string_bytes P [] ++ [byte_of_Z (Z.land ENDOFMAP 0xff)].

(* ------------------------------------------------------------------ *)
(** *** The strings of a nested value *)


(* ------------------------------------------------------------------ *)
(** *** The round trip of the entries *)


(* ------------------------------------------------------------------ *)
(** *** The cache the collection pass builds *)


(** The index the cache gives a string is the place of the string in the
    list of collected strings. *)
Definition cache_indexes (st : string_cache * list jsstring) : Prop :=
  length (fst st) = length (snd st)
  /\ forall s,
       match obj_get s (fst st) with
       | Some i => 0 <= i /\ nth_error (snd st) (Z.to_nat i) = Some s
       | None => ~ In s (snd st)
       end.

(* ------------------------------------------------------------------ *)
(** *** The bytes of a script string *)

(** The bytes of the loop of [_writeBinaryString]. *)
Fixpoint length_bytes (fuel : nat) (len : Z) : bytes :=
  match fuel with
  | O => []
  | S fuel' =>
      let b := Z.land len 0x7f in
      let len' := Z.shiftr (len mod 2 ^ 32) 7 in
      if len' =? 0 then [byte_of_Z (Z.land b 0xff)]
      else byte_of_Z (Z.land (Z.lor b 0x80) 0xff) :: length_bytes fuel' len'
  end.

(** The bytes of [_writeBinaryString]. *)
Definition binary_string_bytes (P : platform) (s : jsstring) : bytes :=
  length_bytes 5 (Z.of_nat (length s)) ++ TextEncoder_encode P s.

(* ------------------------------------------------------------------ *)
(** *** The bytes of the script block and the control types *)

(** The bytes of a variant and its script. *)
Definition variant_script_bytes (P : platform) (vs : variant * jsstring) : bytes :=
  variant_bytes (fst vs) ++ binary_string_bytes P (snd vs).

(** The script block before compression. *)
Definition script_stream_bytes (P : platform) (general : jsstring)
    (rest : list jsstring) (variants : list variant) : bytes :=
  binary_string_bytes P general
  ++ le_bytes 4 (wrap 32 (Z.of_nat (length variants)))
  ++ List.concat (List.map (variant_script_bytes P) (combine variants rest)).


(* ------------------------------------------------------------------ *)
(** *** The decoded document *)



(* ------------------------------------------------------------------ *)
(** *** Documents outside the round-trip conditions *)



(* ------------------------------------------------------------------ *)
(** *** How a call comes back *)

(** [m] comes back from [r]: it returns, or throws an error of [E]; it
    does not run out of fuel and does not leave the modelled fragment. *)
Definition settles_at {A : Type} (E : error -> Prop) (m : M A)
    (r : BinaryReader) : Prop :=
  match fst (m r) with
  | Ok _ => True
  | Throw e => E e
  | Diverge => False
  | Unmodelled => False
  end.

Definition is_RangeError (e : error) : Prop := e = RangeError.

(** Whatever [m] throws from [r] is an error of [E]. *)
Definition throws_at {A : Type} (E : error -> Prop) (m : M A)
    (r : BinaryReader) : Prop :=
  forall e, fst (m r) = Throw e -> E e.

(** The errors of decoding. *)
Definition is_decode_error (e : error) : Prop :=
  e = RangeError \/ e = UnsupportedVersion.

(** [m] keeps the buffer and, unless a negative length was read, does not
    move the cursor back. *)
Definition forward_at {A : Type} (m : M A) (r : BinaryReader) : Prop :=
  forall o r', m r = (o, r') ->
    buffer r' = buffer r
    /\ (rewound r' = false -> rewound r = false /\ offset r <= offset r').

(** [m] does not run out of fuel from [r], unless a negative length was
    read on the way. *)
Definition comes_back_at {A : Type} (m : M A) (r : BinaryReader) : Prop :=
  forall o r', m r = (o, r') -> rewound r' = false -> o <> Diverge.

(* ------------------------------------------------------------------ *)
(** *** The state of the collection pass *)

(** The cache gives every collected string its place in the list, the
    list holds no string twice and no inherited property name. *)
Definition cache_sound (st : string_cache * list jsstring) : Prop :=
  cache_indexes st
  /\ NoDup (snd st)
  /\ forall s, In s (snd st) -> inherited s = false.

(* ------------------------------------------------------------------ *)
(** *** Documents that reduced mode leaves as they are *)

(** No value inside [v] is an object with the type code of Null or
    Rect. *)
Fixpoint no_skipped (v : jsval) : bool :=
  match v with
  | JObject props =>
      forallb (fun kv => negb (skipped (snd kv)) && no_skipped (snd kv)) props
  | JArray items =>
      forallb (fun x => negb (skipped x) && no_skipped x) items
  | _ => true
  end.

(* ------------------------------------------------------------------ *)
(** *** [_shortsFromBytes] *)

(** The loop [for (i = 0; i < bytes.length; i += 2)
    shorts.push(v.getInt16(i, true))], from the index [i] on; it makes at
    most [rounds] rounds, and fewer than [bytes.length] are needed. *)
Fixpoint shorts_from (d : bytes) (i : Z) (rounds : nat) : outcome (list jsval) :=
  match rounds with
  | O => Ok []
  | S n =>
      if i <? blen d then
        match getInt16 d i with
        | Some v => rest <~ shorts_from d (i + 2) n ;; Ok (JInt v :: rest)
        | None => Throw RangeError
        end
      else Ok []
  end.

Definition _shortsFromBytes (d : bytes) : outcome jsval :=
  shorts <~ shorts_from d 0 (length d) ;; Ok (JArray shorts).

(* ------------------------------------------------------------------ *)
(** *** Hexadecimal digits *)

(** The digits [_hexFromBytes] writes: 0 to 9 and A to F. *)
Definition upper_hex (c : N) : bool :=
  ((48 <=? c) && (c <=? 57) || (65 <=? c) && (c <=? 70))%N.

(* ------------------------------------------------------------------ *)
(** *** The errors of encoding *)

Definition is_encode_error (e : error) : Prop :=
  (exists s, e = CacheMiss s) \/ e = UnsupportedValueType \/ e = TypeError.

(** The outcome [o] is a result or an error of [E]. *)
Definition comes_back_with {A : Type} (E : error -> Prop) (o : outcome A)
  : Prop :=
  match o with
  | Ok _ => True
  | Throw e => E e
  | Diverge => False
  | Unmodelled => False
  end.

(** A payload that [String(v)] and [encode(v)] take without calling a
    method of [v]: a string, undefined, null or a boolean. *)
Definition text_payload (v : jsval) : bool :=
  match v with
  | JString _ | JUndefined | JNull | JBool _ => true
  | _ => false
  end.

(** A float that is not NaN. *)
Definition float_payload (v : jsval) : bool :=
  match v with
  | JFloat bits => negb (f32_is_nan bits)
  | _ => false
  end.

(** An array of integers, or no value at all. *)
Definition shorts_payload (v : jsval) : bool :=
  match v with
  | JArray items =>
      forallb (fun x => match as_integer x with Some _ => true | None => false end)
        items
  | JUndefined | JNull => true
  | _ => false
  end.

(** The type code of [val], if it has one, is an integer, null or a
    boolean, and the payload is of the kind that code asks for. *)
Definition payload_plain (val : jsval) : bool :=
  let type := get_prop "ValueType" val in
  match type with
  | JUndefined | JNull | JBool _ => true
  | JString _ | JArray _ | JObject _ => false
  | _ =>
      match as_integer type with
      | None => false
      | Some _ =>
          if is_number CSTRING type then text_payload (get_prop "Value" val)
          else if is_number CFLOAT type then float_payload (get_prop "Value" val)
          else if is_number CCOLOR type then text_payload (get_prop "Value" val)
          else if is_number RECT32 type then shorts_payload (get_prop "Value" val)
          else true
      end
  end.

(** Every value inside [v], at any depth, has a plain payload. *)
Fixpoint plain_payloads (v : jsval) : bool :=
  match v with
  | JObject props =>
      forallb (fun kv => payload_plain (snd kv) && plain_payloads (snd kv)) props
  | JArray items =>
      forallb (fun x => payload_plain x && plain_payloads x) items
  | _ => true
  end.

(* ------------------------------------------------------------------ *)
(** *** Bytes behind the document *)

(** The reader [r] over the buffer of [r] followed by [extra]. *)
Definition extend (r : BinaryReader) (extra : bytes) : BinaryReader :=
  {| buffer := buffer r ++ extra; offset := offset r; rewound := rewound r |}.

(** A run of [m] that returns, stays inside the buffer and reads no
    negative length is the same run over the longer buffer. *)
Definition agrees_at {A : Type} (m : M A) (r : BinaryReader) (extra : bytes)
  : Prop :=
  forall a r', m r = (Ok a, r') ->
    rewound r' = false -> 0 <= offset r -> offset r' <= blen (buffer r) ->
    m (extend r extra) = (Ok a, extend r' extra).

Definition steady_at {A : Type} (m : M A) (r : BinaryReader) (extra : bytes)
  : Prop :=
  forward_at m r /\ agrees_at m r extra.

(* ------------------------------------------------------------------ *)
(** *** Inputs of the examples *)

(** The bytes of the example document. *)
Definition example_bytes : bytes :=
  Eval vm_compute in
    match convertJsonToBjlToBytes example_platform false example_design with
    | Ok b => b
    | _ => []
    end.

(** A document without Null and Rect values. *)
Definition plain_design : design :=
  {| LayoutHeader := {| Version := 4; GridSize := 10; ControlsHeaders := [];
                        Files := []; DesignerScript := [] |};
     Variants := [];
     Data := [(str "left", JInt 10); (str "name", JString (str "Main"))];
     FontAwesome := false; MaterialIcons := false |}.

(** A document with a Rect value that has no array. *)
Definition rect_without_value_design : design :=
  {| LayoutHeader := {| Version := 4; GridSize := 10; ControlsHeaders := [];
                        Files := []; DesignerScript := [] |};
     Variants := [];
     Data := [(str "left", JInt 10);
              (str "padding", JObject [(str "ValueType", JInt RECT32)])];
     FontAwesome := false; MaterialIcons := false |}.

(** A platform whose text codec is UTF-8 on the code units below 0x800:
    one byte for a code unit below 0x80, two bytes from there on.  The
    decoder gives U+FFFD for a byte that starts no such sequence. *)
Definition utf8_encode_unit (c : N) : bytes :=
  if (c <? 128)%N then [byte_of_Z (Z.of_N c)]
  else [byte_of_Z (Z.lor 0xC0 (Z.shiftr (Z.of_N c) 6));
        byte_of_Z (Z.lor 0x80 (Z.land (Z.of_N c) 0x3F))].

Definition utf8_encode (s : jsstring) : bytes := flat_map utf8_encode_unit s.

Fixpoint utf8_decode (b : bytes) : jsstring :=
  match b with
  | [] => []
  | x :: rest =>
      if Z_of_byte x <? 0x80 then Byte.to_N x :: utf8_decode rest
      else
        match rest with
        | y :: rest' =>
            if (0xC2 <=? Z_of_byte x) && (Z_of_byte x <? 0xE0)
               && (0x80 <=? Z_of_byte y) && (Z_of_byte y <? 0xC0)
            then Z.to_N (Z.lor (Z.shiftl (Z.land (Z_of_byte x) 0x1F) 6)
                           (Z.land (Z_of_byte y) 0x3F))
                 :: utf8_decode rest'
            else 65533%N :: utf8_decode rest
        | [] => [65533%N]
        end
  end.

Definition utf8_platform : platform := {|
  TextDecoder_decode := utf8_decode;
  TextEncoder_encode := utf8_encode;
  pako_ungzip := stored_ungzip;
  pako_gzip := stored_gzip
|}.

(* ================================================================== *)
(** ** Basic facts: strings, bytes, integers *)

Unset Implicit Arguments.

(** Linear arithmetic with division and remainder by constants. *)
Ltac zlia := Z.div_mod_to_equations; lia.

Lemma jsstring_eqb_eq (a b : jsstring) : jsstring_eqb a b = true <-> a = b.
Proof.
  revert b. induction a as [|x a IH]; intros [|y b]; cbn [jsstring_eqb];
    try (split; [discriminate | discriminate]); [tauto|].
  rewrite andb_true_iff, N.eqb_eq, IH. split.
  - intros [-> ->]. reflexivity.
  - intro E. injection E. auto.
Qed.

Lemma jsstring_eqb_refl (a : jsstring) : jsstring_eqb a a = true.
Proof. apply jsstring_eqb_eq. reflexivity. Qed.

Lemma jsstring_eqb_neq (a b : jsstring) : jsstring_eqb a b = false <-> a <> b.
Proof.
  rewrite <- jsstring_eqb_eq. destruct (jsstring_eqb a b); split; congruence.
Qed.

Lemma get_prop_ValueType (type : Z) (rest : jsobj) :
  get_prop "ValueType" (tagged type rest) = JInt type.
Proof. reflexivity. Qed.

Lemma get_prop_Value (type : Z) (v : jsval) :
  get_prop "Value" (tagged_value type v) = v.
Proof. reflexivity. Qed.

Lemma Z_of_byte_range (b : byte) : 0 <= Z_of_byte b < 256.
Proof.
  unfold Z_of_byte. pose proof (Byte.to_N_bounded b). lia.
Qed.

Lemma Z_of_byte_of_Z (z : Z) : Z_of_byte (byte_of_Z z) = z mod 256.
Proof.
  unfold Z_of_byte, byte_of_Z.
  assert (0 <= z mod 256 < 256) by (apply Z.mod_pos_bound; lia).
  destruct (Byte.of_N (Z.to_N (z mod 256))) eqn:E.
  - apply Byte.to_of_N in E. rewrite E. lia.
  - apply Byte.of_N_None_iff in E. lia.
Qed.

Lemma byte_of_Z_of_byte (b : byte) : byte_of_Z (Z_of_byte b) = b.
Proof.
  unfold byte_of_Z.
  rewrite Z.mod_small by apply Z_of_byte_range.
  unfold Z_of_byte. rewrite N2Z.id, Byte.of_to_N. reflexivity.
Qed.

Lemma length_le_bytes (n : nat) (z : Z) : length (le_bytes n z) = n.
Proof.
  revert z. induction n as [|n IH]; intro z; cbn [le_bytes length]; auto.
Qed.

Lemma le_unsigned_le_bytes (n : nat) (z : Z) :
  le_unsigned (le_bytes n z) = z mod 256 ^ Z.of_nat n.
Proof.
  revert z. induction n as [|n IH]; intro z; cbn [le_bytes le_unsigned].
  - rewrite Z.mod_1_r. reflexivity.
  - rewrite Z_of_byte_of_Z, IH, Nat2Z.inj_succ, Z.pow_succ_r by lia.
    rewrite Z.rem_mul_r; [reflexivity | lia | ].
    apply Z.pow_pos_nonneg; lia.
Qed.

Lemma le_unsigned_range (bs : bytes) :
  0 <= le_unsigned bs < 256 ^ Z.of_nat (length bs).
Proof.
  induction bs as [|b bs IH]; cbn [le_unsigned length].
  - cbn. lia.
  - rewrite Nat2Z.inj_succ, Z.pow_succ_r by lia.
    pose proof (Z_of_byte_range b). lia.
Qed.

Lemma le_bytes_le_unsigned (bs : bytes) :
  le_bytes (length bs) (le_unsigned bs) = bs.
Proof.
  induction bs as [|b bs IH]; cbn [le_unsigned length le_bytes]; [reflexivity|].
  pose proof (Z_of_byte_range b).
  f_equal.
  - rewrite <- (byte_of_Z_of_byte b) at 2. unfold byte_of_Z.
    replace ((Z_of_byte b + 256 * le_unsigned bs) mod 256)
      with (Z_of_byte b mod 256) by zlia.
    reflexivity.
  - replace ((Z_of_byte b + 256 * le_unsigned bs) / 256) with (le_unsigned bs)
      by zlia.
    exact IH.
Qed.

Lemma wrap_small (w v : Z) :
  0 < w -> - 2 ^ (w - 1) <= v < 2 ^ (w - 1) -> wrap w v = v.
Proof.
  intros Hw Hv. unfold wrap, to_signed.
  assert (Hp : 2 ^ w = 2 * 2 ^ (w - 1)).
  { replace w with (Z.succ (w - 1)) at 1 by lia. apply Z.pow_succ_r. lia. }
  assert (0 < 2 ^ (w - 1)) by (apply Z.pow_pos_nonneg; lia).
  destruct (Z_lt_le_dec v 0) as [Hneg|Hpos].
  - replace (v mod 2 ^ w) with (v + 2 ^ w).
    + destruct (Z.ltb_spec (v + 2 ^ w) (2 ^ (w - 1))); lia.
    + apply Z.mod_unique with (q := -1); lia.
  - rewrite Z.mod_small by lia.
    destruct (Z.ltb_spec v (2 ^ (w - 1))); lia.
Qed.

Lemma wrap_range (w v : Z) :
  0 < w -> - 2 ^ (w - 1) <= wrap w v < 2 ^ (w - 1).
Proof.
  intros Hw. unfold wrap, to_signed.
  assert (Hp : 2 ^ w = 2 * 2 ^ (w - 1)).
  { replace w with (Z.succ (w - 1)) at 1 by lia. apply Z.pow_succ_r. lia. }
  assert (0 < 2 ^ (w - 1)) by (apply Z.pow_pos_nonneg; lia).
  assert (0 <= v mod 2 ^ w < 2 ^ w) by (apply Z.mod_pos_bound; lia).
  destruct (Z.ltb_spec (v mod 2 ^ w) (2 ^ (w - 1))); lia.
Qed.

Lemma wrap_wrap (w v : Z) : 0 < w -> wrap w (wrap w v) = wrap w v.
Proof.
  intro Hw. apply wrap_small; [exact Hw | apply wrap_range; exact Hw].
Qed.

Lemma blen_app (a b : bytes) : blen (a ++ b) = blen a + blen b.
Proof. unfold blen. rewrite length_app. lia. Qed.

Lemma blen_nonneg (a : bytes) : 0 <= blen a.
Proof. unfold blen. lia. Qed.

(* ================================================================== *)
(** ** Reading what lies at the cursor *)

Lemma at_stream_new (b : bytes) : at_stream (new_BinaryReader b) b.
Proof. split; cbn; [lia | reflexivity]. Qed.

Lemma at_stream_bound (r : BinaryReader) (a rest : bytes) :
  at_stream r (a ++ rest) -> a <> [] ->
  offset r + blen a <= blen (buffer r).
Proof.
  intros [H0 Hs] Hne.
  assert (Hl : length (skipn (Z.to_nat (offset r)) (buffer r))
               = length (a ++ rest)) by (rewrite Hs; reflexivity).
  rewrite length_skipn, length_app in Hl.
  destruct a as [|x a]; [congruence|].
  unfold blen. cbn [length] in *. lia.
Qed.

Lemma at_stream_advance (r : BinaryReader) (a rest : bytes) (b : bool) :
  at_stream r (a ++ rest) ->
  at_stream {| buffer := buffer r; offset := offset r + blen a; rewound := b |}
            rest.
Proof.
  intros [H0 Hs]. split; cbn [offset buffer].
  - pose proof (blen_nonneg a). lia.
  - unfold blen. rewrite Z2Nat.inj_add by lia. rewrite Nat2Z.id.
    rewrite Nat.add_comm, <- skipn_skipn, Hs.
    rewrite skipn_app, skipn_all, Nat.sub_diag. reflexivity.
Qed.

Lemma at_stream_view (r : BinaryReader) (a rest : bytes) :
  at_stream r (a ++ rest) ->
  view_bytes (buffer r) (offset r) (length a) = a.
Proof.
  intros [H0 Hs]. unfold view_bytes. rewrite Hs.
  rewrite firstn_app, firstn_all, Nat.sub_diag. cbn. apply app_nil_r.
Qed.

Lemma at_stream_in_view (r : BinaryReader) (a rest : bytes) :
  at_stream r (a ++ rest) -> a <> [] ->
  in_view (buffer r) (offset r) (blen a) = true.
Proof.
  intros H Hne. pose proof (at_stream_bound _ _ _ H Hne) as Hb. destruct H as [H0 _].
  unfold in_view. apply andb_true_intro. split.
  - apply Z.leb_le. exact H0.
  - apply Z.leb_le. assumption.
Qed.

Lemma at_stream_slice (r : BinaryReader) (a rest : bytes) :
  at_stream r (a ++ rest) ->
  slice (buffer r) (offset r) (offset r + blen a) = a.
Proof.
  intros H. destruct a as [|x a].
  - unfold slice, blen. cbn [length]. rewrite Z.add_0_r, Z.sub_diag. reflexivity.
  - pose proof (at_stream_bound _ _ _ H ltac:(discriminate)) as Hb.
    pose proof (at_stream_view _ _ _ H) as Hv. destruct H as [H0 Hs].
    pose proof (blen_nonneg (x :: a)).
    unfold slice, rel_index.
    destruct (Z.ltb_spec (offset r) 0); [lia|].
    destruct (Z.ltb_spec (offset r + blen (x :: a)) 0); [lia|].
    rewrite !Z.min_l by lia.
    replace (offset r + blen (x :: a) - offset r) with (blen (x :: a)) by lia.
    unfold blen. rewrite Nat2Z.id. exact Hv.
Qed.

Lemma reads_ret (A : Type) (v : A) : reads (ret v) [] v.
Proof. intros r rest H. exists r. split; [reflexivity | exact H]. Qed.

Lemma reads_bind (A B : Type) (m : M A) (f : A -> M B)
    (a b : bytes) (v : A) (u : B) :
  reads m a v -> reads (f v) b u -> reads (bind m f) (a ++ b) u.
Proof.
  intros Hm Hf r rest H. rewrite <- app_assoc in H.
  destruct (Hm r _ H) as (r1 & E1 & H1).
  destruct (Hf r1 _ H1) as (r2 & E2 & H2).
  exists r2. split; [|exact H2].
  unfold bind. rewrite E1. exact E2.
Qed.

Lemma reads_eq (A : Type) (m : M A) (a b : bytes) (v u : A) :
  reads m a v -> a = b -> v = u -> reads m b u.
Proof. intros H -> ->. exact H. Qed.

Lemma reads_readInt (z : Z) : reads readInt (le_bytes 4 z) (wrap 32 z).
Proof.
  intros r rest H. unfold readInt, getInt32.
  pose proof (at_stream_view _ _ _ H) as Hv.
  pose proof (at_stream_in_view _ _ _ H ltac:(discriminate)) as Hi.
  rewrite length_le_bytes in Hv.
  unfold blen in Hi. rewrite length_le_bytes in Hi. change (Z.of_nat 4) with 4 in Hi.
  rewrite Hi, Hv, le_unsigned_le_bytes.
  eexists. split; [reflexivity|].
  pose proof (at_stream_advance _ _ _ (rewound r) H) as Ha.
  unfold blen in Ha. rewrite length_le_bytes in Ha. exact Ha.
Qed.

Lemma reads_readFloat (bits : Z) :
  reads readFloat (le_bytes 4 bits) (bits mod 2 ^ 32).
Proof.
  intros r rest H. unfold readFloat, getFloat32.
  pose proof (at_stream_view _ _ _ H) as Hv.
  pose proof (at_stream_in_view _ _ _ H ltac:(discriminate)) as Hi.
  rewrite length_le_bytes in Hv.
  unfold blen in Hi. rewrite length_le_bytes in Hi. change (Z.of_nat 4) with 4 in Hi.
  rewrite Hi, Hv, le_unsigned_le_bytes.
  eexists. split; [reflexivity|].
  pose proof (at_stream_advance _ _ _ (rewound r) H) as Ha.
  unfold blen in Ha. rewrite length_le_bytes in Ha. exact Ha.
Qed.

Lemma reads_readSignedByte (z : Z) :
  reads readSignedByte [byte_of_Z z] (wrap 8 z).
Proof.
  intros r rest H. unfold readSignedByte, getInt8.
  pose proof (at_stream_view _ _ _ H) as Hv.
  pose proof (at_stream_in_view _ _ _ H ltac:(discriminate)) as Hi.
  cbn [length] in Hv. change (blen [byte_of_Z z]) with 1 in Hi.
  rewrite Hi, Hv. cbn [le_unsigned of_view].
  rewrite Z_of_byte_of_Z.
  eexists. split.
  - unfold wrap. change (2 ^ 8) with 256. rewrite Z.add_0_r. reflexivity.
  - exact (at_stream_advance _ _ _ (rewound r) H).
Qed.

Lemma reads_readBytes (bs : bytes) : reads (readBytes (blen bs)) bs bs.
Proof.
  intros r rest H. unfold readBytes.
  rewrite (at_stream_slice _ _ _ H).
  eexists. split; [reflexivity|].
  exact (at_stream_advance _ _ _ _ H).
Qed.


(* ================================================================== *)
(** ** Colours *)

Lemma hex_byte_roundtrip (b : byte) (s : jsstring) :
  hex_pairs (List.filter is_hex (toUpperCase (padStart2 (toString16 b)) ++ s))
  = b :: hex_pairs (List.filter is_hex s).
Proof. destruct b; reflexivity. Qed.

Lemma toUpperCase_app (a b : jsstring) :
  toUpperCase (a ++ b) = toUpperCase a ++ toUpperCase b.
Proof. unfold toUpperCase. apply map_app. Qed.

Lemma hexToBytes_hexFromBytes (d : bytes) : _hexToBytes (_hexFromBytes d) = d.
Proof.
  unfold _hexToBytes, _hexFromBytes.
  induction d as [|b d IH]; [reflexivity|].
  cbn [List.map List.concat]. rewrite toUpperCase_app, hex_byte_roundtrip.
  f_equal. exact IH.
Qed.

Lemma color_payload_roundtrip (d : bytes) :
  _hexToBytes (substring2 (str "0x" ++ _hexFromBytes d)) = d.
Proof. exact (hexToBytes_hexFromBytes d). Qed.

Lemma reads_color (P : platform) (readNested : M jsobj) (cache : list jsstring)
    (b0 b1 b2 b3 : byte) :
  reads (read_value P readNested cache CCOLOR) [b0; b1; b2; b3]
    (Some (tagged_value CCOLOR
             (JString (str "0x" ++ _hexFromBytes [b0; b1; b2; b3])))).
Proof.
  unfold read_value. cbn [Z.eqb CCOLOR CINT CACHED_STRING CFLOAT CSTRING BOOL
                          CMAP CNULL Pos.eqb].
  eapply reads_eq.
  - eapply reads_bind.
    + exact (reads_readBytes [b0; b1; b2; b3]).
    + apply reads_ret.
  - apply app_nil_r.
  - reflexivity.
Qed.

Lemma write_color (P : platform) (w : BinaryWriter) (d : bytes) :
  write_tagged_payload P w (JInt CCOLOR)
    (tagged_value CCOLOR (JString (str "0x" ++ _hexFromBytes d)))
  = Ok (w ++ d).
Proof.
  unfold write_tagged_payload.
  change (is_number CSTRING (JInt CCOLOR)) with false.
  change (is_number CFLOAT (JInt CCOLOR)) with false.
  change (is_number CCOLOR (JInt CCOLOR)) with true.
  cbv iota. rewrite get_prop_Value.
  cbn [ToString outcome_bind]. unfold writeBytes.
  rewrite color_payload_roundtrip. reflexivity.
Qed.

(** C9.  The colour payload 1A 2B 3C 4D is decoded to the string
    "0x1A2B3C4D" (upper case, prefixed by 0x, the bytes in the order they
    were read), encoding that value writes the same four bytes back, and
    the same holds for every payload of four bytes: decoding it yields
    "0x" followed by its hexadecimal form, and encoding that value writes
    the four bytes again. *)
Theorem color_scenario_and_roundtrip :
  _hexFromBytes [x1a; x2b; x3c; x4d] = str "1A2B3C4D"
  /\ (forall (P : platform) (readNested : M jsobj) (cache : list jsstring),
        reads (read_value P readNested cache CCOLOR) [x1a; x2b; x3c; x4d]
          (Some (tagged_value CCOLOR (JString (str "0x1A2B3C4D")))))
  /\ (forall (P : platform) (w : BinaryWriter),
        write_tagged_payload P w (JInt CCOLOR)
          (tagged_value CCOLOR (JString (str "0x1A2B3C4D")))
        = Ok (w ++ [x1a; x2b; x3c; x4d]))
  /\ (forall (P : platform) (b0 b1 b2 b3 : byte) (readNested : M jsobj)
             (cache : list jsstring) (w : BinaryWriter),
        reads (read_value P readNested cache CCOLOR) [b0; b1; b2; b3]
          (Some (tagged_value CCOLOR
                   (JString (str "0x" ++ _hexFromBytes [b0; b1; b2; b3]))))
        /\ write_tagged_payload P w (JInt CCOLOR)
             (tagged_value CCOLOR
                (JString (str "0x" ++ _hexFromBytes [b0; b1; b2; b3])))
           = Ok (w ++ [b0; b1; b2; b3])).
Proof.
  split; [reflexivity|]. split; [|split].
  - intros P readNested cache. exact (reads_color P readNested cache x1a x2b x3c x4d).
  - intros P w. exact (write_color P w [x1a; x2b; x3c; x4d]).
  - intros P b0 b1 b2 b3 readNested cache w. split.
    + apply reads_color.
    + apply write_color.
Qed.

(* ================================================================== *)
(** ** The cursor at the end of the buffer *)

Lemma in_view_short (b : bytes) (off n : Z) :
  blen b - off < n -> in_view b off n = false.
Proof.
  intro H. unfold in_view. apply andb_false_iff. right.
  apply Z.leb_gt. lia.
Qed.

Lemma slice_past_end (b : bytes) (off len : Z) :
  0 <= off -> blen b - off < len ->
  slice b off (off + len) = skipn (Z.to_nat off) b.
Proof.
  intros H0 H. unfold slice, rel_index.
  destruct (Z.ltb_spec off 0); [lia|].
  pose proof (blen_nonneg b).
  destruct (Z.ltb_spec (off + len) 0); [lia|].
  rewrite (Z.min_r (off + len)) by lia.
  destruct (Z_le_gt_dec off (blen b)).
  - rewrite Z.min_l by lia. apply firstn_all2.
    rewrite length_skipn. unfold blen in *. lia.
  - rewrite Z.min_r by lia. rewrite Z.sub_diag. cbn [Z.to_nat firstn].
    symmetry. apply skipn_all2. unfold blen in *. lia.
Qed.

(** C3, as the code has it.  [readByte], [readSignedByte], [readInt] and
    [readFloat] throw the RangeError of the DataView when fewer bytes remain
    than they need.  [readBytes] never throws: it returns the slice of the
    buffer, which holds only the bytes that remain when [len] exceeds them,
    and moves the cursor by [len]. *)
Theorem cursor_reads_at_end (r : BinaryReader) :
  (remaining r < 1 -> fst (readByte r) = Throw RangeError)
  /\ (remaining r < 1 -> fst (readSignedByte r) = Throw RangeError)
  /\ (remaining r < 4 -> fst (readInt r) = Throw RangeError)
  /\ (remaining r < 4 -> fst (readFloat r) = Throw RangeError)
  /\ (forall len : Z,
        fst (readBytes len r)
        = Ok (slice (buffer r) (offset r) (offset r + len))
        /\ offset (snd (readBytes len r)) = offset r + len
        /\ (0 <= offset r -> remaining r < len ->
            slice (buffer r) (offset r) (offset r + len)
            = skipn (Z.to_nat (offset r)) (buffer r))).
Proof.
  unfold remaining. repeat split.
  - intro H. unfold readByte, getUint8. rewrite in_view_short by exact H. reflexivity.
  - intro H. unfold readSignedByte, getInt8. rewrite in_view_short by exact H. reflexivity.
  - intro H. unfold readInt, getInt32. rewrite in_view_short by exact H. reflexivity.
  - intro H. unfold readFloat, getFloat32. rewrite in_view_short by exact H. reflexivity.
  - intros H0 H. apply slice_past_end; assumption.
Qed.

(* ================================================================== *)
(** ** The version gate *)

Lemma readInt_at_start (b0 b1 b2 b3 : byte) (rest : bytes) :
  readInt (new_BinaryReader (b0 :: b1 :: b2 :: b3 :: rest))
  = (Ok (to_signed 32 (le_unsigned [b0; b1; b2; b3])),
     {| buffer := b0 :: b1 :: b2 :: b3 :: rest; offset := 4; rewound := false |}).
Proof.
  unfold readInt, getInt32, in_view, new_BinaryReader. cbn [buffer offset].
  replace (0 + 4 <=? blen (b0 :: b1 :: b2 :: b3 :: rest)) with true.
  - reflexivity.
  - symmetry. apply Z.leb_le. unfold blen. cbn [length]. lia.
Qed.

Lemma read_design_old_version (P : platform) (fuel : nat) (b0 b1 b2 b3 : byte) (rest : bytes) :
  to_signed 32 (le_unsigned [b0; b1; b2; b3]) < 3 ->
  read_design P fuel (new_BinaryReader (b0 :: b1 :: b2 :: b3 :: rest))
  = (Throw UnsupportedVersion,
     {| buffer := b0 :: b1 :: b2 :: b3 :: rest; offset := 4; rewound := false |}).
Proof.
  intro Hv. apply Z.ltb_lt in Hv.
  unfold read_design, _readLayoutHeader, bind.
  rewrite readInt_at_start, Hv. unfold ret. cbn [Version]. rewrite Hv.
  reflexivity.
Qed.

(** C2.  When the first four bytes of the buffer are the little-endian
    form of an integer below 3, decoding throws the unsupported-version
    error, whatever follows these bytes, and the cursor stands at offset 4:
    nothing behind the version field was read. *)
Theorem version_gate (P : platform) (fuel : nat) (b0 b1 b2 b3 : byte) (rest : bytes) :
  to_signed 32 (le_unsigned [b0; b1; b2; b3]) < 3 ->
  convertBjlToJsonFromBytes P fuel (b0 :: b1 :: b2 :: b3 :: rest)
  = Throw UnsupportedVersion
  /\ snd (read_design P fuel (new_BinaryReader (b0 :: b1 :: b2 :: b3 :: rest)))
     = {| buffer := b0 :: b1 :: b2 :: b3 :: rest; offset := 4; rewound := false |}.
Proof.
  intro Hv. unfold convertBjlToJsonFromBytes.
  rewrite (read_design_old_version P fuel b0 b1 b2 b3 rest Hv).
  split; reflexivity.
Qed.

(* ================================================================== *)
(** ** Induction on values *)

Section jsval_induction.

Variable Q : jsval -> Prop.
Hypothesis HUndefined : Q JUndefined.
Hypothesis HNull : Q JNull.
Hypothesis HBool : forall b, Q (JBool b).
Hypothesis HInt : forall z, Q (JInt z).
Hypothesis HFloat : forall bits, Q (JFloat bits).
Hypothesis HString : forall s, Q (JString s).
Hypothesis HArray : forall items, Forall Q items -> Q (JArray items).
Hypothesis HObject :
  forall props, Forall (fun kv => Q (snd kv)) props -> Q (JObject props).

Fixpoint jsval_induction (v : jsval) : Q v :=
  match v with
  | JUndefined => HUndefined
  | JNull => HNull
  | JBool b => HBool b
  | JInt z => HInt z
  | JFloat bits => HFloat bits
  | JString s => HString s
  | JArray items =>
      HArray items
        ((fix all (l : list jsval) : Forall Q l :=
            match l with
            | [] => Forall_nil Q
            | x :: l' => Forall_cons x (jsval_induction x) (all l')
            end) items)
  | JObject props =>
      HObject props
        ((fix all (l : jsobj) : Forall (fun kv => Q (snd kv)) l :=
            match l with
            | [] => Forall_nil _
            | kv :: l' =>
                Forall_cons (P := fun kv => Q (snd kv)) kv
                  (jsval_induction (snd kv)) (all l')
            end) props)
  end.

End jsval_induction.

(* ================================================================== *)
(** ** Plain objects: lookup, assignment, key order *)

Lemma obj_get_set_same (V : Type) (k : jsstring) (v : V) (o : list (jsstring * V)) :
  obj_get k (obj_set k v o) = Some v.
Proof.
  induction o as [|[k' v'] o IH]; cbn [obj_set obj_get].
  - rewrite jsstring_eqb_refl. reflexivity.
  - destruct (jsstring_eqb k k') eqn:E.
    + cbn [obj_get]. rewrite E. reflexivity.
    + destruct (goes_before k k'); cbn [obj_get].
      * rewrite jsstring_eqb_refl. reflexivity.
      * rewrite E. exact IH.
Qed.

Lemma obj_get_set_other (V : Type) (k k0 : jsstring) (v : V)
    (o : list (jsstring * V)) :
  k0 <> k -> obj_get k0 (obj_set k v o) = obj_get k0 o.
Proof.
  intro Hne. apply jsstring_eqb_neq in Hne.
  induction o as [|[k' v'] o IH]; cbn [obj_set obj_get].
  - rewrite Hne. reflexivity.
  - destruct (jsstring_eqb k k') eqn:E.
    + apply jsstring_eqb_eq in E. subst k'. cbn [obj_get]. rewrite Hne. reflexivity.
    + destruct (goes_before k k'); cbn [obj_get].
      * rewrite Hne. reflexivity.
      * rewrite IH. reflexivity.
Qed.

Lemma obj_get_none (V : Type) (k : jsstring) (o : list (jsstring * V)) :
  obj_get k o = None <-> ~ In k (obj_keys o).
Proof.
  induction o as [|[k' v'] o IH]; cbn [obj_get obj_keys List.map In fst].
  - tauto.
  - destruct (jsstring_eqb k k') eqn:E.
    + apply jsstring_eqb_eq in E. subst k'. split; [discriminate|tauto].
    + apply jsstring_eqb_neq in E. unfold obj_keys in IH. rewrite IH.
      split; [intros H [H1|H1]; [congruence|tauto] | tauto].
Qed.

Lemma obj_has_own_keys (V : Type) (k : jsstring) (o : list (jsstring * V)) :
  obj_has_own k o = true <-> In k (obj_keys o).
Proof.
  unfold obj_has_own. pose proof (obj_get_none V k o) as H.
  destruct (obj_get k o).
  - split; [intros _|reflexivity].
    destruct (in_dec (list_eq_dec N.eq_dec) k (obj_keys o)) as [Hin|Hn];
      [exact Hin|]. apply H in Hn. discriminate.
  - split; [discriminate|]. intro Hin. exfalso. apply (proj1 H); auto.
Qed.

Lemma obj_keys_set (V : Type) (k : jsstring) (v : V) (o : list (jsstring * V))
    (s : jsstring) :
  In s (obj_keys (obj_set k v o)) <-> s = k \/ In s (obj_keys o).
Proof.
  induction o as [|[k' v'] o IH]; cbn [obj_set obj_keys List.map In fst].
  - intuition.
  - destruct (jsstring_eqb k k') eqn:E.
    + apply jsstring_eqb_eq in E. subst k'.
      cbn [List.map In fst]. intuition.
    + destruct (goes_before k k'); cbn [List.map In fst].
      * intuition.
      * unfold obj_keys in IH. rewrite IH. intuition.
Qed.

Lemma length_obj_set_new (V : Type) (k : jsstring) (v : V)
    (o : list (jsstring * V)) :
  obj_get k o = None -> length (obj_set k v o) = S (length o).
Proof.
  induction o as [|[k' v'] o IH]; cbn [obj_set obj_get length]; [reflexivity|].
  destruct (jsstring_eqb k k'); [discriminate|].
  intro H. destruct (goes_before k k'); cbn [length]; [reflexivity|].
  rewrite IH by exact H. reflexivity.
Qed.

(** A key that is no array index and is new goes to the end. *)
Lemma obj_set_appends (V : Type) (k : jsstring) (v : V)
    (o : list (jsstring * V)) :
  array_index k = None -> ~ In k (obj_keys o) -> obj_set k v o = o ++ [(k, v)].
Proof.
  intros Hk. induction o as [|[k' v'] o IH]; intro Hn;
    cbn [obj_set app]; [reflexivity|].
  cbn [obj_keys List.map In fst] in Hn.
  destruct (jsstring_eqb k k') eqn:E.
  - apply jsstring_eqb_eq in E. subst k'. tauto.
  - unfold goes_before. rewrite Hk. rewrite IH; [reflexivity|].
    unfold obj_keys. tauto.
Qed.



Lemma obj_canonical_nodup (V : Type) (o : list (jsstring * V)) :
  obj_canonical o = true -> NoDup (obj_keys o).
Proof.
  induction o as [|[k v] o IH]; intro H; cbn [obj_keys List.map fst].
  - constructor.
  - cbn [obj_canonical] in H. apply andb_true_iff in H. destruct H as [H1 H2].
    constructor; [|apply IH; exact H2].
    intro Hin. apply in_map_iff in Hin. destruct Hin as ([k' v'] & Ek & Hin).
    cbn [fst] in Ek. subst k'.
    rewrite forallb_forall in H1. specialize (H1 _ Hin). cbn [fst] in H1.
    rewrite jsstring_eqb_refl in H1. discriminate.
Qed.

(** Whether a list of own properties is in key order depends on its keys
    only. *)
Lemma obj_canonical_keys (V W : Type) (o : list (jsstring * V))
    (o' : list (jsstring * W)) :
  obj_keys o = obj_keys o' -> obj_canonical o = obj_canonical o'.
Proof.
  revert o'. induction o as [|[k v] o IH]; intros [|[k' v'] o'] E;
    cbn [obj_keys List.map fst] in E; try discriminate; [reflexivity|].
  injection E as Ek Eo. subst k'. cbn [obj_canonical].
  rewrite (IH o' Eo). f_equal.
  clear IH. revert o' Eo. induction o as [|[k1 v1] o IH]; intros [|[k2 v2] o'] E;
    cbn [obj_keys List.map fst] in E; try discriminate; [reflexivity|].
  injection E as Ek Eo. subst k2. cbn [forallb fst]. rewrite (IH o' Eo).
  reflexivity.
Qed.

Lemma forallb_keys (V : Type) (g : jsstring -> bool) (o : list (jsstring * V)) :
  forallb (fun kv => g (fst kv)) o = true
  <-> (forall s, In s (obj_keys o) -> g s = true).
Proof.
  rewrite forallb_forall. unfold obj_keys. split.
  - intros H s Hin. apply in_map_iff in Hin. destruct Hin as (kv & <- & Hin).
    apply H. exact Hin.
  - intros H kv Hin. apply H. apply in_map. exact Hin.
Qed.

Lemma goes_before_asym (k k' : jsstring) :
  goes_before k k' = true -> goes_before k' k = false.
Proof.
  unfold goes_before.
  destruct (array_index k) as [i|], (array_index k') as [j|];
    try discriminate; try reflexivity.
  intro H. apply N.ltb_lt in H. apply N.ltb_ge. lia.
Qed.

(** What follows [k'] in key order also follows a key that goes before
    [k']. *)
Lemma goes_before_trans (k k' s : jsstring) :
  goes_before k k' = true ->
  negb (jsstring_eqb k' s) && negb (goes_before s k') = true ->
  negb (jsstring_eqb k s) && negb (goes_before s k) = true.
Proof.
  intros Hb H. apply andb_true_iff in H. destruct H as [_ H].
  apply negb_true_iff in H. apply andb_true_iff.
  unfold goes_before in *.
  destruct (array_index k) as [i|] eqn:Ek; [|discriminate].
  destruct (array_index s) as [j'|] eqn:Es.
  - destruct (array_index k') as [j|] eqn:Ek'; [|discriminate].
    apply N.ltb_lt in Hb. apply N.ltb_ge in H. split.
    + apply negb_true_iff. apply jsstring_eqb_neq. intro E. subst s.
      rewrite Ek in Es. injection Es as Es. lia.
    + apply negb_true_iff. apply N.ltb_ge. lia.
  - split; [|reflexivity].
    apply negb_true_iff. apply jsstring_eqb_neq. intro E. subst s. congruence.
Qed.

(** Assignment keeps the own properties in key order. *)
Lemma obj_set_canonical (V : Type) (k : jsstring) (v : V)
    (o : list (jsstring * V)) :
  obj_canonical o = true -> obj_canonical (obj_set k v o) = true.
Proof.
  induction o as [|[k' v'] o IH]; intro H; cbn [obj_set].
  - reflexivity.
  - cbn [obj_canonical] in H. apply andb_true_iff in H. destruct H as [H1 H2].
    destruct (jsstring_eqb k k') eqn:E.
    + cbn [obj_canonical]. rewrite H1, H2. reflexivity.
    + destruct (goes_before k k') eqn:G.
      * cbn [obj_canonical forallb fst]. rewrite E, H1, H2.
        rewrite (goes_before_asym _ _ G). cbn [negb andb]. rewrite andb_true_r.
        apply (forallb_keys V
                 (fun s => negb (jsstring_eqb k s) && negb (goes_before s k))).
        intros s Hin.
        apply (goes_before_trans k k' s G).
        apply (proj1 (forallb_keys V
                 (fun s => negb (jsstring_eqb k' s) && negb (goes_before s k')) o)).
        -- exact H1.
        -- exact Hin.
      * cbn [obj_canonical]. rewrite (IH H2), andb_true_r.
        apply (forallb_keys V
                 (fun s => negb (jsstring_eqb k' s) && negb (goes_before s k'))).
        intros s Hin. apply obj_keys_set in Hin. destruct Hin as [->|Hin].
        -- rewrite G. cbn [negb]. rewrite andb_true_r. apply negb_true_iff.
           apply jsstring_eqb_neq. apply jsstring_eqb_neq in E. congruence.
        -- apply (proj1 (forallb_keys V
                 (fun s => negb (jsstring_eqb k' s) && negb (goes_before s k')) o));
             assumption.
Qed.

(* ================================================================== *)
(** ** The collection pass *)

Lemma collect_value_closed
    (I : string_cache * list jsstring -> Prop)
    (recurse : jsval -> string_cache * list jsstring ->
               string_cache * list jsstring)
    (val : jsval) :
  (forall k st, I st -> I (collect k st)) ->
  (forall st, I st -> I (recurse val st)) ->
  forall st, I st -> I (collect_value recurse val st).
Proof.
  intros Hc Hr st Hst. unfold collect_value.
  destruct (is_object val).
  - destruct (is_undefined (get_prop "ValueType" val)); [apply Hr; exact Hst|].
    destruct (is_number CSTRING (get_prop "ValueType" val)); [|exact Hst].
    destruct (get_prop "Value" val); try exact Hst. apply Hc. exact Hst.
  - destruct val; try exact Hst. apply Hc. exact Hst.
Qed.

(** Whatever [collect] preserves, the whole pass preserves. *)
Lemma collectStrings_closed (I : string_cache * list jsstring -> Prop) :
  (forall k st, I st -> I (collect k st)) ->
  forall data st, I st -> I (_collectStringsInOrder data st).
Proof.
  intro Hc. induction data as [| | | | | |items IH|props IH] using jsval_induction;
    intros st Hst; cbn [_collectStringsInOrder]; try exact Hst.
  - revert st Hst. induction IH as [|x items Hx _ IHl]; intros st Hst;
      cbn [fold_left]; [exact Hst|].
    apply IHl. apply Hx. exact Hst.
  - revert st Hst. induction IH as [|[k val] props Hx _ IHl]; intros st Hst;
      cbn [fold_left]; [exact Hst|].
    apply IHl. cbn [fst snd] in *. apply collect_value_closed.
    + exact Hc.
    + intros st' Hst'. destruct val; try exact Hst'; apply Hx; exact Hst'.
    + apply Hc. exact Hst.
Qed.

Lemma collect_cache_lists (k : jsstring) (st : string_cache * list jsstring) :
  cache_lists st -> cache_lists (collect k st).
Proof.
  intros H. destruct st as [cache order]. unfold collect.
  destruct (obj_in k cache); [exact H|].
  intro s. cbn [fst snd]. rewrite obj_keys_set, in_app_iff.
  specialize (H s). cbn [fst snd In] in *. intuition.
Qed.

Lemma collectStrings_cache_lists (data : jsval) :
  cache_lists (_collectStringsInOrder data ([], [])).
Proof.
  apply collectStrings_closed.
  - exact collect_cache_lists.
  - intro s. cbn. tauto.
Qed.

(** C7, as the code has it.  After the collection pass over [data], a
    string [s] that was not collected cannot be written as a cache
    reference when the pass collected at least one string: the write throws
    the cache-miss error.  When the pass collected nothing the cache is
    empty, and then the string is written in full (length and bytes) and
    nothing is thrown. *)
Theorem uncollected_string_write (P : platform) (data : jsval)
    (cache : string_cache) (order : list jsstring) (w : BinaryWriter)
    (s : jsstring) :
  _collectStringsInOrder data ([], []) = (cache, order) ->
  ~ In s order ->
  (order <> [] ->
   _writeCachedString P w cache (Some s) = Throw (CacheMiss s))
  /\ (order = [] ->
      _writeCachedString P w cache (Some s) = Ok (_writeString P w s)).
Proof.
  intros E Hn. pose proof (collectStrings_cache_lists data) as H.
  rewrite E in H. unfold cache_lists in H. cbn [fst snd] in H. split.
  - intro Hne. unfold _writeCachedString.
    destruct cache as [|kv cache'].
    + exfalso. destruct order as [|x order']; [congruence|].
      apply (proj2 (H x)). left. reflexivity.
    + cbn [property_key].
      replace (obj_get s (kv :: cache')) with (@None Z); [reflexivity|].
      symmetry. apply obj_get_none. rewrite H. exact Hn.
  - intro Ho. subst order. destruct cache as [|[k i] cache']; [reflexivity|].
    exfalso. apply (proj1 (H k)). left. reflexivity.
Qed.

(* ================================================================== *)
(** ** The script section *)

Lemma readScripts_undecodable (P : platform) (r r1 : BinaryReader) (len : Z) :
  readInt r = (Ok len, r1) ->
  undecodable P (slice (buffer r1) (offset r1) (offset r1 + len)) ->
  _readScripts P r = (Ok [], snd (readBytes len r1)).
Proof.
  intros Hlen Hbad. unfold _readScripts, bind. rewrite Hlen.
  unfold readBytes. cbn [fst snd].
  destruct Hbad as [Hn | (d & e & Hd & He)].
  - rewrite Hn. reflexivity.
  - rewrite Hd, He. reflexivity.
Qed.

(** C6.  Once the length field of the script block was read, a block that
    cannot be decoded does not fail the header: when decompression throws,
    or the decompressed stream cannot be read as scripts, [_readScripts]
    returns the empty list and leaves the cursor behind the block, and
    [_readLayoutHeader] returns the header it read, with an empty script
    list.  The only thing [_readScripts] ever throws is the RangeError of
    reading the length field itself, which stands outside the [try]: when
    the buffer ends before or inside the length field, the header is not
    returned, and [_readLayoutHeader] and the decoding of the document
    throw that RangeError. *)
Theorem undecodable_scripts_are_empty (P : platform) :
  (forall (r r1 : BinaryReader) (len : Z),
     readInt r = (Ok len, r1) ->
     undecodable P (slice (buffer r1) (offset r1) (offset r1 + len)) ->
     _readScripts P r = (Ok [], snd (readBytes len r1)))
  /\ (forall (r0 r1 r2 r3 : BinaryReader) (version len : Z)
             (fields : Z * list control_header * list jsstring),
        readInt r0 = (Ok version, r1) -> 3 <= version ->
        read_header_fields P version r1 = (Ok fields, r2) ->
        readInt r2 = (Ok len, r3) ->
        undecodable P (slice (buffer r3) (offset r3) (offset r3 + len)) ->
        _readLayoutHeader P r0
        = (Ok {| Version := version; GridSize := fst (fst fields);
                 ControlsHeaders := snd (fst fields); Files := snd fields;
                 DesignerScript := [] |},
           snd (readBytes len r3)))
  /\ (forall (r : BinaryReader) (e : error),
        fst (_readScripts P r) = Throw e ->
        fst (readInt r) = Throw RangeError /\ e = RangeError)
  /\ (forall (r0 r1 r2 : BinaryReader) (version : Z)
             (fields : Z * list control_header * list jsstring),
        readInt r0 = (Ok version, r1) -> 3 <= version ->
        read_header_fields P version r1 = (Ok fields, r2) ->
        fst (readInt r2) = Throw RangeError ->
        fst (_readScripts P r2) = Throw RangeError
        /\ fst (_readLayoutHeader P r0) = Throw RangeError
        /\ forall fuel, fst (read_design P fuel r0) = Throw RangeError).
Proof.
  split; [exact (readScripts_undecodable P)|]. split; [|split].
  - intros r0 r1 r2 r3 version len fields Hv Hge Hf Hlen Hbad.
    unfold _readLayoutHeader, bind. rewrite Hv.
    destruct (Z.ltb_spec version 3); [lia|].
    rewrite Hf. rewrite (readScripts_undecodable P r2 r3 len Hlen Hbad).
    reflexivity.
  - intros r e. unfold _readScripts, bind, readInt.
    destruct (getInt32 (buffer r) (offset r)) as [len|].
    + unfold readBytes.
      destruct (pako_ungzip P _) as [d|]; [|discriminate].
      destruct (fst (read_script_stream P (new_BinaryReader d))); discriminate.
    + cbn [fst]. intro E. injection E as <-. split; reflexivity.
  - intros r0 r1 r2 version fields Hv Hge Hf Hlen.
    assert (Hs : fst (_readScripts P r2) = Throw RangeError).
    { unfold _readScripts, bind. destruct (readInt r2) as [o r3].
      cbn [fst] in Hlen. subst o. reflexivity. }
    assert (Hh : fst (_readLayoutHeader P r0) = Throw RangeError).
    { unfold _readLayoutHeader, bind. rewrite Hv.
      destruct (Z.ltb_spec version 3); [lia|]. rewrite Hf.
      destruct (_readScripts P r2) as [o r3]. cbn [fst] in Hs. subst o.
      reflexivity. }
    split; [exact Hs|]. split; [exact Hh|].
    intro fuel. unfold read_design, bind.
    destruct (_readLayoutHeader P r0) as [o r3]. cbn [fst] in Hh. subst o.
    reflexivity.
Qed.

(* ================================================================== *)
(** ** Fuel *)

Lemma refines_refl (A : Type) (m : M A) : refines m m.
Proof. intros r o r' H _. exact H. Qed.

Lemma refines_trans (A : Type) (m1 m2 m3 : M A) :
  refines m1 m2 -> refines m2 m3 -> refines m1 m3.
Proof. intros H1 H2 r o r' H Hne. apply H2; [apply H1|]; assumption. Qed.

Lemma refines_bind (A B : Type) (m m' : M A) (f f' : A -> M B) :
  refines m m' -> (forall a, refines (f a) (f' a)) ->
  refines (bind m f) (bind m' f').
Proof.
  intros Hm Hf r o r' H Hne. unfold bind in *.
  destruct (m r) as [o1 r1] eqn:E. destruct o1 as [a|e| |].
  - rewrite (Hm r (Ok a) r1 E) by discriminate. apply Hf; assumption.
  - rewrite (Hm r (Throw e) r1 E) by discriminate. exact H.
  - injection H as <- _. congruence.
  - rewrite (Hm r Unmodelled r1 E) by discriminate. exact H.
Qed.

Lemma read_value_refines (P : platform) (m m' : M jsobj)
    (cache : list jsstring) (type : Z) :
  refines m m' ->
  refines (read_value P m cache type) (read_value P m' cache type).
Proof.
  intro H. unfold read_value.
  repeat (match goal with
          | |- refines (if ?c then _ else _) _ => destruct c
          end; try apply refines_refl).
  apply refines_bind; [exact H | intro a; apply refines_refl].
Qed.

Lemma readMap_fuel_succ (P : platform) (cache : list jsstring) (fuel : nat) :
  forall map, refines (_readMap P fuel cache map) (_readMap P (S fuel) cache map).
Proof.
  induction fuel as [|fuel IH]; intro map.
  - intros r o r' H Hne. cbn in H. injection H as <- _. congruence.
  - change (_readMap P (S fuel) cache map)
      with (key <- _readCachedString P cache ;;
            type <- readSignedByte ;;
            if type =? ENDOFMAP then ret map
            else
              v <- read_value P (_readMap P fuel cache []) cache type ;;
              match v with
              | None => ret map
              | Some value =>
                  map' <- lift (assign (property_key key) value map) ;;
                  _readMap P fuel cache map'
              end).
    change (_readMap P (S (S fuel)) cache map)
      with (key <- _readCachedString P cache ;;
            type <- readSignedByte ;;
            if type =? ENDOFMAP then ret map
            else
              v <- read_value P (_readMap P (S fuel) cache []) cache type ;;
              match v with
              | None => ret map
              | Some value =>
                  map' <- lift (assign (property_key key) value map) ;;
                  _readMap P (S fuel) cache map'
              end).
    apply refines_bind; [apply refines_refl|]. intro key.
    apply refines_bind; [apply refines_refl|]. intro type.
    destruct (type =? ENDOFMAP); [apply refines_refl|].
    apply refines_bind.
    + apply read_value_refines. apply IH.
    + intros [value|]; [|apply refines_refl].
      apply refines_bind; [apply refines_refl|]. intro map'. apply IH.
Qed.

Lemma readMap_fuel_le (P : platform) (cache : list jsstring) (fuel fuel' : nat) :
  (fuel <= fuel')%nat ->
  forall map, refines (_readMap P fuel cache map) (_readMap P fuel' cache map).
Proof.
  induction 1 as [|fuel' _ IH]; intro map.
  - apply refines_refl.
  - eapply refines_trans; [apply IH | apply readMap_fuel_succ].
Qed.

(* ================================================================== *)
(** ** Entries on the wire *)

Lemma readMap_step (P : platform) (fuel : nat) (cache : list jsstring)
    (map : jsobj) :
  _readMap P (S fuel) cache map
  = (key <- _readCachedString P cache ;;
     type <- readSignedByte ;;
     if type =? ENDOFMAP then ret map
     else
       v <- read_value P (_readMap P fuel cache []) cache type ;;
       match v with
       | None => ret map
       | Some value =>
           map' <- lift (assign (property_key key) value map) ;;
           _readMap P fuel cache map'
       end).
Proof. reflexivity. Qed.

(** The loop reads the entries and goes on behind them with the map the
    assignments built. *)
Lemma readMap_entries (P : platform) (fuel : nat) (cache : list jsstring)
    (es : list (option jsstring * jsval)) :
  forall (n : nat) (r r1 : BinaryReader) (map map' : jsobj),
    (fuel <= n)%nat ->
    wire_entries P fuel cache es r r1 ->
    assign_all es map = Ok map' ->
    _readMap P (length es + n) cache map r = _readMap P n cache map' r1.
Proof.
  induction es as [|[key value] es IH]; intros n r r1 map map' Hn Hw Ha.
  - cbn in Hw, Ha. subst r1. injection Ha as <-. reflexivity.
  - cbn [wire_entries] in Hw.
    destruct Hw as (type & r2 & r3 & r4 & Hk & Ht & Hne & Hv & Hw).
    cbn [assign_all] in Ha.
    destruct (assign (property_key key) value map) as [map1| | |] eqn:Ea;
      try discriminate.
    cbn [outcome_bind] in Ha.
    cbn [length Nat.add]. rewrite readMap_step. unfold bind at 1. rewrite Hk.
    unfold bind at 1. rewrite Ht.
    destruct (Z.eqb_spec type ENDOFMAP) as [|_]; [contradiction|].
    unfold bind at 1.
    rewrite (read_value_refines P _ (_readMap P (length es + n) cache []) cache type
               (readMap_fuel_le P cache fuel (length es + n) ltac:(lia) [])
               r3 _ _ Hv ltac:(discriminate)).
    unfold bind at 1, lift. rewrite Ea.
    apply IH; assumption.
Qed.



(* ================================================================== *)
(** ** Repeated keys and key order *)

Lemma assign_canonical (k : jsstring) (v : jsval) (map map' : jsobj) :
  assign k v map = Ok map' -> obj_canonical map = true ->
  obj_canonical map' = true.
Proof.
  unfold assign. intros H Hc.
  destruct (jsstring_eqb k (str "__proto__")).
  - destruct v; try discriminate; injection H as <-; exact Hc.
  - injection H as <-. apply obj_set_canonical. exact Hc.
Qed.

Lemma assign_all_canonical (es : list (option jsstring * jsval)) :
  forall map map', assign_all es map = Ok map' -> obj_canonical map = true ->
                   obj_canonical map' = true.
Proof.
  induction es as [|[key value] es IH]; intros map map' H Hc; cbn [assign_all] in H.
  - injection H as <-. exact Hc.
  - destruct (assign (property_key key) value map) as [map1| | |] eqn:E;
      try discriminate.
    cbn [outcome_bind] in H.
    apply (IH map1 map' H). apply (assign_canonical _ _ _ _ E Hc).
Qed.

Lemma assign_get (k k0 : jsstring) (v : jsval) (map map' : jsobj) :
  assign k v map = Ok map' -> k0 <> str "__proto__" ->
  obj_get k0 map' = if jsstring_eqb k0 k then Some v else obj_get k0 map.
Proof.
  unfold assign. intros H Hk0.
  destruct (jsstring_eqb k (str "__proto__")) eqn:Ep.
  - apply jsstring_eqb_eq in Ep. subst k.
    replace (jsstring_eqb k0 (str "__proto__")) with false
      by (symmetry; apply jsstring_eqb_neq; exact Hk0).
    destruct v; try discriminate; injection H as <-; reflexivity.
  - injection H as <-. destruct (jsstring_eqb k0 k) eqn:E.
    + apply jsstring_eqb_eq in E. subst k0. apply obj_get_set_same.
    + apply jsstring_eqb_neq in E. apply obj_get_set_other. exact E.
Qed.

Lemma assign_all_get (k0 : jsstring) (es : list (option jsstring * jsval)) :
  k0 <> str "__proto__" ->
  forall map map', assign_all es map = Ok map' ->
    obj_get k0 map' = match last_value k0 es with
                      | Some v => Some v
                      | None => obj_get k0 map
                      end.
Proof.
  intro Hk0. induction es as [|[key value] es IH]; intros map map' H;
    cbn [assign_all last_value] in *.
  - injection H as <-. reflexivity.
  - destruct (assign (property_key key) value map) as [map1| | |] eqn:E;
      try discriminate.
    cbn [outcome_bind] in H. rewrite (IH map1 map' H).
    destruct (last_value k0 es); [reflexivity|].
    rewrite (assign_get _ _ _ _ _ E Hk0).
    destruct (jsstring_eqb k0 (property_key key)); reflexivity.
Qed.

Lemma assign_all_plain (es : list (option jsstring * jsval)) :
  forall map,
    forallb (fun e => plain_key (property_key (fst e))) es = true ->
    NoDup (obj_keys map ++ List.map (fun e => property_key (fst e)) es) ->
    assign_all es map = Ok (map ++ List.map entry_property es).
Proof.
  induction es as [|[key value] es IH]; intros map Hp Hn;
    cbn [assign_all List.map forallb fst] in *.
  - rewrite app_nil_r. reflexivity.
  - apply andb_true_iff in Hp. destruct Hp as [Hk Hp].
    unfold plain_key in Hk. apply andb_true_iff in Hk. destruct Hk as [Hk1 Hk2].
    apply negb_true_iff in Hk1. unfold assign. rewrite Hk1.
    cbn [outcome_bind].
    assert (Hnin : ~ In (property_key key) (obj_keys map)).
    { intro Hin. apply NoDup_remove_2 in Hn. apply Hn.
      apply in_or_app. left. exact Hin. }
    rewrite obj_set_appends; [| destruct (array_index (property_key key));
                                 [discriminate|reflexivity] | exact Hnin].
    rewrite IH.
    + rewrite <- app_assoc. reflexivity.
    + exact Hp.
    + unfold obj_keys in *. rewrite map_app. cbn [List.map fst].
      rewrite <- app_assoc. exact Hn.
Qed.

(* ------------------------------------------------------------------ *)
(** *** Array indices are told apart by their value *)

Lemma digit_value_spec (c d : N) :
  digit_value c = Some d -> (c = d + 48 /\ d < 10)%N.
Proof.
  unfold digit_value.
  destruct ((48 <=? c) && (c <=? 57))%N eqn:E; [|discriminate].
  intro H. injection H as <-.
  apply andb_true_iff in E. destruct E as [E1 E2].
  apply N.leb_le in E1, E2. lia.
Qed.

Lemma decimal_value_same_length (s : jsstring) :
  forall (t : jsstring) (acc acc' n : N),
    length s = length t ->
    decimal_value acc s = Some n -> decimal_value acc' t = Some n ->
    acc = acc' /\ s = t.
Proof.
  induction s as [|c s IH]; intros [|c' t] acc acc' n Hl Hs Ht;
    try discriminate Hl; cbn [decimal_value] in Hs, Ht.
  - split; [congruence|reflexivity].
  - destruct (digit_value c) as [d|] eqn:Ed; [|discriminate].
    destruct (digit_value c') as [d'|] eqn:Ed'; [|discriminate].
    injection Hl as Hl.
    destruct (IH t _ _ n Hl Hs Ht) as [Ha ->].
    apply digit_value_spec in Ed, Ed'.
    assert (acc = acc' /\ d = d') as [-> ->] by lia.
    destruct Ed as [-> _], Ed' as [-> _]. split; reflexivity.
Qed.

Lemma decimal_value_bounds (s : jsstring) :
  forall acc n : N,
    decimal_value acc s = Some n ->
    (acc * 10 ^ N.of_nat (length s) <= n
     /\ n < (acc + 1) * 10 ^ N.of_nat (length s))%N.
Proof.
  induction s as [|c s IH]; intros acc n H; cbn [decimal_value] in H.
  - injection H as <-. cbn [length]. change (10 ^ N.of_nat 0)%N with 1%N. lia.
  - destruct (digit_value c) as [d|] eqn:Ed; [|discriminate].
    apply digit_value_spec in Ed. destruct Ed as [_ Hd].
    apply IH in H. cbn [length]. rewrite Nat2N.inj_succ, N.pow_succ_r'.
    nia.
Qed.

(** The decimal digits behind an array index: the value is read from all
    of them, and only the string "0" starts with a zero. *)
Lemma array_index_digits (s : jsstring) (n : N) :
  array_index s = Some n ->
  decimal_value 0 s = Some n
  /\ (10 ^ N.of_nat (length s - 1) <= n \/ s = [48%N])%N
  /\ (1 <= length s)%nat.
Proof.
  unfold array_index. destruct s as [|c [|c2 s]]; [discriminate| |].
  - intro H. cbn [decimal_value]. rewrite H. cbn [decimal_value].
    split; [reflexivity|]. split; [|cbn; lia].
    cbn [length Nat.sub]. change (10 ^ N.of_nat 0)%N with 1%N.
    apply digit_value_spec in H. destruct H as [-> Hn].
    destruct (N.eq_dec n 0) as [->|Hne]; [right; reflexivity | left; lia].
  - destruct (c =? 48)%N eqn:Ec; [discriminate|].
    destruct (10 <? _)%N; [discriminate|].
    destruct (decimal_value 0 (c :: c2 :: s)) as [m|] eqn:Em; [|discriminate].
    destruct (m <? 4294967295)%N; [|discriminate].
    intro H. injection H as <-. split; [reflexivity|].
    split; [|cbn; lia]. left.
    cbn [decimal_value] in Em.
    destruct (digit_value c) as [d|] eqn:Ed; [|discriminate].
    apply digit_value_spec in Ed. destruct Ed as [-> Hd].
    apply N.eqb_neq in Ec.
    apply (decimal_value_bounds (c2 :: s)) in Em. destruct Em as [Em _].
    cbn [length Nat.sub] in Em |- *.
    assert (1 <= 10 * 0 + d)%N by lia.
    nia.
Qed.

Lemma array_index_inj (a b : jsstring) (n : N) :
  array_index a = Some n -> array_index b = Some n -> a = b.
Proof.
  intros Ha Hb.
  destruct (array_index_digits a n Ha) as (Da & La & Na).
  destruct (array_index_digits b n Hb) as (Db & Lb & Nb).
  pose proof (decimal_value_bounds a 0 n Da) as [_ Ua].
  pose proof (decimal_value_bounds b 0 n Db) as [_ Ub].
  rewrite N.add_0_l, N.mul_1_l in Ua, Ub.
  destruct (Nat.eq_dec (length a) (length b)) as [E|E].
  { exact (proj2 (decimal_value_same_length a b 0 0 n E Da Db)). }
  exfalso.
  assert (Hmono : forall x y : nat, (x < y)%nat ->
                    (10 ^ N.of_nat x <= 10 ^ N.of_nat (y - 1))%N).
  { intros x y Hxy. apply N.pow_le_mono_r; lia. }
  destruct (Nat.lt_ge_cases (length a) (length b)) as [Hlt|Hge].
  - destruct Lb as [Lb| ->]; [|cbn [length] in Hlt; lia].
    pose proof (Hmono _ _ Hlt). lia.
  - assert (Hlt : (length b < length a)%nat) by lia.
    destruct La as [La| ->]; [|cbn [length] in Hlt; lia].
    pose proof (Hmono _ _ Hlt). lia.
Qed.

(* ------------------------------------------------------------------ *)
(** *** The order of the keys of a decoded map *)

Lemma canonical_order (V : Type) (o : list (jsstring * V)) :
  obj_canonical o = true ->
  forall (pre post : list jsstring) (k k' : jsstring),
    obj_keys o = pre ++ k :: post -> In k' post ->
    k <> k' /\ goes_before k' k = false.
Proof.
  induction o as [|[k0 v0] o IH]; intros Hc pre post k k' E Hin.
  - destruct pre; discriminate E.
  - cbn [obj_canonical] in Hc. apply andb_true_iff in Hc.
    destruct Hc as [H1 H2]. cbn [obj_keys List.map fst] in E.
    destruct pre as [|p pre]; cbn [app] in E; injection E as E1 E2.
    + subst k0. assert (Hin' : In k' (obj_keys o)) by (unfold obj_keys; rewrite E2; exact Hin).
      apply in_map_iff in Hin'. destruct Hin' as ([k1 v1] & Ek & Hin').
      cbn [fst] in Ek. subst k1.
      rewrite forallb_forall in H1. specialize (H1 _ Hin'). cbn [fst] in H1.
      apply andb_true_iff in H1. destruct H1 as [Hne Hgb].
      apply negb_true_iff in Hne, Hgb. apply jsstring_eqb_neq in Hne.
      split; assumption.
    + exact (IH H2 pre post k k' E2 Hin).
Qed.

(** Whatever stands before an array index in the list of keys is a smaller
    array index. *)
Lemma index_keys_first (V : Type) (o : list (jsstring * V)) :
  obj_canonical o = true ->
  forall (pre post : list jsstring) (k k' : jsstring) (n' : N),
    obj_keys o = pre ++ k :: post -> In k' post ->
    array_index k' = Some n' ->
    exists n, array_index k = Some n /\ (n < n')%N.
Proof.
  intros Hc pre post k k' n' E Hin Hk'.
  destruct (canonical_order V o Hc pre post k k' E Hin) as [Hne Hgb].
  unfold goes_before in Hgb. rewrite Hk' in Hgb.
  destruct (array_index k) as [n|] eqn:Hk; [|discriminate].
  exists n. split; [reflexivity|]. apply N.ltb_ge in Hgb.
  destruct (N.eq_dec n n') as [->|Hnn]; [|lia].
  elim Hne. exact (array_index_inj k k' n' Hk Hk').
Qed.

Lemma filter_filter_and (A : Type) (p q : A -> bool) (l : list A) :
  List.filter p (List.filter q l) = List.filter (fun x => q x && p x) l.
Proof.
  induction l as [|x l IH]; cbn [List.filter]; [reflexivity|].
  destruct (q x); cbn [List.filter andb]; [|exact IH].
  destruct (p x); rewrite IH; reflexivity.
Qed.

Lemma filter_true (A : Type) (p : A -> bool) (l : list A) :
  (forall x, In x l -> p x = true) -> List.filter p l = l.
Proof.
  induction l as [|x l IH]; intro H; cbn [List.filter]; [reflexivity|].
  rewrite (H x (or_introl eq_refl)). f_equal. apply IH.
  intros y Hy. apply H. right. exact Hy.
Qed.

Lemma existsb_eqb_in (k : jsstring) (l : list jsstring) :
  existsb (jsstring_eqb k) l = true <-> In k l.
Proof.
  rewrite existsb_exists. split.
  - intros (x & Hx & E). apply jsstring_eqb_eq in E. subst x. exact Hx.
  - intro H. exists k. split; [exact H | apply jsstring_eqb_refl].
Qed.

(** A key that is no array index keeps its place when it is there, and
    goes to the end when it is new. *)
Lemma obj_set_keys_plain (V : Type) (k : jsstring) (v : V)
    (o : list (jsstring * V)) :
  array_index k = None ->
  obj_keys (obj_set k v o)
  = if existsb (jsstring_eqb k) (obj_keys o) then obj_keys o
    else obj_keys o ++ [k].
Proof.
  intro Hk. induction o as [|[k' v'] o IH];
    cbn [obj_set obj_keys List.map fst existsb app]; [reflexivity|].
  destruct (jsstring_eqb k k') eqn:E; cbn [orb].
  - apply jsstring_eqb_eq in E. subst k'. reflexivity.
  - unfold goes_before. rewrite Hk. cbn [List.map fst].
    unfold obj_keys in IH. rewrite IH.
    destruct (existsb (jsstring_eqb k) (List.map fst o)); reflexivity.
Qed.

(** An array index changes nothing among the other keys. *)
Lemma obj_set_keys_index (V : Type) (k : jsstring) (v : V)
    (o : list (jsstring * V)) :
  is_array_index k = true ->
  List.filter (fun s => negb (is_array_index s)) (obj_keys (obj_set k v o))
  = List.filter (fun s => negb (is_array_index s)) (obj_keys o).
Proof.
  intro Hk. induction o as [|[k' v'] o IH];
    cbn [obj_set obj_keys List.map fst List.filter].
  - rewrite Hk. reflexivity.
  - destruct (jsstring_eqb k k') eqn:E.
    + reflexivity.
    + destruct (goes_before k k'); cbn [List.map fst List.filter].
      * rewrite Hk. reflexivity.
      * unfold obj_keys in IH. rewrite IH. reflexivity.
Qed.

Lemma plain_key_spec (k : jsstring) :
  plain_key k = true <-> k <> str "__proto__" /\ is_array_index k = false.
Proof.
  unfold plain_key, is_array_index. rewrite andb_true_iff, negb_true_iff.
  rewrite jsstring_eqb_neq. destruct (array_index k); intuition discriminate.
Qed.

Lemma assign_all_string_keys (es : list (option jsstring * jsval)) :
  forall map map',
    assign_all es map = Ok map' ->
    List.filter (fun s => negb (is_array_index s)) (obj_keys map')
    = List.filter (fun s => negb (is_array_index s)) (obj_keys map)
      ++ List.filter
           (fun s => negb (existsb (jsstring_eqb s)
                             (List.filter (fun s => negb (is_array_index s))
                                (obj_keys map))))
           (first_occurrences (List.filter plain_key (entry_keys es))).
Proof.
  induction es as [|[key value] es IH]; intros map map' H;
    cbn [assign_all entry_keys List.map fst List.filter first_occurrences] in *.
  - injection H as <-. rewrite app_nil_r. reflexivity.
  - destruct (assign (property_key key) value map) as [map1| | |] eqn:E;
      try discriminate.
    cbn [outcome_bind] in H. specialize (IH map1 map' H).
    fold (entry_keys es) in *.
    set (k := property_key key) in *.
    set (nonidx := fun s => negb (is_array_index s)) in *.
    set (L := first_occurrences (List.filter plain_key (entry_keys es))) in *.
    unfold assign in E.
    destruct (plain_key k) eqn:Hp.
    + apply plain_key_spec in Hp. destruct Hp as [Hproto Hidx].
      apply jsstring_eqb_neq in Hproto. rewrite Hproto in E.
      injection E as <-.
      assert (Hai : array_index k = None).
      { unfold is_array_index in Hidx. destruct (array_index k);
          [discriminate | reflexivity]. }
      rewrite (obj_set_keys_plain _ k value map Hai) in IH.
      cbn [first_occurrences List.filter]. fold L.
      assert (Hmem : existsb (jsstring_eqb k) (List.filter nonidx (obj_keys map))
                     = existsb (jsstring_eqb k) (obj_keys map)).
      { apply eq_true_iff_eq. rewrite !existsb_eqb_in, filter_In.
        unfold nonidx. rewrite Hidx. intuition. }
      rewrite Hmem.
      destruct (existsb (jsstring_eqb k) (obj_keys map)) eqn:Ein;
        cbn [negb]; rewrite IH.
      * f_equal. rewrite filter_filter_and. apply filter_ext_in.
        intros s _. destruct (jsstring_eqb s k) eqn:Es; cbn [negb andb];
          [|reflexivity].
        apply jsstring_eqb_eq in Es. subst s. rewrite Hmem. reflexivity.
      * assert (Hnk : nonidx k = true)
          by (unfold nonidx; rewrite Hidx; reflexivity).
        rewrite filter_app. cbn [List.filter]. rewrite Hnk.
        rewrite <- app_assoc. cbn [app].
        f_equal. f_equal. rewrite filter_filter_and. apply filter_ext_in.
        intros s _. rewrite existsb_app. cbn [existsb].
        rewrite orb_false_r, negb_orb. apply andb_comm.
    + assert (Hk1 : List.filter nonidx (obj_keys map1)
                    = List.filter nonidx (obj_keys map)).
      { destruct (jsstring_eqb k (str "__proto__")) eqn:Eproto.
        - destruct value; try discriminate E; injection E as <-; reflexivity.
        - injection E as <-. apply obj_set_keys_index.
          unfold plain_key in Hp. rewrite Eproto in Hp. cbn [negb andb] in Hp.
          unfold is_array_index. destruct (array_index k);
            [reflexivity | discriminate]. }
      rewrite IH, Hk1. reflexivity.
Qed.

Lemma assign_all_keys (es : list (option jsstring * jsval)) :
  forall map map',
    assign_all es map = Ok map' ->
    forall k, In k (obj_keys map')
              <-> In k (obj_keys map)
                  \/ (k <> str "__proto__" /\ In k (entry_keys es)).
Proof.
  induction es as [|[key value] es IH]; intros map map' H k;
    cbn [assign_all entry_keys List.map fst In] in *.
  - injection H as <-. tauto.
  - destruct (assign (property_key key) value map) as [map1| | |] eqn:E;
      try discriminate.
    cbn [outcome_bind] in H. rewrite (IH map1 map' H k).
    fold (entry_keys es). unfold assign in E.
    destruct (jsstring_eqb (property_key key) (str "__proto__")) eqn:Ep.
    + apply jsstring_eqb_eq in Ep.
      assert (map1 = map) as ->
        by (destruct value; try discriminate E; injection E as <-; reflexivity).
      rewrite Ep. intuition congruence.
    + apply jsstring_eqb_neq in Ep. injection E as <-.
      rewrite obj_keys_set. intuition congruence.
Qed.

Lemma write_entries_app
    (entry : jsstring -> jsval -> BinaryWriter -> outcome BinaryWriter)
    (pre post : jsobj) (w : BinaryWriter) :
  write_entries entry (pre ++ post) w
  = (w' <~ write_entries entry pre w ;; write_entries entry post w').
Proof.
  revert w. induction pre as [|[k v] pre IH]; intro w;
    cbn [app write_entries outcome_bind]; [reflexivity|].
  destruct (entry k v w); cbn [outcome_bind]; [apply IH|reflexivity..].
Qed.

(** C4, as the code has it.  The decoder stores the entries of a map in a
    plain object.  Where a run of entries is followed by the end-of-map
    pair, [_readMap] returns the object the assignments [map[key] = value]
    build, in wire order, from the empty object.  That object has every key
    of the entries but [__proto__], each once; for every key but
    [__proto__] it holds the value of the last entry with that key;
    whatever stands before an array index in its list of keys is a smaller
    array index, so the array indices come first, in ascending order; the
    other keys follow in the order of their first occurrence on the wire,
    so that a repeated key stays at the place of its first occurrence; and
    when the keys of the entries are pairwise different and none is an
    array index or [__proto__], its properties are the entries in wire
    order.  The encoder walks the properties of the object in that stored
    order: a property is written behind the properties before it and
    before the properties behind it. *)
Theorem decoded_map_is_an_object (P : platform) (fuel : nat)
    (cache : list jsstring) (es : list (option jsstring * jsval))
    (r r1 r2 r3 : BinaryReader) (key : option jsstring) (map' : jsobj) :
  wire_entries P fuel cache es r r1 ->
  _readCachedString P cache r1 = (Ok key, r2) ->
  readSignedByte r2 = (Ok ENDOFMAP, r3) ->
  assign_all es [] = Ok map' ->
  _readMap P (length es + S fuel) cache [] r = (Ok map', r3)
  /\ obj_canonical map' = true
  /\ NoDup (obj_keys map')
  /\ (forall k, In k (obj_keys map')
                <-> k <> str "__proto__" /\ In k (entry_keys es))
  /\ (forall k, k <> str "__proto__" -> obj_get k map' = last_value k es)
  /\ (forall (pre post : list jsstring) (k k' : jsstring) (n' : N),
        obj_keys map' = pre ++ k :: post -> In k' post ->
        array_index k' = Some n' ->
        exists n, array_index k = Some n /\ (n < n')%N)
  /\ List.filter (fun k => negb (is_array_index k)) (obj_keys map')
     = first_occurrences (List.filter plain_key (entry_keys es))
  /\ (forallb (fun e => plain_key (property_key (fst e))) es = true ->
      NoDup (List.map (fun e => property_key (fst e)) es) ->
      map' = List.map entry_property es)
  /\ (forall (toBil : bool) (w : BinaryWriter) (c : string_cache)
             (pre post : jsobj) (k : jsstring) (v : jsval),
        map' = pre ++ (k, v) :: post ->
        _writeMap P toBil w (JObject map') c
        = (w1 <~ _writeMap P toBil w (JObject pre) c ;;
           w2 <~ write_entry P toBil c
                   (fun w' => _writeMap P toBil w' v c) k v w1 ;;
           _writeMap P toBil w2 (JObject post) c)).
Proof.
  intros Hw Hk Ht Ha.
  assert (Hc : obj_canonical map' = true)
    by (apply (assign_all_canonical es [] map' Ha); reflexivity).
  split; [|split; [exact Hc|split; [apply obj_canonical_nodup; exact Hc|]]].
  - rewrite (readMap_entries P fuel cache es (S fuel) r r1 [] map'
               ltac:(lia) Hw Ha).
    rewrite readMap_step. unfold bind at 1. rewrite Hk.
    unfold bind at 1. rewrite Ht. reflexivity.
  - split; [|split; [|split; [|split; [|split]]]].
    + intro k. rewrite (assign_all_keys es [] map' Ha k).
      cbn [obj_keys List.map In]. tauto.
    + intros k Hne. rewrite (assign_all_get k es Hne [] map' Ha).
      destruct (last_value k es); reflexivity.
    + exact (index_keys_first _ map' Hc).
    + rewrite (assign_all_string_keys es [] map' Ha).
      cbn [obj_keys List.map List.filter app].
      apply filter_true. intros x _. reflexivity.
    + intros Hp Hn. pose proof (assign_all_plain es [] Hp Hn) as E.
      rewrite Ha in E. injection E as ->. reflexivity.
    + intros toBil w c pre post k v ->. cbn [_writeMap].
      rewrite write_entries_app. reflexivity.
Qed.

(* ================================================================== *)
(** ** The skipped header length *)

Lemma same_outside_skipn (b1 b2 : bytes) (k : nat) :
  same_outside_header_length b1 b2 -> (8 <= k)%nat -> skipn k b1 = skipn k b2.
Proof.
  intros [Hl H] Hk. apply nth_error_ext. intro i.
  rewrite !nth_error_skipn. apply H. lia.
Qed.

Lemma same_outside_view (b1 b2 : bytes) (off : Z) (n : nat) :
  same_outside_header_length b1 b2 -> 8 <= off ->
  view_bytes b1 off n = view_bytes b2 off n.
Proof.
  intros H Ho. unfold view_bytes.
  rewrite (same_outside_skipn b1 b2 (Z.to_nat off) H) by lia. reflexivity.
Qed.

Lemma same_outside_in_view (b1 b2 : bytes) (off n : Z) :
  same_outside_header_length b1 b2 -> in_view b1 off n = in_view b2 off n.
Proof. intros [Hl _]. unfold in_view, blen. rewrite Hl. reflexivity. Qed.

Lemma same_outside_slice (b1 b2 : bytes) (off len : Z) :
  same_outside_header_length b1 b2 -> 8 <= off -> 0 <= len ->
  slice b1 off (off + len) = slice b2 off (off + len).
Proof.
  intros H Ho Hlen. pose proof H as [Hl _]. unfold slice, blen. rewrite <- Hl.
  unfold rel_index.
  destruct (Z.ltb_spec off 0); [lia|].
  destruct (Z.ltb_spec (off + len) 0); [lia|].
  destruct (Z_le_gt_dec 8 (Z.min off (Z.of_nat (length b1)))) as [H8|H8].
  - rewrite (same_outside_skipn b1 b2 _ H) by lia. reflexivity.
  - rewrite !skipn_all2; [reflexivity| |]; lia.
Qed.

Lemma lockstep_ret (A : Type) (a : A) : lockstep (ret a).
Proof. split; cbn; intros; [assumption | split; [reflexivity | assumption]]. Qed.

Lemma lockstep_lift (A : Type) (o : outcome A) : lockstep (lift o).
Proof. split; cbn; intros; [assumption | split; [reflexivity | assumption]]. Qed.

Lemma lockstep_bind (A B : Type) (m : M A) (f : A -> M B) :
  lockstep m -> (forall a, lockstep (f a)) -> lockstep (bind m f).
Proof.
  intros [Hs Hm] Hf. split.
  - intros r Hr. unfold bind. specialize (Hs r Hr).
    destruct (m r) as [[a|e| |] r']; cbn [snd] in *; try exact Hs.
    apply (proj1 (Hf a)). exact Hs.
  - intros r1 r2 Hin Hfin. unfold bind in *.
    specialize (Hm r1 r2 Hin). specialize (Hs (snd (m r1))).
    destruct (m r1) as [o1 r1'] eqn:E1. destruct (m r2) as [o2 r2'] eqn:E2.
    cbn [fst snd] in *.
    assert (Hr1 : rewound r1' = false).
    { destruct (rewound r1') eqn:Er; [|reflexivity].
      destruct o1 as [a|e| |]; cbn [snd] in Hfin; try congruence.
      rewrite (proj1 (Hf a) r1' Er) in Hfin. discriminate. }
    destruct (Hm Hr1) as [Eo Hin']. subst o2.
    destruct o1 as [a|e| |]; cbn [fst snd]; try (split; [reflexivity|exact Hin']).
    apply (proj2 (Hf a)); assumption.
Qed.

Lemma lockstep_if (A : Type) (c : bool) (m m' : M A) :
  lockstep m -> lockstep m' -> lockstep (if c then m else m').
Proof. destruct c; auto. Qed.

Lemma in_step_advance (r1 r2 : BinaryReader) (n : Z) :
  in_step r1 r2 -> 0 <= n ->
  in_step (set_offset r1 (offset r1 + n)) (set_offset r2 (offset r2 + n)).
Proof.
  intros (Ho & H8 & R1 & R2 & Hb) Hn. unfold in_step, set_offset.
  cbn [offset buffer rewound].
  split; [lia|]. split; [lia|]. split; [assumption|]. split; assumption.
Qed.

Lemma lockstep_readInt : lockstep readInt.
Proof.
  split.
  - intros r Hr. unfold readInt.
    destruct (getInt32 (buffer r) (offset r)); cbn; exact Hr.
  - intros r1 r2 Hin _. pose proof Hin as (Ho & H8 & R1 & R2 & Hb).
    unfold readInt, getInt32. rewrite <- Ho.
    rewrite <- (same_outside_in_view _ _ _ _ Hb).
    rewrite <- (same_outside_view _ _ _ _ Hb H8).
    destruct (in_view (buffer r1) (offset r1) 4); cbn [fst snd].
    + split; [reflexivity|]. rewrite Ho at 2. apply in_step_advance; [exact Hin|lia].
    + split; [reflexivity|exact Hin].
Qed.

Lemma lockstep_readFloat : lockstep readFloat.
Proof.
  split.
  - intros r Hr. unfold readFloat.
    destruct (getFloat32 (buffer r) (offset r)); cbn; exact Hr.
  - intros r1 r2 Hin _. pose proof Hin as (Ho & H8 & R1 & R2 & Hb).
    unfold readFloat, getFloat32. rewrite <- Ho.
    rewrite <- (same_outside_in_view _ _ _ _ Hb).
    rewrite <- (same_outside_view _ _ _ _ Hb H8).
    destruct (in_view (buffer r1) (offset r1) 4); cbn [fst snd].
    + split; [reflexivity|]. rewrite Ho at 2. apply in_step_advance; [exact Hin|lia].
    + split; [reflexivity|exact Hin].
Qed.

Lemma lockstep_readSignedByte : lockstep readSignedByte.
Proof.
  split.
  - intros r Hr. exact Hr.
  - intros r1 r2 Hin _. pose proof Hin as (Ho & H8 & R1 & R2 & Hb).
    unfold readSignedByte, getInt8. cbn [fst snd]. rewrite <- Ho.
    rewrite <- (same_outside_in_view _ _ _ _ Hb).
    rewrite <- (same_outside_view _ _ _ _ Hb H8).
    split; [reflexivity|]. rewrite Ho at 2. apply in_step_advance; [exact Hin|lia].
Qed.

Lemma lockstep_readBytes (len : Z) : lockstep (readBytes len).
Proof.
  split.
  - intros r Hr. unfold readBytes. cbn. rewrite Hr. reflexivity.
  - intros r1 r2 Hin Hfin. pose proof Hin as (Ho & H8 & R1 & R2 & Hb).
    unfold readBytes in *. cbn [fst snd rewound] in *.
    rewrite R1 in Hfin. cbn [orb] in Hfin. apply Z.ltb_ge in Hfin.
    rewrite <- Ho. rewrite (same_outside_slice _ _ _ _ Hb H8 Hfin).
    split; [reflexivity|].
    unfold in_step. cbn [offset buffer rewound]. rewrite R1, R2.
    replace (len <? 0) with false by (symmetry; apply Z.ltb_ge; exact Hfin).
    split; [lia|]. split; [lia|]. split; [reflexivity|]. split; [reflexivity|].
    exact Hb.
Qed.

Lemma lockstep_repeatM (A : Type) (n : nat) (body : M A) :
  lockstep body -> lockstep (repeatM n body).
Proof.
  intro H. induction n as [|n IH]; cbn [repeatM].
  - apply lockstep_ret.
  - apply lockstep_bind; [exact H|]. intro x.
    apply lockstep_bind; [exact IH|]. intro xs. apply lockstep_ret.
Qed.

Lemma lockstep_readString (P : platform) : lockstep (_readString P).
Proof.
  unfold _readString. apply lockstep_bind; [apply lockstep_readInt|]. intro len.
  apply lockstep_bind; [apply lockstep_readBytes|]. intro b. apply lockstep_ret.
Qed.

Lemma lockstep_loadStringsCache (P : platform) : lockstep (_loadStringsCache P).
Proof.
  unfold _loadStringsCache. apply lockstep_bind; [apply lockstep_readInt|].
  intro count. apply lockstep_if; [apply lockstep_lift|].
  apply lockstep_repeatM. apply lockstep_readString.
Qed.

Lemma lockstep_readCachedString (P : platform) (cache : list jsstring) :
  lockstep (_readCachedString P cache).
Proof.
  unfold _readCachedString. destruct cache.
  - apply lockstep_bind; [apply lockstep_readString|]. intro s. apply lockstep_ret.
  - apply lockstep_bind; [apply lockstep_readInt|]. intro i. apply lockstep_ret.
Qed.

Lemma lockstep_read_value (P : platform) (m : M jsobj) (cache : list jsstring)
    (type : Z) :
  lockstep m -> lockstep (read_value P m cache type).
Proof.
  intro Hm. unfold read_value.
  repeat (apply lockstep_if;
          [apply lockstep_bind;
           [first [apply lockstep_readInt | apply lockstep_readCachedString
                  | apply lockstep_readFloat | apply lockstep_readString
                  | apply lockstep_readSignedByte | exact Hm
                  | apply lockstep_readBytes]
           | intro; try apply lockstep_ret] | ]);
    try apply lockstep_ret.
  - apply lockstep_if; [apply lockstep_ret|].
    apply lockstep_if.
    + apply lockstep_bind; [apply lockstep_readBytes|]. intro. apply lockstep_ret.
    + apply lockstep_if; [|apply lockstep_ret].
      apply lockstep_bind; [apply lockstep_readBytes|]. intro d.
      apply lockstep_bind; [apply lockstep_lift|]. intro. apply lockstep_ret.
Qed.

Lemma lockstep_readMap (P : platform) (cache : list jsstring) (fuel : nat) :
  forall map, lockstep (_readMap P fuel cache map).
Proof.
  induction fuel as [|fuel IH]; intro map.
  - apply lockstep_lift.
  - rewrite readMap_step.
    apply lockstep_bind; [apply lockstep_readCachedString|]. intro key.
    apply lockstep_bind; [apply lockstep_readSignedByte|]. intro type.
    apply lockstep_if; [apply lockstep_ret|].
    apply lockstep_bind; [apply lockstep_read_value; apply IH|].
    intros [value|]; [|apply lockstep_ret].
    apply lockstep_bind; [apply lockstep_lift|]. intro map'. apply IH.
Qed.

Lemma lockstep_readScripts (P : platform) : lockstep (_readScripts P).
Proof.
  unfold _readScripts. apply lockstep_bind; [apply lockstep_readInt|]. intro len.
  apply lockstep_bind; [apply lockstep_readBytes|]. intro rawData.
  destruct (pako_ungzip P rawData) as [d|]; [|apply lockstep_ret].
  destruct (fst (read_script_stream P (new_BinaryReader d)));
    first [apply lockstep_ret | apply lockstep_lift].
Qed.

Lemma lockstep_readVariant : lockstep _readVariantFromStream.
Proof.
  unfold _readVariantFromStream.
  apply lockstep_bind; [apply lockstep_readFloat|]. intro scale.
  apply lockstep_bind; [apply lockstep_readInt|]. intro width.
  apply lockstep_bind; [apply lockstep_readInt|]. intro height.
  apply lockstep_ret.
Qed.

(** The statements of [_readLayoutHeader] behind the skipped length. *)
Lemma lockstep_header_rest (P : platform) (version : Z) :
  lockstep (gridSize <- (if 4 <=? version then readInt else ret 10) ;;
            cache <- _loadStringsCache P ;;
            cCount <- readInt ;;
            controls <- repeatM (Z.to_nat cCount) (read_control_header P cache) ;;
            fCount <- readInt ;;
            files <- repeatM (Z.to_nat fCount) (_readString P) ;;
            ret (gridSize, controls, files)).
Proof.
  apply lockstep_bind;
    [apply lockstep_if; [apply lockstep_readInt|apply lockstep_ret]|].
  intro gridSize.
  apply lockstep_bind; [apply lockstep_loadStringsCache|]. intro cache.
  apply lockstep_bind; [apply lockstep_readInt|]. intro cCount.
  apply lockstep_bind.
  { apply lockstep_repeatM. unfold read_control_header.
    apply lockstep_bind; [apply lockstep_readCachedString|]. intro.
    apply lockstep_bind; [apply lockstep_readCachedString|]. intro.
    apply lockstep_bind; [apply lockstep_readCachedString|]. intro.
    apply lockstep_ret. }
  intro controls.
  apply lockstep_bind; [apply lockstep_readInt|]. intro fCount.
  apply lockstep_bind; [apply lockstep_repeatM; apply lockstep_readString|].
  intro files. apply lockstep_ret.
Qed.

(** What [read_design] does behind the header. *)
Lemma lockstep_design_rest (P : platform) (fuel : nat) (header : layout_header) :
  lockstep (if Version header <? 3 then throw UnsupportedVersion
            else
              cache <- _loadStringsCache P ;;
              variantCount <- readInt ;;
              variants <- repeatM (Z.to_nat variantCount) _readVariantFromStream ;;
              data <- _readMap P fuel cache [] ;;
              readInt ;;;
              fontAwesome <- readSignedByte ;;
              materialIcons <- readSignedByte ;;
              ret {| LayoutHeader := header; Variants := variants; Data := data;
                     FontAwesome := fontAwesome =? 1;
                     MaterialIcons := materialIcons =? 1 |}).
Proof.
  apply lockstep_if; [apply lockstep_lift|].
  apply lockstep_bind; [apply lockstep_loadStringsCache|]. intro cache.
  apply lockstep_bind; [apply lockstep_readInt|]. intro variantCount.
  apply lockstep_bind; [apply lockstep_repeatM; apply lockstep_readVariant|].
  intro variants.
  apply lockstep_bind; [apply lockstep_readMap|]. intro data.
  apply lockstep_bind; [apply lockstep_readInt|]. intro.
  apply lockstep_bind; [apply lockstep_readSignedByte|]. intro fontAwesome.
  apply lockstep_bind; [apply lockstep_readSignedByte|]. intro materialIcons.
  apply lockstep_ret.
Qed.

Lemma read_design_unfold (P : platform) (fuel : nat) (r : BinaryReader) :
  read_design P fuel r
  = match readInt r with
    | (Ok version, r') =>
        if version <? 3 then (Throw UnsupportedVersion, r')
        else design_behind_length P fuel version (set_offset r' (offset r' + 4))
    | (Throw e, r') => (Throw e, r')
    | (Diverge, r') => (Diverge, r')
    | (Unmodelled, r') => (Unmodelled, r')
    end.
Proof.
  unfold read_design, _readLayoutHeader, design_behind_length,
    read_header_fields.
  unfold bind at 1. unfold bind at 1.
  destruct (readInt r) as [[version|e| |] r']; try reflexivity.
  destruct (version <? 3) eqn:E.
  - unfold ret. cbn [Version]. rewrite E. reflexivity.
  - reflexivity.
Qed.

Lemma lockstep_design_behind_length (P : platform) (fuel : nat) (version : Z) :
  lockstep (design_behind_length P fuel version).
Proof.
  unfold design_behind_length. apply lockstep_bind.
  - apply lockstep_bind; [apply lockstep_header_rest|]. intro fields.
    apply lockstep_bind; [apply lockstep_readScripts|]. intro scripts.
    apply lockstep_ret.
  - intro header. apply lockstep_design_rest.
Qed.

Lemma same_outside_version (b1 b2 : bytes) :
  same_outside_header_length b1 b2 ->
  getInt32 b1 0 = getInt32 b2 0.
Proof.
  intros [Hl H]. unfold getInt32, in_view, blen, view_bytes. rewrite Hl.
  cbn [Z.to_nat skipn].
  replace (firstn 4 b1) with (firstn 4 b2); [reflexivity|].
  apply nth_error_ext. intro i. rewrite !nth_error_firstn.
  destruct (Nat.ltb_spec i 4); [|reflexivity].
  symmetry. apply H. lia.
Qed.

(** C10, as the code has it.  For two buffers that differ only in the four
    bytes of the header length: when decoding the first one never reads a
    negative length (of a string or of the script block), which is the
    only way the cursor goes back to bytes it has passed, decoding the
    second one has the same outcome: the same document or the same failure.
    The decoder steps over the field without reading it. *)
Theorem header_length_is_not_read (P : platform) (fuel : nat) (b1 b2 : bytes) :
  same_outside_header_length b1 b2 ->
  rewound (snd (read_design P fuel (new_BinaryReader b1))) = false ->
  convertBjlToJsonFromBytes P fuel b2 = convertBjlToJsonFromBytes P fuel b1
  /\ rewound (snd (read_design P fuel (new_BinaryReader b2))) = false
  /\ offset (snd (read_design P fuel (new_BinaryReader b2)))
     = offset (snd (read_design P fuel (new_BinaryReader b1))).
Proof.
  intros Hb. unfold convertBjlToJsonFromBytes.
  rewrite !read_design_unfold. unfold readInt, new_BinaryReader.
  cbn [buffer offset]. rewrite <- (same_outside_version b1 b2 Hb).
  destruct (getInt32 b1 0) as [version|]; [|intros _; repeat split].
  destruct (version <? 3); [intros _; repeat split|].
  unfold set_offset. cbn [buffer offset rewound]. intro Hfin.
  assert (Hin : in_step {| buffer := b1; offset := 0 + 4 + 4; rewound := false |}
                        {| buffer := b2; offset := 0 + 4 + 4; rewound := false |}).
  { unfold in_step. cbn [buffer offset rewound].
    split; [reflexivity|]. split; [lia|]. split; [reflexivity|].
    split; [reflexivity|]. exact Hb. }
  destruct (proj2 (lockstep_design_behind_length P fuel version) _ _ Hin Hfin)
    as [E (Ho & _ & _ & R2 & _)].
  split; [exact E|]. split; [exact R2|]. symmetry. exact Ho.
Qed.

Lemma bind_ok (A B : Type) (m : M A) (f : A -> M B) (r r' : BinaryReader) (a : A) :
  m r = (Ok a, r') -> bind m f r = f a r'.
Proof. intro H. unfold bind. rewrite H. reflexivity. Qed.

(** Behind its length field, [_readScripts] does not throw. *)
Lemma readScripts_outcome (P : platform) (r r1 : BinaryReader) (len : Z) :
  readInt r = (Ok len, r1) ->
  exists o, _readScripts P r = (o, snd (readBytes len r1))
            /\ forall e, o <> Throw e.
Proof.
  intro H. unfold _readScripts, bind. rewrite H. unfold readBytes.
  cbn [fst snd].
  destruct (pako_ungzip P _) as [d|].
  - destruct (fst (read_script_stream P (new_BinaryReader d)));
      eexists; (split; [reflexivity|discriminate]).
  - eexists. split; [reflexivity|discriminate].
Qed.

(* ================================================================== *)
(** ** Reading back what the writer wrote: integers, strings, tables *)

Lemma int32_wrap (z : Z) : int32 z = true -> wrap 32 z = z.
Proof.
  unfold int32. intro H. apply andb_true_iff in H. destruct H as [H1 H2].
  apply Z.leb_le in H1. apply Z.ltb_lt in H2.
  apply wrap_small; [lia|]. change (32 - 1) with 31. lia.
Qed.


Lemma count_wrap (n : nat) :
  count_ok n = true -> wrap 32 (Z.of_nat n) = Z.of_nat n.
Proof.
  unfold count_ok. intro H. apply Z.ltb_lt in H.
  apply wrap_small; [lia|]. change (32 - 1) with 31.
  assert (0 < 2 ^ 31) by reflexivity. lia.
Qed.

Lemma reads_int (z : Z) : int32 z = true -> reads readInt (le_bytes 4 (wrap 32 z)) z.
Proof.
  intro H. eapply reads_eq; [apply reads_readInt|reflexivity|].
  rewrite wrap_wrap by lia. apply int32_wrap. exact H.
Qed.

Lemma reads_count (n : nat) :
  count_ok n = true ->
  reads readInt (le_bytes 4 (wrap 32 (Z.of_nat n))) (Z.of_nat n).
Proof.
  intro H. eapply reads_eq; [apply reads_readInt|reflexivity|].
  rewrite wrap_wrap by lia. apply count_wrap. exact H.
Qed.

(** The tag byte [writeByte(type)] writes is read back as [type]. *)
Lemma reads_tag (type : Z) :
  0 <= type < 128 ->
  reads readSignedByte [byte_of_Z (Z.land type 0xff)] type.
Proof.
  intro H. eapply reads_eq; [apply reads_readSignedByte|reflexivity|].
  change 0xff with (Z.ones 8). rewrite Z.land_ones by lia.
  change (2 ^ 8) with 256. rewrite Z.mod_small by lia.
  apply wrap_small; [lia|]. change (2 ^ (8 - 1)) with 128. lia.
Qed.

Lemma writeString_bytes (P : platform) (w : BinaryWriter) (s : jsstring) :
  _writeString P w s = w ++ string_bytes P s.
Proof.
  unfold _writeString, writeBytes, writeInt, string_bytes.
  rewrite app_assoc. reflexivity.
Qed.

Lemma text_ok_decode (P : platform) (s : jsstring) :
  text_ok P s = true -> TextDecoder_decode P (TextEncoder_encode P s) = s.
Proof.
  unfold text_ok. intro H. apply andb_true_iff in H.
  apply jsstring_eqb_eq. tauto.
Qed.

Lemma text_ok_count (P : platform) (s : jsstring) :
  text_ok P s = true -> count_ok (length (TextEncoder_encode P s)) = true.
Proof. unfold text_ok. intro H. apply andb_true_iff in H. tauto. Qed.

Lemma reads_readString (P : platform) (s : jsstring) :
  text_ok P s = true -> reads (_readString P) (string_bytes P s) s.
Proof.
  intro H. unfold _readString, string_bytes.
  eapply reads_bind; [apply reads_count; apply text_ok_count; exact H|].
  cbv beta. eapply reads_eq.
  - eapply reads_bind; [apply reads_readBytes | apply reads_ret].
  - apply app_nil_r.
  - apply text_ok_decode. exact H.
Qed.

Lemma reads_repeatM (A : Type) (m : M A) (f : A -> bytes) (l : list A) :
  (forall x, In x l -> reads m (f x) x) ->
  reads (repeatM (length l) m) (List.concat (List.map f l)) l.
Proof.
  induction l as [|x l IH]; intro H; cbn [length repeatM List.map List.concat].
  - apply reads_ret.
  - eapply reads_bind; [apply H; left; reflexivity|]. cbv beta.
    eapply reads_eq.
    + eapply reads_bind; [apply IH; intros y Hy; apply H; right; exact Hy|].
      apply reads_ret.
    + apply app_nil_r.
    + reflexivity.
Qed.

Lemma fold_writeString (P : platform) (l : list jsstring) (w : BinaryWriter) :
  fold_left (_writeString P) l w
  = w ++ List.concat (List.map (string_bytes P) l).
Proof.
  revert w. induction l as [|s l IH]; intro w; cbn [fold_left List.map List.concat].
  - symmetry. apply app_nil_r.
  - rewrite IH, writeString_bytes, <- app_assoc. reflexivity.
Qed.

Lemma reads_loadStringsCache (P : platform) (l : list jsstring) :
  count_ok (length l) = true -> forallb (text_ok P) l = true ->
  reads (_loadStringsCache P) (table_bytes P l) l.
Proof.
  intros Hc Ht. unfold _loadStringsCache, table_bytes.
  eapply reads_bind; [apply reads_count; exact Hc|]. cbv beta.
  destruct (Z.ltb_spec (Z.of_nat (length l)) 0); [lia|].
  rewrite Nat2Z.id. apply reads_repeatM.
  intros s Hs. apply reads_readString.
  rewrite forallb_forall in Ht. apply Ht. exact Hs.
Qed.

Lemma writeVariant_bytes (w : BinaryWriter) (v : variant) :
  _writeVariant w v = w ++ variant_bytes v.
Proof.
  unfold _writeVariant, writeFloat, writeInt, variant_bytes.
  rewrite <- !app_assoc. reflexivity.
Qed.




(* ================================================================== *)
(** ** Reading back what the writer wrote: maps *)



Lemma served_cached_string (P : platform) (cache : string_cache)
    (arr : list jsstring) (s : jsstring) :
  served cache arr s ->
  exists kb,
    (forall w, _writeCachedString P w cache (Some s) = Ok (w ++ kb))
    /\ reads (_readCachedString P arr) kb (Some s).
Proof.
  intros (i & Hg & Hi & H0 & Hn). exists (le_bytes 4 (wrap 32 i)). split.
  - intro w. unfold _writeCachedString. cbn [property_key].
    destruct cache as [|kv cache']; [discriminate|]. rewrite Hg. reflexivity.
  - unfold _readCachedString.
    destruct arr as [|a arr']; [destruct (Z.to_nat i); discriminate|].
    eapply reads_eq.
    + eapply reads_bind; [apply reads_int; exact Hi | apply reads_ret].
    + apply app_nil_r.
    + unfold cache_at. destruct (Z.ltb_spec i 0); [lia|exact Hn].
Qed.

Lemma sentinel_bytes (P : platform) (w : BinaryWriter) :
  writeByte (_writeString P w []) ENDOFMAP = w ++ sentinel P.
Proof.
  unfold writeByte, sentinel. rewrite writeString_bytes, <- app_assoc.
  reflexivity.
Qed.

Lemma reads_sentinel_key (P : platform) (arr : list jsstring) :
  platform_ok P ->
  exists key, reads (_readCachedString P arr) (string_bytes P []) key.
Proof.
  intros [He _]. unfold string_bytes. rewrite He. rewrite app_nil_r.
  change (blen []) with 0. unfold _readCachedString. destruct arr as [|a arr'].
  - assert (Hs : reads (_readString P) (le_bytes 4 (wrap 32 0))
                    (TextDecoder_decode P [])).
    { unfold _readString. eapply reads_eq.
      - eapply reads_bind; [apply (reads_int 0); reflexivity|]. cbv beta.
        eapply reads_eq.
        + eapply reads_bind; [apply (reads_readBytes [])|apply reads_ret].
        + reflexivity.
        + reflexivity.
      - apply app_nil_r.
      - reflexivity. }
    eexists. eapply reads_eq.
    + eapply reads_bind; [exact Hs|apply reads_ret].
    + apply app_nil_r.
    + reflexivity.
  - eexists. eapply reads_eq.
    + eapply reads_bind; [apply (reads_int 0); reflexivity|apply reads_ret].
    + apply app_nil_r.
    + reflexivity.
Qed.

Lemma wire_reads_nil (P : platform) (fuel : nat) (arr : list jsstring) :
  wire_reads P fuel arr [] [].
Proof. intros r rest H. exists r. split; [reflexivity|exact H]. Qed.

Lemma wire_reads_cons (P : platform) (fuel : nat) (arr : list jsstring)
    (kb pb bs : bytes) (key : option jsstring) (type : Z) (value : jsval)
    (es : list (option jsstring * jsval)) :
  reads (_readCachedString P arr) kb key ->
  0 <= type < 128 -> type <> ENDOFMAP ->
  reads (read_value P (_readMap P fuel arr []) arr type) pb (Some value) ->
  wire_reads P fuel arr bs es ->
  wire_reads P fuel arr
    (kb ++ [byte_of_Z (Z.land type 0xff)] ++ pb ++ bs) ((key, value) :: es).
Proof.
  intros Hk Ht Hne Hv Hes r rest Hs.
  rewrite <- !app_assoc in Hs.
  destruct (Hk r _ Hs) as (r1 & E1 & Hs1).
  destruct (reads_tag type Ht r1 _ Hs1) as (r2 & E2 & Hs2).
  destruct (Hv r2 _ Hs2) as (r3 & E3 & Hs3).
  destruct (Hes r3 _ Hs3) as (r4 & E4 & Hs4).
  exists r4. split; [|exact Hs4].
  cbn [wire_entries]. exists type, r1, r2, r3. auto.
Qed.

(** A map is read back from its entries and the end-of-map pair. *)
Lemma reads_map_of_wire (P : platform) (fuel : nat) (arr : list jsstring)
    (bs : bytes) (es : list (option jsstring * jsval)) (map : jsobj) :
  platform_ok P ->
  wire_reads P fuel arr bs es ->
  assign_all es [] = Ok map ->
  reads (_readMap P (length es + S fuel) arr []) (bs ++ sentinel P) map.
Proof.
  intros Hp Hw Ha r rest Hs. rewrite <- app_assoc in Hs.
  destruct (Hw r _ Hs) as (r1 & Hes & Hs1).
  rewrite (readMap_entries P fuel arr es (S fuel) r r1 [] map ltac:(lia) Hes Ha).
  destruct (reads_sentinel_key P arr Hp) as (key & Hk).
  unfold sentinel in Hs1. rewrite <- app_assoc in Hs1.
  destruct (Hk r1 _ Hs1) as (r2 & E2 & Hs2).
  destruct (reads_tag ENDOFMAP ltac:(unfold ENDOFMAP; lia) r2 _ Hs2)
    as (r3 & E3 & Hs3).
  exists r3. split; [|exact Hs3].
  rewrite readMap_step. unfold bind at 1. rewrite E2.
  unfold bind at 1. rewrite E3. reflexivity.
Qed.






(** The cases of the switch of [_readMap]. *)
Lemma read_value_CINT (P : platform) (m : M jsobj) (arr : list jsstring) :
  read_value P m arr CINT = (v <- readInt ;; ret (Some (JInt v))).
Proof. reflexivity. Qed.



Lemma read_value_CSTRING (P : platform) (m : M jsobj) (arr : list jsstring) :
  read_value P m arr CSTRING
  = (s <- _readString P ;; ret (Some (tagged_value CSTRING (JString s)))).
Proof. reflexivity. Qed.


Lemma read_value_CMAP (P : platform) (m : M jsobj) (arr : list jsstring) :
  read_value P m arr CMAP = (x <- m ;; ret (Some (JObject x))).
Proof. reflexivity. Qed.

Lemma read_value_CNULL (P : platform) (m : M jsobj) (arr : list jsstring) :
  read_value P m arr CNULL = ret (Some (tagged CNULL [])).
Proof. reflexivity. Qed.



Lemma reads_one (A : Type) (m : M A) (bs : bytes) (v : A) (B : Type) (g : A -> B) :
  reads m bs v -> reads (x <- m ;; ret (g x)) bs (g v).
Proof.
  intro H. eapply reads_eq.
  - eapply reads_bind; [exact H|apply reads_ret].
  - apply app_nil_r.
  - reflexivity.
Qed.

Lemma getInt16_le (a c : bytes) (z : Z) :
  getInt16 (a ++ le_bytes 2 z ++ c) (blen a) = Some (wrap 16 z).
Proof.
  assert (Hs : at_stream (mkReader (a ++ le_bytes 2 z ++ c) (blen a) false)
                 (le_bytes 2 z ++ c)).
  { split; cbn [offset buffer]; [apply blen_nonneg|].
    unfold blen. rewrite Nat2Z.id, skipn_app, skipn_all, Nat.sub_diag.
    reflexivity. }
  unfold getInt16.
  pose proof (at_stream_in_view _ _ _ Hs ltac:(discriminate)) as Hi.
  pose proof (at_stream_view _ _ _ Hs) as Hv.
  cbn [buffer offset] in Hi, Hv.
  change (blen (le_bytes 2 z)) with 2 in Hi. rewrite Hi.
  change (length (le_bytes 2 z)) with 2%nat in Hv. rewrite Hv.
  rewrite le_unsigned_le_bytes. reflexivity.
Qed.


Lemma write_entry_not_skipped (P : platform) (toBil : bool)
    (cache : string_cache) (writeNested : BinaryWriter -> outcome BinaryWriter)
    (k : jsstring) (val : jsval) (w : BinaryWriter) :
  toBil && skipped val = false ->
  write_entry P toBil cache writeNested k val w
  = (w <~ _writeCachedString P w cache (Some k) ;;
     if is_object val then
       if negb (is_undefined (get_prop "ValueType" val)) then
         b <~ to_int32 (get_prop "ValueType" val) ;;
         write_tagged_payload P (writeByte w b) (get_prop "ValueType" val) val
       else
         w <~ writeNested (writeByte w CMAP) ;;
         Ok (writeByte (_writeString P w []) ENDOFMAP)
     else
       match as_integer val with
       | Some z => Ok (writeInt (writeByte w CINT) z)
       | None =>
           match val with
           | JString s =>
               _writeCachedString P (writeByte w CACHED_STRING) cache (Some s)
           | JBool b => Ok (writeByte (writeByte w BOOL) (if b then 1 else 0))
           | JNull => Ok (writeByte w CNULL)
           | _ => Throw UnsupportedValueType
           end
       end).
Proof.
  intro H. unfold write_entry. rewrite <- andb_assoc.
  change (is_object val
          && (is_number CNULL (get_prop "ValueType" val)
              || is_number RECT32 (get_prop "ValueType" val)))
    with (skipped val).
  rewrite H. reflexivity.
Qed.








Lemma wire_entries_fuel_le (P : platform) (arr : list jsstring)
    (fuel fuel' : nat) (es : list (option jsstring * jsval)) :
  (fuel <= fuel')%nat ->
  forall r r', wire_entries P fuel arr es r r' -> wire_entries P fuel' arr es r r'.
Proof.
  intro Hle. induction es as [|[key value] es IH]; intros r r' H;
    cbn [wire_entries] in *; [exact H|].
  destruct H as (type & r1 & r2 & r3 & Hk & Ht & Hne & Hv & Hes).
  exists type, r1, r2, r3. repeat split; try assumption.
  - apply (read_value_refines P _ _ arr type
             (readMap_fuel_le P arr fuel fuel' Hle []) r2 _ _ Hv).
    discriminate.
  - apply IH. exact Hes.
Qed.



(* ================================================================== *)
(** ** The cache the collection pass builds *)



Lemma obj_in_false (V : Type) (k : jsstring) (o : list (jsstring * V)) :
  obj_in k o = false -> obj_get k o = None /\ inherited k = false.
Proof.
  unfold obj_in, obj_has_own. intro H. apply orb_false_iff in H.
  destruct H as [H1 H2]. split; [|exact H2].
  destruct (obj_get k o); [discriminate|reflexivity].
Qed.

Lemma collect_cache_indexes (k : jsstring) (st : string_cache * list jsstring) :
  cache_indexes st -> cache_indexes (collect k st).
Proof.
  destruct st as [cache order]. intros [Hl H]. unfold collect.
  destruct (obj_in k cache) eqn:Ein; [split; assumption|].
  apply obj_in_false in Ein. destruct Ein as [Eg _].
  unfold cache_indexes. cbn [fst snd] in *. split.
  - rewrite length_obj_set_new by exact Eg. rewrite length_app. cbn [length]. lia.
  - intro s. destruct (list_eq_dec N.eq_dec s k) as [->|Hne].
    + rewrite obj_get_set_same. split; [lia|].
      rewrite Nat2Z.id, Hl, nth_error_app2 by lia.
      rewrite Nat.sub_diag. reflexivity.
    + rewrite obj_get_set_other by exact Hne. specialize (H s).
      destruct (obj_get s cache) as [i|].
      * destruct H as [H0 Hn]. split; [exact H0|].
        rewrite nth_error_app1; [exact Hn|].
        apply nth_error_Some. congruence.
      * rewrite in_app_iff. cbn [In]. intuition.
Qed.








(* ================================================================== *)
(** ** Reading back what the writer wrote: script strings *)

Lemma write_length_bytes (fuel : nat) (w : BinaryWriter) (len : Z) :
  write_length fuel w len = w ++ length_bytes fuel len.
Proof.
  revert w len. induction fuel as [|fuel IH]; intros w len;
    cbn [write_length length_bytes].
  - symmetry. apply app_nil_r.
  - destruct (Z.shiftr (len mod 2 ^ 32) 7 =? 0); [reflexivity|].
    rewrite IH. unfold writeByte. rewrite <- app_assoc. reflexivity.
Qed.

Lemma land_7f (z : Z) : Z.land z 0x7f = z mod 128.
Proof. change 0x7f with (Z.ones 7). rewrite Z.land_ones by lia. reflexivity. Qed.

Lemma land_ff (z : Z) : Z.land z 0xff = z mod 256.
Proof. change 0xff with (Z.ones 8). rewrite Z.land_ones by lia. reflexivity. Qed.

Lemma lor_80 (g : Z) : 0 <= g < 128 -> Z.lor g 0x80 = g + 128.
Proof.
  intro Hg. rewrite <- Z.lxor_lor, <- Z.add_nocarry_lxor; try reflexivity.
  all: apply Z.bits_inj'; intros n Hn; rewrite Z.land_spec, Z.bits_0;
    change 0x80 with (2 ^ 7); rewrite Z.pow2_bits_eqb by lia;
    destruct (Z.eqb_spec 7 n) as [<-|Hne]; [|apply andb_false_r];
    rewrite andb_true_r;
    rewrite <- (Z.mod_small g (2 ^ 7)) by (change (2 ^ 7) with 128; lia);
    apply Z.mod_pow2_bits_high; lia.
Qed.

(** The last byte of a length: non-negative as a signed byte. *)
Lemma reads_length_last (g : Z) :
  0 <= g < 128 ->
  reads readSignedByte [byte_of_Z (Z.land (Z.land g 0x7f) 0xff)] g.
Proof.
  intro Hg. eapply reads_eq; [apply reads_readSignedByte|reflexivity|].
  rewrite land_7f, land_ff. rewrite (Z.mod_small g 128) by lia.
  rewrite (Z.mod_small g 256) by lia.
  apply wrap_small; [lia|]. change (2 ^ (8 - 1)) with 128. lia.
Qed.

(** A byte with more to come: negative as a signed byte. *)
Lemma reads_length_more (n : Z) :
  reads readSignedByte
    [byte_of_Z (Z.land (Z.lor (Z.land n 0x7f) 0x80) 0xff)] (n mod 128 - 128).
Proof.
  assert (Hg : 0 <= n mod 128 < 128) by (apply Z.mod_pos_bound; lia).
  eapply reads_eq; [apply reads_readSignedByte|reflexivity|].
  rewrite land_7f, lor_80 by exact Hg. rewrite land_ff.
  rewrite (Z.mod_small (n mod 128 + 128) 256) by lia.
  unfold wrap, to_signed. rewrite (Z.mod_small _ (2 ^ 8)) by (change (2 ^ 8) with 256; lia).
  change (2 ^ (8 - 1)) with 128. change (2 ^ 8) with 256.
  destruct (Z.ltb_spec (n mod 128 + 128) 128); lia.
Qed.

Lemma shl32_small (value shift : Z) :
  0 <= shift < 32 -> 0 <= value -> value * 2 ^ shift < 2 ^ 31 ->
  shl32 value shift = value * 2 ^ shift.
Proof.
  intros Hs Hv Hb. unfold shl32. rewrite (Z.mod_small shift 32) by lia.
  apply wrap_small; [lia|]. change (32 - 1) with 31.
  assert (0 < 2 ^ shift) by (apply Z.pow_pos_nonneg; lia).
  assert (0 < 2 ^ 31) by reflexivity. nia.
Qed.

Lemma reads_binary_string_length (fuel : nat) :
  forall (rf : nat) (acc shift n : Z),
    (0 < fuel)%nat -> (length (length_bytes fuel n) <= rf)%nat ->
    0 <= shift < 32 -> 0 <= n ->
    n * 2 ^ shift < 2 ^ 31 -> n < 2 ^ (7 * Z.of_nat fuel) ->
    reads (binary_string_length rf acc shift) (length_bytes fuel n)
          (acc + n * 2 ^ shift).
Proof.
  induction fuel as [|fuel IH]; intros rf acc shift n Hpos Hrf Hs Hn Hb Hf.
  - lia.
  - cbn [length_bytes] in Hrf.
    rewrite (Z.mod_small n (2 ^ 32)) in Hrf
      by (assert (0 < 2 ^ shift) by (apply Z.pow_pos_nonneg; lia);
          assert (2 ^ 31 < 2 ^ 32) by reflexivity; nia).
    rewrite Z.shiftr_div_pow2 in Hrf by lia. change (2 ^ 7) with 128 in Hrf.
    destruct rf as [|rf];
      [destruct (n / 128 =? 0); cbn [length] in Hrf; lia|].
    assert (Hp : 0 < 2 ^ shift) by (apply Z.pow_pos_nonneg; lia).
    assert (H31 : 2 ^ 31 < 2 ^ 32) by reflexivity.
    assert (Hn32 : n < 2 ^ 32) by nia.
    cbn [length_bytes binary_string_length].
    rewrite (Z.mod_small n (2 ^ 32)) by lia.
    rewrite Z.shiftr_div_pow2 by lia. change (2 ^ 7) with 128.
    assert (Hg : 0 <= n mod 128 < 128) by (apply Z.mod_pos_bound; lia).
    pose proof (Z.div_mod n 128 ltac:(lia)) as Hdm.
    assert (Hq : 0 <= n / 128) by (apply Z.div_pos; lia).
    destruct (Z.eqb_spec (n / 128) 0) as [E0|Hne].
    + assert (Hsmall : n mod 128 = n) by lia.
      eapply reads_eq.
      * eapply reads_bind.
        -- apply (reads_length_last n). lia.
        -- cbv beta zeta. rewrite land_7f, Hsmall, Z.eqb_refl. apply reads_ret.
      * reflexivity.
      * rewrite shl32_small by lia. reflexivity.
    + change (byte_of_Z (Z.land (Z.lor (Z.land n 0x7f) 0x80) 0xff)
              :: length_bytes fuel (n / 128))
        with ([byte_of_Z (Z.land (Z.lor (Z.land n 0x7f) 0x80) 0xff)]
              ++ length_bytes fuel (n / 128)).
      eapply reads_eq; [|reflexivity|].
      * eapply reads_bind; [apply reads_length_more|].
        cbv beta zeta. rewrite land_7f.
        replace ((n mod 128 - 128) mod 128) with (n mod 128).
        2:{ apply Z.mod_unique with (q := -1); lia. }
        destruct (Z.eqb_spec (n mod 128 - 128) (n mod 128)) as [Ec|_]; [lia|].
        assert (Hs7 : shift + 7 < 32).
        { destruct (Z_lt_le_dec (shift + 7) 32) as [Hlt|Hge]; [exact Hlt|].
          exfalso. assert (2 ^ 25 <= 2 ^ shift)
            by (apply Z.pow_le_mono_r; lia).
          assert (2 ^ 25 * 128 = 2 ^ 32) by reflexivity. nia. }
        assert (Hpow : 2 ^ (shift + 7) = 2 ^ shift * 128).
        { rewrite Z.pow_add_r by lia. reflexivity. }
        assert (Hlt : n / 128 < 2 ^ (7 * Z.of_nat fuel)).
        { replace (7 * Z.of_nat (S fuel)) with (7 * Z.of_nat fuel + 7) in Hf by lia.
          rewrite Z.pow_add_r in Hf by lia. change (2 ^ 7) with 128 in Hf.
          apply Z.div_lt_upper_bound; lia. }
        apply IH.
        -- destruct fuel as [|fuel']; [|lia].
           change (2 ^ (7 * Z.of_nat 0)) with 1 in Hlt. lia.
        -- destruct (Z.eqb_spec (n / 128) 0) as [E0|_]; [lia|].
           cbn [length] in Hrf. lia.
        -- lia.
        -- exact Hq.
        -- rewrite Hpow. nia.
        -- exact Hlt.
      * assert (Hpow : 2 ^ (shift + 7) = 2 ^ shift * 128).
        { rewrite Z.pow_add_r by lia. reflexivity. }
        rewrite shl32_small; [|lia|lia|nia]. rewrite Hpow. nia.
Qed.

Lemma length_length_bytes (fuel : nat) (n : Z) :
  (length (length_bytes fuel n) <= fuel)%nat.
Proof.
  revert n. induction fuel as [|fuel IH]; intro n; cbn [length_bytes];
    [apply Nat.le_refl|].
  destruct (Z.shiftr (n mod 2 ^ 32) 7 =? 0); cbn [length].
  - lia.
  - specialize (IH (Z.shiftr (n mod 2 ^ 32) 7)). lia.
Qed.

Lemma writeBinaryString_bytes (P : platform) (w : BinaryWriter) (s : jsstring) :
  _writeBinaryString P w s = w ++ binary_string_bytes P s.
Proof.
  unfold _writeBinaryString, binary_string_bytes, writeBytes.
  rewrite write_length_bytes, <- app_assoc. reflexivity.
Qed.

Lemma reads_readBinaryString (P : platform) (s : jsstring) :
  script_ok P s = true ->
  reads (_readBinaryString P) (binary_string_bytes P s) s.
Proof.
  intro H. unfold script_ok in H. apply andb_true_iff in H. destruct H as [Ht Hl].
  apply Nat.eqb_eq in Hl.
  pose proof (text_ok_count P s Ht) as Hc.
  unfold count_ok in Hc. apply Z.ltb_lt in Hc. rewrite Hl in Hc.
  intros r rest Hs. unfold _readBinaryString.
  assert (Hr : reads
    (length <- binary_string_length
                 (S (Z.to_nat (blen (buffer r) - offset r))) 0 0 ;;
     data <- readBytes length ;;
     ret (TextDecoder_decode P data))
    (binary_string_bytes P s) s).
  { unfold binary_string_bytes.
    eapply reads_bind.
    - apply (reads_binary_string_length 5); try lia.
      destruct (length_bytes 5 (Z.of_nat (length s))) as [|b bs] eqn:Eb.
      + cbn [length]. lia.
      + unfold binary_string_bytes in Hs. rewrite Eb in Hs.
          rewrite <- app_assoc in Hs.
          pose proof (at_stream_bound _ _ _ Hs ltac:(discriminate)) as Hbd.
          destruct Hs as [H0 _]. unfold blen in *. lia.
    - cbv beta. change (2 ^ 0) with 1. rewrite Z.add_0_l, Z.mul_1_r.
      rewrite <- Hl. fold (blen (TextEncoder_encode P s)).
      eapply reads_eq.
      + eapply reads_bind; [apply reads_readBytes | apply reads_ret].
      + apply app_nil_r.
      + apply text_ok_decode. exact Ht. }
  exact (Hr r rest Hs).
Qed.

(* ================================================================== *)
(** ** Reading back what the writer wrote: the header *)

Lemma reads_repeatM_map (A X : Type) (m : M A) (f : X -> bytes) (g : X -> A)
    (l : list X) :
  (forall x, In x l -> reads m (f x) (g x)) ->
  reads (repeatM (length l) m) (List.concat (List.map f l)) (List.map g l).
Proof.
  induction l as [|x l IH]; intro H; cbn [length repeatM List.map List.concat].
  - apply reads_ret.
  - eapply reads_bind; [apply H; left; reflexivity|]. cbv beta.
    eapply reads_eq.
    + eapply reads_bind; [apply IH; intros y Hy; apply H; right; exact Hy|].
      apply reads_ret.
    + apply app_nil_r.
    + reflexivity.
Qed.

Lemma write_variant_scripts_bytes (P : platform) (variants : list variant) :
  forall (w : BinaryWriter) (pre rest : list jsstring),
    length rest = length variants ->
    write_variant_scripts P w (pre ++ rest) (length pre) variants
    = w ++ List.concat (List.map (variant_script_bytes P) (combine variants rest)).
Proof.
  induction variants as [|v variants IH]; intros w pre rest Hl;
    cbn [write_variant_scripts].
  - destruct rest; [|discriminate]. symmetry. apply app_nil_r.
  - destruct rest as [|s rest]; [discriminate|]. cbn [length] in Hl.
    injection Hl as Hl.
    assert (Es : script_at (pre ++ s :: rest) (length pre) = s).
    { unfold script_at. rewrite app_nth2 by lia. rewrite Nat.sub_diag. reflexivity. }
    rewrite Es.
    replace (pre ++ s :: rest) with ((pre ++ [s]) ++ rest)
      by (rewrite <- app_assoc; reflexivity).
    replace (S (length pre)) with (length (pre ++ [s]))
      by (rewrite length_app; cbn [length]; lia).
    rewrite IH by exact Hl.
    rewrite writeBinaryString_bytes, writeVariant_bytes.
    cbn [combine List.map List.concat]. unfold variant_script_bytes at 2.
    cbn [fst snd]. rewrite <- !app_assoc. reflexivity.
Qed.

Lemma writeScripts_bytes (P : platform) (general : jsstring)
    (rest : list jsstring) (variants : list variant) :
  length rest = length variants ->
  _writeScripts P (general :: rest) variants
  = pako_gzip P (script_stream_bytes P general rest variants).
Proof.
  intro Hl. unfold _writeScripts, script_stream_bytes, getBuffer.
  change (script_at (general :: rest) 0) with general.
  pose proof (write_variant_scripts_bytes P variants
                (writeInt (_writeBinaryString P new_BinaryWriter general)
                   (Z.of_nat (length variants)))
                [general] rest Hl) as H.
  cbn [app length] in H. rewrite H.
  rewrite writeBinaryString_bytes. unfold writeInt, new_BinaryWriter.
  cbn [app]. rewrite <- !app_assoc. reflexivity.
Qed.

Lemma map_snd_combine (A B : Type) (a : list A) (b : list B) :
  length b = length a -> List.map snd (combine a b) = b.
Proof.
  revert b. induction a as [|x a IH]; intros [|y b] H; cbn in *;
    try discriminate; [reflexivity|].
  f_equal. apply IH. lia.
Qed.



(* ------------------------------------------------------------------ *)
(** *** The control types *)






(* ------------------------------------------------------------------ *)
(** *** The header as a whole *)

Lemma updateInt_patch (a b c : bytes) (v : Z) :
  length b = 4%nat ->
  updateInt (a ++ b ++ c) (length a) v = a ++ le_bytes 4 (wrap 32 v) ++ c.
Proof.
  intro Hb. unfold updateInt.
  rewrite firstn_app, firstn_all, Nat.sub_diag. cbn [firstn].
  rewrite app_nil_r. f_equal. f_equal.
  rewrite skipn_app. rewrite skipn_all2 by lia. cbn [app].
  replace (length a + 4 - length a)%nat with (length b) by lia.
  rewrite skipn_app, skipn_all, Nat.sub_diag. reflexivity.
Qed.





(* ================================================================== *)
(** ** Encoding, then decoding *)








(* ================================================================== *)
(** * Further properties of the bundle *)

(* ================================================================== *)
(** ** How encoding comes back *)

Lemma comes_back_with_bind (A B : Type) (E : error -> Prop) (o : outcome A)
    (f : A -> outcome B) :
  comes_back_with E o -> (forall a, comes_back_with E (f a)) ->
  comes_back_with E (outcome_bind o f).
Proof.
  intros Ho Hf. destruct o as [a|e| |]; cbn [outcome_bind comes_back_with] in *;
    [apply Hf | exact Ho | exact Ho | exact Ho].
Qed.

Lemma writeCachedString_comes_back (P : platform) (w : BinaryWriter)
    (cache : string_cache) (s : option jsstring) :
  comes_back_with is_encode_error (_writeCachedString P w cache s).
Proof.
  unfold _writeCachedString. destruct cache as [|c cache]; [exact I|].
  destruct (obj_get _ _); [exact I|].
  left. eexists. reflexivity.
Qed.

Lemma shorts_bytes_comes_back (E : error -> Prop) (l : list jsval) :
  forallb (fun x => match as_integer x with Some _ => true | None => false end)
    l = true ->
  comes_back_with E (shorts_bytes l).
Proof.
  induction l as [|x l IH]; cbn [shorts_bytes forallb]; intro H; [exact I|].
  apply andb_true_iff in H. destruct H as [Hx Hl].
  destruct (as_integer x); [|discriminate].
  apply comes_back_with_bind; [exact (IH Hl)|]. intro b. exact I.
Qed.

Lemma text_payload_comes_back (E : error -> Prop) (v : jsval) :
  text_payload v = true ->
  comes_back_with E (ToString v) /\ comes_back_with E (encode_argument v).
Proof.
  destruct v; try discriminate; intros _; split; exact I.
Qed.

Lemma write_tagged_payload_comes_back (P : platform) (w : BinaryWriter)
    (val : jsval) :
  payload_plain val = true ->
  comes_back_with is_encode_error (to_int32 (get_prop "ValueType" val))
  /\ comes_back_with is_encode_error
       (write_tagged_payload P w (get_prop "ValueType" val) val).
Proof.
  unfold payload_plain, write_tagged_payload, to_int32. cbv zeta.
  set (type := get_prop "ValueType" val).
  set (value := get_prop "Value" val).
  assert (Hn : forall k, as_integer type = None -> is_number k type = false).
  { intros k E. unfold is_number. rewrite E. reflexivity. }
  intro H.
  destruct (as_integer type) as [z|] eqn:Ez.
  - assert (Hpay :
      (if is_number CSTRING type then text_payload value
       else if is_number CFLOAT type then float_payload value
       else if is_number CCOLOR type then text_payload value
       else if is_number RECT32 type then shorts_payload value
       else true) = true).
    { destruct type; try discriminate Ez; exact H. }
    split; [destruct type; try discriminate Ez; exact I|].
    destruct (is_number CSTRING type).
    { apply comes_back_with_bind; [|intro; exact I].
      apply text_payload_comes_back. exact Hpay. }
    destruct (is_number CFLOAT type).
    { unfold float_payload in Hpay. destruct value; try discriminate Hpay.
      apply negb_true_iff in Hpay. rewrite Hpay. exact I. }
    destruct (is_number CCOLOR type).
    { apply comes_back_with_bind; [|intro; exact I].
      apply text_payload_comes_back. exact Hpay. }
    destruct (is_number RECT32 type); [|exact I].
    apply comes_back_with_bind; [|intro; exact I].
    unfold _shortsToBytes, shorts_payload in *.
    destruct value; try discriminate Hpay;
      try (right; right; reflexivity).
    apply shorts_bytes_comes_back. exact Hpay.
  - rewrite !Hn by reflexivity.
    split; [|exact I].
    destruct type; try discriminate H; try exact I;
      cbn [as_integer] in Ez; rewrite Ez in H; discriminate H.
Qed.

Lemma write_entry_comes_back (P : platform) (toBil : bool)
    (cache : string_cache)
    (nested : BinaryWriter -> outcome BinaryWriter) (k : jsstring)
    (val : jsval) (w : BinaryWriter) :
  payload_plain val = true ->
  (forall w', comes_back_with is_encode_error (nested w')) ->
  comes_back_with is_encode_error (write_entry P toBil cache nested k val w).
Proof.
  intros Hp Hn. unfold write_entry. cbv zeta.
  destruct (toBil && is_object val && _); [exact I|].
  apply comes_back_with_bind; [apply writeCachedString_comes_back|]. intro w1.
  destruct (is_object val).
  - destruct (negb _).
    + apply comes_back_with_bind.
      * apply (write_tagged_payload_comes_back P w1 val Hp).
      * intro b. apply (write_tagged_payload_comes_back P _ val Hp).
    + apply comes_back_with_bind; [apply Hn|]. intro w2. exact I.
  - destruct (as_integer val); [exact I|].
    destruct val; try exact I; try (right; left; reflexivity).
    apply writeCachedString_comes_back.
Qed.

Lemma writeMap_comes_back (P : platform) (toBil : bool) (cache : string_cache)
    (m : jsval) :
  plain_payloads m = true ->
  forall w, comes_back_with is_encode_error (_writeMap P toBil w m cache).
Proof.
  induction m as [| | | | | |items IH|props IH] using jsval_induction;
    intros Hm w; try exact I.
  - cbn [_writeMap]. cbn [plain_payloads] in Hm. generalize 0%nat as i.
    revert w.
    induction IH as [|x items Hx _ IHl]; intros w i; cbn [write_items];
      [exact I|].
    cbn [forallb] in Hm. apply andb_true_iff in Hm. destruct Hm as [Hx' Hm].
    apply andb_true_iff in Hx'. destruct Hx' as [Hpx Hpl].
    apply comes_back_with_bind;
      [apply write_entry_comes_back; [exact Hpx | exact (Hx Hpl)]|].
    intro w1. apply IHl. exact Hm.
  - cbn [_writeMap]. cbn [plain_payloads] in Hm. revert w.
    induction IH as [|[k x] props Hx _ IHl]; intro w; cbn [write_entries];
      [exact I|].
    cbn [forallb snd] in Hm. apply andb_true_iff in Hm. destruct Hm as [Hx' Hm].
    apply andb_true_iff in Hx'. destruct Hx' as [Hpx Hpl].
    apply comes_back_with_bind;
      [apply write_entry_comes_back; [exact Hpx | exact (Hx Hpl)]|].
    intro w1. apply IHl. exact Hm.
Qed.

Lemma write_control_headers_comes_back (P : platform) (cache : string_cache)
    (cs : list control_header) :
  forall w,
    comes_back_with is_encode_error (write_control_headers P cache w cs).
Proof.
  induction cs as [|c cs IH]; intro w; cbn [write_control_headers];
    [exact I|].
  apply comes_back_with_bind; [|intro; apply IH].
  unfold write_control_header.
  apply comes_back_with_bind; [apply writeCachedString_comes_back|]. intro w1.
  apply comes_back_with_bind; [apply writeCachedString_comes_back|]. intro w2.
  apply writeCachedString_comes_back.
Qed.

(** X29.  How encoding comes back.  Take a document in which every value
    of the body, at any depth, that carries a type code has a payload the
    encoder takes without a coercion: the code is an integer, null or a
    boolean; the payload of a String or Color code is a string, undefined,
    null or a boolean; that of a Float code is a float that is not NaN;
    that of a Rect code is an array of integers, or is missing.  Encoding
    such a document returns bytes, or throws one of three errors: the
    cache-miss error of a string without an index in a cache that is not
    empty, the error of an unsupported value type, or the TypeError of a
    Rect value without an array. *)
Theorem encode_errors (P : platform) (toBil : bool) (d : design) :
  plain_payloads (JObject (Data d)) = true ->
  (exists b, convertJsonToBjlToBytes P toBil d = Ok b)
  \/ (exists e,
        convertJsonToBjlToBytes P toBil d = Throw e
        /\ ((exists s, e = CacheMiss s)
            \/ e = UnsupportedValueType \/ e = TypeError)).
Proof.
  intro Hd.
  assert (H : comes_back_with is_encode_error
                (convertJsonToBjlToBytes P toBil d)).
  { unfold convertJsonToBjlToBytes.
    apply comes_back_with_bind.
    { unfold _writeLayoutHeader. cbv zeta.
      apply comes_back_with_bind; [apply write_control_headers_comes_back|].
      intro tw. exact I. }
    intro w. apply comes_back_with_bind; [|intro; exact I].
    unfold _writeAllLayout.
    destruct (_collectStringsInOrder (JObject (Data d)) ([], []))
      as [cache order].
    apply comes_back_with_bind; [|intro; exact I].
    apply writeMap_comes_back. exact Hd. }
  destruct (convertJsonToBjlToBytes P toBil d) as [b|e| |];
    cbn [comes_back_with] in H; try contradiction.
  - left. exists b. reflexivity.
  - right. exists e. split; [reflexivity | exact H].
Qed.

(* ================================================================== *)
(** ** BinaryWriter against BinaryReader *)

Lemma reads_readByte (z : Z) : reads readByte [byte_of_Z z] (z mod 256).
Proof.
  intros r rest H. unfold readByte, getUint8.
  pose proof (at_stream_view _ _ _ H) as Hv.
  pose proof (at_stream_in_view _ _ _ H ltac:(discriminate)) as Hi.
  cbn [length] in Hv. change (blen [byte_of_Z z]) with 1 in Hi.
  rewrite Hi, Hv. cbn [le_unsigned of_view].
  rewrite Z_of_byte_of_Z, Z.add_0_r.
  eexists. split; [reflexivity|].
  exact (at_stream_advance _ _ _ (rewound r) H).
Qed.

Lemma wrap_mod (w v : Z) : 0 < w -> wrap w (v mod 2 ^ w) = wrap w v.
Proof.
  intro Hw. unfold wrap. rewrite Z.mod_mod; [reflexivity|].
  apply Z.pow_nonzero; lia.
Qed.

(** X1.  What the writer stores the reader returns: [writeInt(v)] appends
    four bytes that [readInt] reads as [v | 0], [writeByte(v)] appends one
    byte that [readByte] reads as [v & 0xff] and [readSignedByte] as the
    signed value of these eight bits, and [writeFloat] appends the four
    bytes of the pattern, which [readFloat] returns. *)
Theorem writer_reader_roundtrip (w : BinaryWriter) (v : Z) :
  (exists bs, writeInt w v = w ++ bs /\ length bs = 4%nat
              /\ reads readInt bs (wrap 32 v))
  /\ (exists b, writeByte w v = w ++ [b]
                /\ reads readByte [b] (v mod 256)
                /\ reads readSignedByte [b] (wrap 8 v))
  /\ (exists bs, writeFloat w v = w ++ bs /\ length bs = 4%nat
                 /\ reads readFloat bs (v mod 2 ^ 32)).
Proof.
  split; [|split].
  - exists (le_bytes 4 (wrap 32 v)). split; [reflexivity|].
    split; [apply length_le_bytes|].
    eapply reads_eq; [apply reads_readInt|reflexivity|].
    apply wrap_wrap. lia.
  - exists (byte_of_Z (Z.land v 0xff)). split; [reflexivity|].
    rewrite land_ff. split.
    + eapply reads_eq; [apply reads_readByte|reflexivity|].
      apply Z.mod_mod. lia.
    + eapply reads_eq; [apply reads_readSignedByte|reflexivity|].
      change 256 with (2 ^ 8). apply wrap_mod. lia.
  - exists (le_bytes 4 v). split; [reflexivity|].
    split; [apply length_le_bytes|]. apply reads_readFloat.
Qed.

Lemma split_at_four (w : bytes) (off : nat) :
  (off + 4 <= length w)%nat ->
  exists a b c, w = a ++ b ++ c /\ length a = off /\ length b = 4%nat.
Proof.
  intro H. exists (firstn off w), (firstn 4 (skipn off w)), (skipn 4 (skipn off w)).
  rewrite !firstn_skipn. split; [reflexivity|].
  rewrite !length_firstn, length_skipn. lia.
Qed.

(** X2.  [updateInt(offset, v)] over four bytes already written changes
    these four bytes only: the number of bytes and the bytes before and
    behind them are kept, and the int at [offset] is then [v | 0]. *)
Theorem updateInt_patches_four_bytes (w : BinaryWriter) (off : nat) (v : Z) :
  (off + 4 <= length w)%nat ->
  length (updateInt w off v) = length w
  /\ firstn off (updateInt w off v) = firstn off w
  /\ skipn (off + 4) (updateInt w off v) = skipn (off + 4) w
  /\ getInt32 (updateInt w off v) (Z.of_nat off) = Some (wrap 32 v).
Proof.
  intro H. destruct (split_at_four w off H) as (a & b & c & -> & <- & Hb).
  rewrite updateInt_patch by exact Hb.
  assert (Hf : forall x : bytes, firstn (length a) (a ++ x) = a).
  { intro x. rewrite firstn_app, firstn_all, Nat.sub_diag. cbn [firstn].
    apply app_nil_r. }
  assert (Hs : forall x : bytes, length x = 4%nat ->
                 skipn (length a + 4) (a ++ x ++ c) = c).
  { intros x Hx. rewrite skipn_app, skipn_all2 by lia. cbn [app].
    replace (length a + 4 - length a)%nat with (length x) by lia.
    rewrite skipn_app, skipn_all, Nat.sub_diag. reflexivity. }
  split; [|split; [|split]].
  - rewrite !length_app, length_le_bytes, Hb. reflexivity.
  - rewrite !Hf. reflexivity.
  - rewrite (Hs _ (length_le_bytes 4 _)), (Hs _ Hb). reflexivity.
  - assert (Hst : at_stream (mkReader (a ++ le_bytes 4 (wrap 32 v) ++ c)
                               (Z.of_nat (length a)) false)
                    (le_bytes 4 (wrap 32 v) ++ c)).
    { split; cbn [offset buffer]; [lia|].
      rewrite Nat2Z.id, skipn_app, skipn_all, Nat.sub_diag. reflexivity. }
    destruct (reads_readInt (wrap 32 v) _ _ Hst) as (r' & E & _).
    unfold readInt in E. cbn [buffer offset] in E.
    destruct (getInt32 (a ++ le_bytes 4 (wrap 32 v) ++ c) (Z.of_nat (length a)))
      as [x|]; [|discriminate].
    injection E as E _. rewrite E. rewrite wrap_wrap by lia. reflexivity.
Qed.

(* ================================================================== *)
(** ** Strings, string tables and cache references *)

(** X3.  A string that the text codec carries through is written as the
    four bytes of its encoded length followed by the encoded bytes, and
    [_readString] reads these bytes as the string. *)
Theorem string_roundtrip (P : platform) (w : BinaryWriter) (s : jsstring) :
  text_ok P s = true ->
  exists bs,
    _writeString P w s = w ++ bs
    /\ length bs = (4 + length (TextEncoder_encode P s))%nat
    /\ reads (_readString P) bs s.
Proof.
  intro H. exists (string_bytes P s). split; [apply writeString_bytes|].
  split.
  - unfold string_bytes. rewrite length_app, length_le_bytes. reflexivity.
  - apply reads_readString. exact H.
Qed.

(** X4.  The string table: [_writeStringsCacheInOrder] writes the number
    of strings and the strings, and [_loadStringsCache] reads the list
    back, in the same order, when the text codec carries the strings
    through and their number fits an int. *)
Theorem strings_cache_roundtrip (P : platform) (w : BinaryWriter)
    (order : list jsstring) :
  count_ok (length order) = true ->
  forallb (text_ok P) order = true ->
  exists bs,
    _writeStringsCacheInOrder P w order = w ++ bs
    /\ reads (_loadStringsCache P) bs order.
Proof.
  intros Hc Ht. exists (table_bytes P order). split.
  - unfold _writeStringsCacheInOrder, table_bytes, writeInt.
    rewrite fold_writeString, <- app_assoc. reflexivity.
  - apply reads_loadStringsCache; assumption.
Qed.

Lemma cache_at_none (cache : list jsstring) (i : Z) :
  cache_at cache i = None <-> i < 0 \/ Z.of_nat (length cache) <= i.
Proof.
  unfold cache_at. destruct (Z.ltb_spec i 0) as [Hneg|Hpos].
  - split; [left; exact Hneg | reflexivity].
  - rewrite nth_error_None. lia.
Qed.

(** X7.  An entry whose key is a reference outside the cache is stored
    under the property name "undefined": the key of [map[key] = value] is
    then the value undefined, which names that property. *)
Theorem entry_with_a_key_outside_the_cache (P : platform) (arr : list jsstring)
    (i v : Z) :
  platform_ok P ->
  arr <> [] ->
  int32 i = true -> i < 0 \/ Z.of_nat (length arr) <= i ->
  int32 v = true ->
  reads (_readMap P 2 arr [])
        ((le_bytes 4 (wrap 32 i) ++ [byte_of_Z (Z.land CINT 0xff)]
          ++ le_bytes 4 (wrap 32 v) ++ [])
         ++ sentinel P)
        [(str "undefined", JInt v)].
Proof.
  intros HP Hne Hi Hout Hv.
  apply (reads_map_of_wire P 0 arr _ [(None, JInt v)] _ HP); [|reflexivity].
  apply (wire_reads_cons P 0 arr (le_bytes 4 (wrap 32 i))
           (le_bytes 4 (wrap 32 v)) [] None CINT (JInt v) []).
  - destruct arr as [|a arr]; [congruence|]. unfold _readCachedString.
    eapply reads_eq.
    + eapply reads_bind; [apply reads_int; exact Hi | apply reads_ret].
    + apply app_nil_r.
    + apply cache_at_none. exact Hout.
  - unfold CINT. lia.
  - discriminate.
  - rewrite read_value_CINT.
    apply (reads_one _ readInt (le_bytes 4 (wrap 32 v)) v _
             (fun x => Some (JInt x))).
    apply reads_int. exact Hv.
  - apply wire_reads_nil.
Qed.

(* ================================================================== *)
(** ** Script strings *)

Lemma length_bytes_nonempty (fuel : nat) (n : Z) :
  (1 <= length (length_bytes (S fuel) n))%nat.
Proof.
  cbn [length_bytes]. destruct (Z.shiftr (n mod 2 ^ 32) 7 =? 0); cbn [length]; lia.
Qed.

(** X8.  The length prefix of a script string: for a length below 2^31
    the loop of [_writeBinaryString] writes one to five bytes, one byte
    for a length below 128, and the loop of [_readBinaryString] reads
    the length back from them. *)
Theorem length_prefix_roundtrip (w : BinaryWriter) (n : Z) :
  0 <= n < 2 ^ 31 ->
  exists bs,
    write_length 5 w n = w ++ bs
    /\ (1 <= length bs <= 5)%nat
    /\ (n < 128 -> length bs = 1%nat)
    /\ forall rf, (length bs <= rf)%nat ->
         reads (binary_string_length rf 0 0) bs n.
Proof.
  intro Hn. exists (length_bytes 5 n). split; [apply write_length_bytes|].
  split; [split; [apply length_bytes_nonempty | apply length_length_bytes]|].
  split.
  - intro Hs. cbn [length_bytes].
    rewrite (Z.mod_small n (2 ^ 32))
      by (assert (2 ^ 31 < 2 ^ 32) by reflexivity; lia).
    rewrite Z.shiftr_div_pow2 by lia. change (2 ^ 7) with 128.
    rewrite Z.div_small by lia. reflexivity.
  - intros rf Hrf. eapply reads_eq.
    + apply (reads_binary_string_length 5 rf 0 0 n); lia.
    + reflexivity.
    + change (2 ^ 0) with 1. lia.
Qed.

Lemma reads_binary_string (P : platform) (n : Z) (a : bytes) :
  0 <= n < 2 ^ 31 -> Z.of_nat (length a) = n ->
  reads (_readBinaryString P) (length_bytes 5 n ++ a) (TextDecoder_decode P a).
Proof.
  intros Hn Ha r rest Hs. unfold _readBinaryString.
  assert (Hr : reads
    (length <- binary_string_length
                 (S (Z.to_nat (blen (buffer r) - offset r))) 0 0 ;;
     data <- readBytes length ;;
     ret (TextDecoder_decode P data))
    (length_bytes 5 n ++ a) (TextDecoder_decode P a)).
  { eapply reads_bind.
    - apply (reads_binary_string_length 5); try lia.
      + pose proof (length_bytes_nonempty 4 n) as Hne.
        pose proof (at_stream_bound r (length_bytes 5 n) (a ++ rest)) as Hbd.
        rewrite <- app_assoc in Hs. specialize (Hbd Hs).
        assert (Hnn : length_bytes 5 n <> []).
        { intro E. rewrite E in Hne. cbn in Hne. lia. }
        specialize (Hbd Hnn). destruct Hs as [H0 _]. unfold blen in *. lia.
    - cbv beta. change (2 ^ 0) with 1. rewrite Z.add_0_l, Z.mul_1_r.
      rewrite <- Ha. fold (blen a).
      eapply reads_eq.
      + eapply reads_bind; [apply reads_readBytes | apply reads_ret].
      + apply app_nil_r.
      + reflexivity. }
  exact (Hr r rest Hs).
Qed.

(** X9.  The length of a script string counts code units, not bytes:
    [_writeBinaryString] writes the prefix of [s.length] and all bytes of
    the encoding, and [_readBinaryString] takes [s.length] bytes behind the
    prefix.  When the encoding is longer than the string, the bytes [b]
    beyond that number stay in the stream and the reader returns the
    decoding of the first part only. *)
Theorem binary_string_counts_code_units (P : platform) (s : jsstring)
    (a b : bytes) :
  Z.of_nat (length s) < 2 ^ 31 ->
  TextEncoder_encode P s = a ++ b ->
  length a = length s ->
  exists bs,
    (forall w, _writeBinaryString P w s = w ++ bs ++ b)
    /\ reads (_readBinaryString P) bs (TextDecoder_decode P a).
Proof.
  intros Hn He Hl. exists (length_bytes 5 (Z.of_nat (length s)) ++ a). split.
  - intro w. rewrite writeBinaryString_bytes. unfold binary_string_bytes.
    rewrite He, <- !app_assoc. reflexivity.
  - apply reads_binary_string; lia.
Qed.

(* ------------------------------------------------------------------ *)
(** *** The script reader comes back *)

Lemma settles_at_bind (A B : Type) (E : error -> Prop) (m : M A) (f : A -> M B)
    (r : BinaryReader) :
  settles_at E m r ->
  (forall a r1, m r = (Ok a, r1) -> settles_at E (f a) r1) ->
  settles_at E (bind m f) r.
Proof.
  unfold settles_at, bind. intros Hm Hf.
  destruct (m r) as [o r1] eqn:Em. cbn [fst] in Hm.
  destruct o as [a|e| |]; cbn [fst]; try assumption; try contradiction.
  exact (Hf a r1 eq_refl).
Qed.

Lemma settles_at_ret (A : Type) (E : error -> Prop) (a : A) (r : BinaryReader) :
  settles_at E (ret a) r.
Proof. exact I. Qed.

Lemma settles_at_readInt (r : BinaryReader) : settles_at is_RangeError readInt r.
Proof.
  unfold settles_at, readInt. destruct (getInt32 _ _); cbn; [exact I|reflexivity].
Qed.

Lemma settles_at_readFloat (r : BinaryReader) :
  settles_at is_RangeError readFloat r.
Proof.
  unfold settles_at, readFloat. destruct (getFloat32 _ _); cbn;
    [exact I|reflexivity].
Qed.

Lemma settles_at_readSignedByte (r : BinaryReader) :
  settles_at is_RangeError readSignedByte r.
Proof.
  unfold settles_at, readSignedByte. cbn [fst].
  destruct (getInt8 _ _); cbn; [exact I|reflexivity].
Qed.

Lemma settles_at_readBytes (E : error -> Prop) (len : Z) (r : BinaryReader) :
  settles_at E (readBytes len) r.
Proof. exact I. Qed.

Lemma settles_at_repeatM (A : Type) (E : error -> Prop) (m : M A) (n : nat) :
  (forall r, settles_at E m r) -> forall r, settles_at E (repeatM n m) r.
Proof.
  intro Hm. induction n as [|n IH]; intro r; cbn [repeatM].
  - exact I.
  - apply settles_at_bind; [apply Hm|]. intros a r1 _.
    apply settles_at_bind; [apply IH|]. intros l r2 _. exact I.
Qed.

Lemma readSignedByte_ok (r r1 : BinaryReader) (b : Z) :
  readSignedByte r = (Ok b, r1) ->
  0 <= offset r /\ offset r + 1 <= blen (buffer r)
  /\ buffer r1 = buffer r /\ offset r1 = offset r + 1
  /\ rewound r1 = rewound r.
Proof.
  unfold readSignedByte, getInt8, in_view. intro H.
  destruct (0 <=? offset r) eqn:E0; [|discriminate].
  destruct (offset r + 1 <=? blen (buffer r)) eqn:E1; [|discriminate].
  cbn in H. injection H as _ <-. apply Z.leb_le in E0, E1.
  repeat split; assumption.
Qed.

(** The loop of [_readBinaryString] ends: every round reads one byte
    inside the buffer. *)
Lemma binary_string_length_settles (fuel : nat) :
  forall (r : BinaryReader) (acc shift : Z),
    (Z.to_nat (blen (buffer r) - offset r) < fuel)%nat ->
    settles_at is_RangeError (binary_string_length fuel acc shift) r.
Proof.
  induction fuel as [|fuel IH]; intros r acc shift Hf; [lia|].
  cbn [binary_string_length]. apply settles_at_bind;
    [apply settles_at_readSignedByte|].
  intros b r1 Hb. cbv zeta.
  destruct (b =? Z.land b 127); [exact I|].
  apply readSignedByte_ok in Hb. destruct Hb as (H0 & H1 & Hbuf & Hoff & _).
  apply IH. rewrite Hbuf, Hoff. lia.
Qed.

Lemma readBinaryString_settles (P : platform) (r : BinaryReader) :
  settles_at is_RangeError (_readBinaryString P) r.
Proof.
  unfold settles_at, _readBinaryString.
  change (settles_at is_RangeError
            (length <- binary_string_length
                         (S (Z.to_nat (blen (buffer r) - offset r))) 0 0 ;;
             data <- readBytes length ;;
             ret (TextDecoder_decode P data)) r).
  apply settles_at_bind; [apply binary_string_length_settles; lia|].
  intros len r1 _. apply settles_at_bind; [exact I|]. intros d r2 _. exact I.
Qed.

Lemma readVariant_settles (r : BinaryReader) :
  settles_at is_RangeError _readVariantFromStream r.
Proof.
  unfold _readVariantFromStream.
  apply settles_at_bind; [apply settles_at_readFloat|]. intros s r1 _.
  apply settles_at_bind; [apply settles_at_readInt|]. intros w r2 _.
  apply settles_at_bind; [apply settles_at_readInt|]. intros h r3 _.
  exact I.
Qed.

Lemma read_script_stream_settles (P : platform) (r : BinaryReader) :
  settles_at is_RangeError (read_script_stream P) r.
Proof.
  unfold read_script_stream.
  apply settles_at_bind; [apply readBinaryString_settles|]. intros g r1 _.
  apply settles_at_bind; [apply settles_at_readInt|]. intros n r2 _.
  apply settles_at_bind; [|intros l r3 _; exact I].
  apply settles_at_repeatM. intro r'.
  apply settles_at_bind; [apply readVariant_settles|]. intros v r4 _.
  apply readBinaryString_settles.
Qed.

(** X10.  The script section is read in bounded time and its failures
    stay inside: the length loop of [_readBinaryString] ends, because every
    round reads a byte that lies inside the buffer, so [_readBinaryString]
    returns or throws a RangeError; and [_readScripts] returns a list of
    scripts whenever its length field can be read, and otherwise throws
    the RangeError of that read. *)
Theorem script_reader_comes_back (P : platform) (r : BinaryReader) :
  settles_at is_RangeError (_readBinaryString P) r
  /\ ((exists scripts r', _readScripts P r = (Ok scripts, r'))
      \/ (fst (_readScripts P r) = Throw RangeError
          /\ fst (readInt r) = Throw RangeError)).
Proof.
  split; [apply readBinaryString_settles|].
  pose proof (settles_at_readInt r) as Hi. unfold settles_at in Hi.
  unfold _readScripts, bind.
  destruct (readInt r) as [o r1] eqn:Er. cbn [fst] in Hi.
  destruct o as [len|e| |]; try contradiction.
  - left. unfold readBytes. cbn [fst snd].
    destruct (pako_ungzip P _) as [d|]; [|eexists; eexists; reflexivity].
    pose proof (read_script_stream_settles P (new_BinaryReader d)) as Hs.
    unfold settles_at in Hs.
    destruct (fst (read_script_stream P (new_BinaryReader d)));
      try contradiction; eexists; eexists; reflexivity.
  - right. unfold is_RangeError in Hi. subst e. split; reflexivity.
Qed.

(* ================================================================== *)
(** ** The script block *)

Lemma write_variant_scripts_agree (P : platform) (variants : list variant) :
  forall (w : BinaryWriter) (scripts scripts' : list jsstring) (i : nat),
    (forall j, (i <= j < i + length variants)%nat ->
               script_at scripts j = script_at scripts' j) ->
    write_variant_scripts P w scripts i variants
    = write_variant_scripts P w scripts' i variants.
Proof.
  induction variants as [|v variants IH]; intros w scripts scripts' i H;
    cbn [write_variant_scripts]; [reflexivity|].
  rewrite (H i) by (cbn [length]; lia).
  apply IH. intros j Hj. apply H. cbn [length]. lia.
Qed.

(** The scripts the writer takes: one for the layout and one for every
    variant, the empty string where the list has none. *)
Lemma script_at_padded (scripts : list jsstring) (n j : nat) :
  (j <= n)%nat ->
  script_at (List.map (script_at scripts) (seq 0 (S n))) j
  = script_at scripts j.
Proof.
  intro Hj. unfold script_at at 1.
  rewrite (@nth_indep _ (List.map (script_at scripts) (seq 0 (S n))) j []
             (script_at scripts 0%nat))
    by (rewrite length_map, length_seq; lia).
  rewrite (map_nth (script_at scripts) (seq 0 (S n)) 0%nat j).
  rewrite seq_nth by lia. reflexivity.
Qed.

Lemma writeScripts_padded (P : platform) (scripts : list jsstring)
    (variants : list variant) :
  _writeScripts P scripts variants
  = _writeScripts P
      (List.map (script_at scripts) (seq 0 (S (length variants)))) variants.
Proof.
  unfold _writeScripts. cbv zeta.
  rewrite (script_at_padded scripts (length variants) 0) by lia.
  f_equal. unfold getBuffer.
  apply write_variant_scripts_agree. intros j Hj.
  symmetry. apply script_at_padded. lia.
Qed.

Lemma reads_variant_bytes (v : variant) :
  0 <= Scale v < 2 ^ 32 ->
  exists v', reads _readVariantFromStream (variant_bytes v) v'.
Proof.
  intro Hs. eexists. unfold _readVariantFromStream, variant_bytes.
  eapply reads_bind; [apply reads_readFloat|]. cbv beta.
  eapply reads_bind; [apply reads_readInt|]. cbv beta.
  eapply reads_eq.
  - eapply reads_bind; [apply reads_readInt | apply reads_ret].
  - apply app_nil_r.
  - reflexivity.
Qed.

Lemma reads_script_stream_any (P : platform) (general : jsstring)
    (rest : list jsstring) (variants : list variant) :
  length rest = length variants ->
  count_ok (length variants) = true ->
  Forall (fun v => 0 <= Scale v < 2 ^ 32) variants ->
  forallb (script_ok P) (general :: rest) = true ->
  reads (read_script_stream P) (script_stream_bytes P general rest variants)
        (general :: rest).
Proof.
  intros Hl Hc Hv Hs. cbn [forallb] in Hs. apply andb_true_iff in Hs.
  destruct Hs as [Hg Hr].
  unfold read_script_stream, script_stream_bytes.
  eapply reads_bind; [apply reads_readBinaryString; exact Hg|]. cbv beta.
  eapply reads_bind; [apply reads_count; exact Hc|]. cbv beta.
  rewrite Nat2Z.id.
  eapply reads_eq.
  - eapply reads_bind; [|apply reads_ret].
    replace (length variants) with (length (combine variants rest))
      by (rewrite length_combine; lia).
    apply (reads_repeatM_map _ _
             (bind _readVariantFromStream (fun _ => _readBinaryString P))
             (variant_script_bytes P) snd).
    intros [v s] Hin. unfold variant_script_bytes. cbn [fst snd].
    pose proof (in_combine_l _ _ _ _ Hin) as Hvin.
    pose proof (in_combine_r _ _ _ _ Hin) as Hsin.
    rewrite Forall_forall in Hv. rewrite forallb_forall in Hr.
    destruct (reads_variant_bytes v (Hv v Hvin)) as (v' & Hv').
    eapply reads_bind; [exact Hv'|].
    apply reads_readBinaryString. apply Hr. exact Hsin.
  - apply app_nil_r.
  - rewrite map_snd_combine by exact Hl. reflexivity.
Qed.

(** X27.  The script block holds one script for the layout and one for
    every variant, whatever the list of scripts of the document holds:
    [_writeScripts] writes the empty string where the list has no script
    and leaves out the scripts beyond the last variant, and
    [_readScripts] reads back exactly these scripts, when the text codec
    carries them through with one byte for a code unit. *)
Theorem script_block_roundtrip (P : platform) (scripts : list jsstring)
    (variants : list variant) :
  platform_ok P ->
  count_ok (length variants) = true ->
  Forall (fun v => 0 <= Scale v < 2 ^ 32) variants ->
  (forall j, (j <= length variants)%nat ->
             script_ok P (script_at scripts j) = true) ->
  count_ok (length (_writeScripts P scripts variants)) = true ->
  reads (_readScripts P)
        (le_bytes 4 (wrap 32 (blen (_writeScripts P scripts variants)))
         ++ _writeScripts P scripts variants)
        (List.map (script_at scripts) (seq 0 (S (length variants)))).
Proof.
  intros [_ Hz] Hc Hv Hs Hsb.
  rewrite writeScripts_padded in *.
  set (padded := List.map (script_at scripts) (seq 0 (S (length variants)))) in *.
  assert (Hlen : length padded = S (length variants))
    by (unfold padded; rewrite length_map, length_seq; reflexivity).
  assert (Hok : forallb (script_ok P) padded = true).
  { apply forallb_forall. intros s Hin. unfold padded in Hin.
    apply in_map_iff in Hin. destruct Hin as (j & <- & Hj).
    apply in_seq in Hj. apply Hs. lia. }
  destruct padded as [|general rest]; [discriminate|].
  cbn [length] in Hlen. injection Hlen as Hl.
  pose proof (reads_script_stream_any P general rest variants Hl Hc Hv Hok)
    as Hst.
  unfold _readScripts.
  eapply reads_bind; [apply reads_count; exact Hsb|]. cbv beta.
  fold (blen (_writeScripts P (general :: rest) variants)).
  eapply reads_eq; [|apply app_nil_r|reflexivity].
  eapply reads_bind; [apply reads_readBytes|]. cbv beta.
  rewrite writeScripts_bytes by exact Hl. rewrite Hz.
  destruct (Hst (new_BinaryReader (script_stream_bytes P general rest variants)) [])
    as (r' & E & _).
  { rewrite app_nil_r. apply at_stream_new. }
  rewrite E. cbn [fst]. apply reads_ret.
Qed.

(* ================================================================== *)
(** ** What decoding throws *)

Lemma settles_throws (A : Type) (E : error -> Prop) (m : M A) (r : BinaryReader) :
  settles_at E m r -> throws_at E m r.
Proof.
  unfold settles_at, throws_at. intros H e He. rewrite He in H. exact H.
Qed.

Lemma throws_at_bind (A B : Type) (E : error -> Prop) (m : M A) (f : A -> M B)
    (r : BinaryReader) :
  throws_at E m r ->
  (forall a r1, m r = (Ok a, r1) -> throws_at E (f a) r1) ->
  throws_at E (bind m f) r.
Proof.
  unfold throws_at, bind. intros Hm Hf e.
  destruct (m r) as [o r1] eqn:Em. cbn [fst] in Hm.
  destruct o as [a|e'| |]; cbn [fst]; try discriminate.
  - exact (Hf a r1 eq_refl e).
  - intro He. injection He as <-. apply Hm. reflexivity.
Qed.

Lemma throws_at_weaken (A : Type) (E E' : error -> Prop) (m : M A)
    (r : BinaryReader) :
  (forall e, E e -> E' e) -> throws_at E m r -> throws_at E' m r.
Proof. intros HE H e He. apply HE, H, He. Qed.

Lemma readString_settles (P : platform) (r : BinaryReader) :
  settles_at is_RangeError (_readString P) r.
Proof.
  unfold _readString.
  apply settles_at_bind; [apply settles_at_readInt|]. intros len r1 _.
  apply settles_at_bind; [exact I|]. intros d r2 _. exact I.
Qed.

Lemma loadStringsCache_settles (P : platform) (r : BinaryReader) :
  settles_at is_RangeError (_loadStringsCache P) r.
Proof.
  unfold _loadStringsCache.
  apply settles_at_bind; [apply settles_at_readInt|]. intros count r1 _.
  destruct (count <? 0); [reflexivity|].
  apply settles_at_repeatM. apply readString_settles.
Qed.

Lemma bind_ok_inv (A B : Type) (m : M A) (f : A -> M B)
    (r r' : BinaryReader) (b : B) :
  bind m f r = (Ok b, r') ->
  exists a r1, m r = (Ok a, r1) /\ f a r1 = (Ok b, r').
Proof.
  unfold bind. destruct (m r) as [o r1]. destruct o as [a|e| |];
    intro H; try discriminate.
  exists a, r1. split; [reflexivity|exact H].
Qed.

Lemma repeatM_length (A : Type) (m : M A) (n : nat) :
  forall (r r' : BinaryReader) (l : list A),
    repeatM n m r = (Ok l, r') -> length l = n.
Proof.
  induction n as [|n IH]; intros r r' l H; cbn [repeatM] in H.
  - injection H as <- _. reflexivity.
  - apply bind_ok_inv in H. destruct H as (x & r1 & _ & H).
    apply bind_ok_inv in H. destruct H as (xs & r2 & Hxs & H).
    injection H as <- _. cbn [length]. f_equal. exact (IH _ _ _ Hxs).
Qed.

(** X5.  The string table comes back with as many strings as its count
    says, or not at all: [_loadStringsCache] returns a list of exactly
    [count] strings or throws a RangeError, and a negative count is
    refused as soon as it was read ([new Array(count)]). *)
Theorem strings_cache_outcome (P : platform) (r : BinaryReader) :
  settles_at is_RangeError (_loadStringsCache P) r
  /\ (forall l r', _loadStringsCache P r = (Ok l, r') ->
        exists r1, readInt r = (Ok (Z.of_nat (length l)), r1))
  /\ (forall count r1, readInt r = (Ok count, r1) -> count < 0 ->
        _loadStringsCache P r = (Throw RangeError, r1)).
Proof.
  split; [apply loadStringsCache_settles|]. split.
  - intros l r' H. unfold _loadStringsCache in H.
    apply bind_ok_inv in H. destruct H as (count & r1 & Hc & H).
    destruct (Z.ltb_spec count 0) as [Hneg|Hpos]; [discriminate H|].
    apply repeatM_length in H. exists r1. rewrite H, Z2Nat.id by exact Hpos.
    exact Hc.
  - intros count r1 Hc Hneg. unfold _loadStringsCache, bind. rewrite Hc.
    destruct (Z.ltb_spec count 0); [reflexivity|lia].
Qed.

Lemma readCachedString_settles (P : platform) (cache : list jsstring)
    (r : BinaryReader) :
  settles_at is_RangeError (_readCachedString P cache) r.
Proof.
  unfold _readCachedString. destruct cache as [|c cache].
  - apply settles_at_bind; [apply readString_settles|]. intros s r1 _. exact I.
  - apply settles_at_bind; [apply settles_at_readInt|]. intros i r1 _. exact I.
Qed.

Lemma readScripts_settles (P : platform) (r : BinaryReader) :
  settles_at is_RangeError (_readScripts P) r.
Proof.
  unfold _readScripts.
  apply settles_at_bind; [apply settles_at_readInt|]. intros len r1 _.
  apply settles_at_bind; [exact I|]. intros raw r2 _.
  destruct (pako_ungzip P raw) as [d|]; [|exact I].
  pose proof (read_script_stream_settles P (new_BinaryReader d)) as Hs.
  unfold settles_at in Hs.
  destruct (fst (read_script_stream P (new_BinaryReader d)));
    try contradiction; exact I.
Qed.

Lemma readLayoutHeader_settles (P : platform) (r : BinaryReader) :
  settles_at is_RangeError (_readLayoutHeader P) r.
Proof.
  unfold _readLayoutHeader.
  apply settles_at_bind; [apply settles_at_readInt|]. intros version r1 _.
  destruct (version <? 3); [exact I|].
  apply settles_at_bind.
  - unfold read_header_fields.
    apply settles_at_bind; [exact I|]. intros _ r2 _.
    apply settles_at_bind.
    { destruct (4 <=? version); [apply settles_at_readInt|exact I]. }
    intros g r3 _.
    apply settles_at_bind; [apply loadStringsCache_settles|]. intros cache r4 _.
    apply settles_at_bind; [apply settles_at_readInt|]. intros n r5 _.
    apply settles_at_bind.
    { apply settles_at_repeatM. intro r'. unfold read_control_header.
      apply settles_at_bind; [apply readCachedString_settles|]. intros a ra _.
      apply settles_at_bind; [apply readCachedString_settles|]. intros b rb _.
      apply settles_at_bind; [apply readCachedString_settles|]. intros c rc _.
      exact I. }
    intros cs r6 _.
    apply settles_at_bind; [apply settles_at_readInt|]. intros fc r7 _.
    apply settles_at_bind; [|intros fs r8 _; exact I].
    apply settles_at_repeatM. apply readString_settles.
  - intros fields r2 _.
    apply settles_at_bind; [apply readScripts_settles|]. intros s r3 _. exact I.
Qed.

Lemma read_value_throws (P : platform) (m : M jsobj) (cache : list jsstring)
    (type : Z) (r : BinaryReader) :
  throws_at is_RangeError m r ->
  throws_at is_RangeError (read_value P m cache type) r.
Proof.
  intro Hm. unfold read_value.
  repeat match goal with
         | |- throws_at _ (if ?c then _ else _) _ => destruct c
         end.
  - apply settles_throws, settles_at_bind; [apply settles_at_readInt|].
    intros; exact I.
  - apply settles_throws, settles_at_bind; [apply readCachedString_settles|].
    intros; exact I.
  - apply settles_throws, settles_at_bind; [apply settles_at_readFloat|].
    intros; exact I.
  - apply settles_throws, settles_at_bind; [apply readString_settles|].
    intros; exact I.
  - apply settles_throws, settles_at_bind; [apply settles_at_readSignedByte|].
    intros; exact I.
  - apply throws_at_bind; [exact Hm|]. intros a r1 _ e He. discriminate He.
  - intros e He. discriminate He.
  - apply settles_throws, settles_at_bind; [exact I|]. intros; exact I.
  - apply settles_throws, settles_at_bind; [exact I|]. intros d r1 _.
    apply settles_at_bind; [|intros; exact I].
    unfold settles_at, lift, rect_shorts. cbn [fst].
    destruct (getInt16 d 0), (getInt16 d 2), (getInt16 d 4), (getInt16 d 6);
      cbn; try exact I; reflexivity.
  - intros e He. discriminate He.
Qed.

Lemma readMap_throws (P : platform) (cache : list jsstring) (fuel : nat) :
  forall (map : jsobj) (r : BinaryReader),
    throws_at is_RangeError (_readMap P fuel cache map) r.
Proof.
  induction fuel as [|fuel IH]; intros map r.
  - intros e He. discriminate He.
  - rewrite readMap_step.
    apply throws_at_bind;
      [apply settles_throws, readCachedString_settles|]. intros key r1 _.
    apply throws_at_bind;
      [apply settles_throws, settles_at_readSignedByte|]. intros type r2 _.
    destruct (type =? ENDOFMAP); [intros e He; discriminate He|].
    apply throws_at_bind; [apply read_value_throws, IH|]. intros v r3 _.
    destruct v as [value|]; [|intros e He; discriminate He].
    apply throws_at_bind; [|intros map' r4 _; apply IH].
    intros e He. unfold lift, assign in He. cbn [fst] in He.
    destruct (jsstring_eqb _ _); [destruct value|]; discriminate He.
Qed.


(** X12.  Decoding throws two errors only: the RangeError of a read outside
    the buffer (or of a negative string count), and the error of an
    unsupported version. *)
Theorem decode_errors (P : platform) (fuel : nat) (b : bytes) (e : error) :
  convertBjlToJsonFromBytes P fuel b = Throw e ->
  e = RangeError \/ e = UnsupportedVersion.
Proof.
  revert e. unfold convertBjlToJsonFromBytes.
  change (throws_at is_decode_error (read_design P fuel) (new_BinaryReader b)).
  assert (Hw : forall e', is_RangeError e' -> is_decode_error e')
    by (intros e' He'; left; exact He').
  unfold read_design.
  apply throws_at_bind.
  { apply (throws_at_weaken _ _ _ _ _ Hw), settles_throws,
      readLayoutHeader_settles. }
  intros h r1 _. destruct (Version h <? 3).
  { intros e He. injection He as <-. right. reflexivity. }
  apply (throws_at_weaken _ _ _ _ _ Hw).
  apply throws_at_bind; [apply settles_throws, loadStringsCache_settles|].
  intros cache r2 _.
  apply throws_at_bind; [apply settles_throws, settles_at_readInt|].
  intros n r3 _.
  apply throws_at_bind.
  { apply settles_throws, settles_at_repeatM. apply readVariant_settles. }
  intros vs r4 _.
  apply throws_at_bind; [apply readMap_throws|]. intros data r5 _.
  apply throws_at_bind; [apply settles_throws, settles_at_readInt|].
  intros _ r6 _.
  apply throws_at_bind; [apply settles_throws, settles_at_readSignedByte|].
  intros fa r7 _.
  apply throws_at_bind; [apply settles_throws, settles_at_readSignedByte|].
  intros mi r8 _. intros e He. discriminate He.
Qed.

(* ================================================================== *)
(** ** The cursor moves forward *)

Lemma forward_at_ret (A : Type) (a : A) (r : BinaryReader) :
  forward_at (ret a) r.
Proof.
  intros o r' H. injection H as _ <-. split; [reflexivity|].
  intro Hr. split; [exact Hr|lia].
Qed.

Lemma forward_at_lift (A : Type) (x : outcome A) (r : BinaryReader) :
  forward_at (lift x) r.
Proof.
  intros o r' H. injection H as _ <-. split; [reflexivity|].
  intro Hr. split; [exact Hr|lia].
Qed.

Lemma forward_at_bind (A B : Type) (m : M A) (f : A -> M B) (r : BinaryReader) :
  forward_at m r ->
  (forall a r1, m r = (Ok a, r1) -> forward_at (f a) r1) ->
  forward_at (bind m f) r.
Proof.
  intros Hm Hf o r' H. unfold bind in H.
  destruct (m r) as [o1 r1] eqn:Em.
  destruct (Hm o1 r1 Em) as [Hb1 Hr1].
  destruct o1 as [a|e| |].
  - destruct (Hf a r1 eq_refl o r' H) as [Hb2 Hr2].
    split; [congruence|]. intro Hr. destruct (Hr2 Hr) as [Hr' Ho'].
    destruct (Hr1 Hr') as [Hr0 Ho0]. split; [exact Hr0|lia].
  - injection H as _ <-. split; assumption.
  - injection H as _ <-. split; assumption.
  - injection H as _ <-. split; assumption.
Qed.

Lemma forward_at_readInt (r : BinaryReader) : forward_at readInt r.
Proof.
  intros o r' H. unfold readInt in H.
  destruct (getInt32 _ _); injection H as _ <-; cbn;
    (split; [reflexivity|]); intro Hr; (split; [exact Hr|lia]).
Qed.

Lemma forward_at_readFloat (r : BinaryReader) : forward_at readFloat r.
Proof.
  intros o r' H. unfold readFloat in H.
  destruct (getFloat32 _ _); injection H as _ <-; cbn;
    (split; [reflexivity|]); intro Hr; (split; [exact Hr|lia]).
Qed.

Lemma forward_at_readSignedByte (r : BinaryReader) :
  forward_at readSignedByte r.
Proof.
  intros o r' H. unfold readSignedByte in H. injection H as _ <-. cbn.
  split; [reflexivity|]. intro Hr. split; [exact Hr|lia].
Qed.

Lemma forward_at_readBytes (len : Z) (r : BinaryReader) :
  forward_at (readBytes len) r.
Proof.
  intros o r' H. unfold readBytes in H. injection H as _ <-. cbn.
  split; [reflexivity|]. intro Hr. apply orb_false_iff in Hr.
  destruct Hr as [Hr Hl]. apply Z.ltb_ge in Hl. split; [exact Hr|lia].
Qed.

Lemma forward_at_skip (n : Z) (r : BinaryReader) :
  0 <= n -> forward_at (skip n) r.
Proof.
  intros Hn o r' H. unfold skip in H. injection H as _ <-. cbn.
  split; [reflexivity|]. intro Hr. split; [exact Hr|lia].
Qed.

Lemma forward_at_repeatM (A : Type) (m : M A) (n : nat) :
  (forall r, forward_at m r) -> forall r, forward_at (repeatM n m) r.
Proof.
  intro Hm. induction n as [|n IH]; intro r; cbn [repeatM].
  - apply forward_at_ret.
  - apply forward_at_bind; [apply Hm|]. intros a r1 _.
    apply forward_at_bind; [apply IH|]. intros l r2 _. apply forward_at_ret.
Qed.

Lemma forward_at_readString (P : platform) (r : BinaryReader) :
  forward_at (_readString P) r.
Proof.
  unfold _readString.
  apply forward_at_bind; [apply forward_at_readInt|]. intros len r1 _.
  apply forward_at_bind; [apply forward_at_readBytes|]. intros d r2 _.
  apply forward_at_ret.
Qed.

Lemma forward_at_loadStringsCache (P : platform) (r : BinaryReader) :
  forward_at (_loadStringsCache P) r.
Proof.
  unfold _loadStringsCache.
  apply forward_at_bind; [apply forward_at_readInt|]. intros count r1 _.
  destruct (count <? 0); [apply forward_at_lift|].
  apply forward_at_repeatM. apply forward_at_readString.
Qed.

Lemma forward_at_readCachedString (P : platform) (cache : list jsstring)
    (r : BinaryReader) :
  forward_at (_readCachedString P cache) r.
Proof.
  unfold _readCachedString. destruct cache as [|c cache].
  - apply forward_at_bind; [apply forward_at_readString|]. intros s r1 _.
    apply forward_at_ret.
  - apply forward_at_bind; [apply forward_at_readInt|]. intros i r1 _.
    apply forward_at_ret.
Qed.

Lemma forward_at_read_value (P : platform) (m : M jsobj) (cache : list jsstring)
    (type : Z) (r : BinaryReader) :
  forward_at m r -> forward_at (read_value P m cache type) r.
Proof.
  intro Hm. unfold read_value.
  repeat match goal with
         | |- forward_at (if ?c then _ else _) _ => destruct c
         end;
    try (apply forward_at_bind;
         [first [ apply forward_at_readInt | apply forward_at_readFloat
                | apply forward_at_readString | apply forward_at_readSignedByte
                | apply forward_at_readCachedString | apply forward_at_readBytes
                | exact Hm ]
         | intros; try apply forward_at_ret ]);
    try apply forward_at_ret.
  apply forward_at_bind; [apply forward_at_lift|]. intros; apply forward_at_ret.
Qed.

Lemma forward_at_readMap (P : platform) (cache : list jsstring) (fuel : nat) :
  forall (map : jsobj) (r : BinaryReader),
    forward_at (_readMap P fuel cache map) r.
Proof.
  induction fuel as [|fuel IH]; intros map r.
  - apply forward_at_lift.
  - rewrite readMap_step.
    apply forward_at_bind; [apply forward_at_readCachedString|].
    intros key r1 _.
    apply forward_at_bind; [apply forward_at_readSignedByte|].
    intros type r2 _.
    destruct (type =? ENDOFMAP); [apply forward_at_ret|].
    apply forward_at_bind; [apply forward_at_read_value, IH|].
    intros v r3 _. destruct v as [value|]; [|apply forward_at_ret].
    apply forward_at_bind; [apply forward_at_lift|]. intros map' r4 _.
    apply IH.
Qed.

Lemma forward_at_readVariant (r : BinaryReader) :
  forward_at _readVariantFromStream r.
Proof.
  unfold _readVariantFromStream.
  apply forward_at_bind; [apply forward_at_readFloat|]. intros s r1 _.
  apply forward_at_bind; [apply forward_at_readInt|]. intros w r2 _.
  apply forward_at_bind; [apply forward_at_readInt|]. intros h r3 _.
  apply forward_at_ret.
Qed.

Lemma forward_at_readScripts (P : platform) (r : BinaryReader) :
  forward_at (_readScripts P) r.
Proof.
  unfold _readScripts.
  apply forward_at_bind; [apply forward_at_readInt|]. intros len r1 _.
  apply forward_at_bind; [apply forward_at_readBytes|]. intros raw r2 _.
  destruct (pako_ungzip P raw) as [d|]; [|apply forward_at_ret].
  destruct (fst (read_script_stream P (new_BinaryReader d)));
    first [apply forward_at_ret | apply forward_at_lift].
Qed.

Lemma forward_at_readLayoutHeader (P : platform) (r : BinaryReader) :
  forward_at (_readLayoutHeader P) r.
Proof.
  unfold _readLayoutHeader.
  apply forward_at_bind; [apply forward_at_readInt|]. intros version r1 _.
  destruct (version <? 3); [apply forward_at_ret|].
  apply forward_at_bind.
  - unfold read_header_fields.
    apply forward_at_bind; [apply forward_at_skip; lia|]. intros _ r2 _.
    apply forward_at_bind.
    { destruct (4 <=? version); [apply forward_at_readInt|apply forward_at_ret]. }
    intros g r3 _.
    apply forward_at_bind; [apply forward_at_loadStringsCache|].
    intros cache r4 _.
    apply forward_at_bind; [apply forward_at_readInt|]. intros n r5 _.
    apply forward_at_bind.
    { apply forward_at_repeatM. intro r'. unfold read_control_header.
      apply forward_at_bind; [apply forward_at_readCachedString|].
      intros a ra _.
      apply forward_at_bind; [apply forward_at_readCachedString|].
      intros b rb _.
      apply forward_at_bind; [apply forward_at_readCachedString|].
      intros c rc _. apply forward_at_ret. }
    intros cs r6 _.
    apply forward_at_bind; [apply forward_at_readInt|]. intros fc r7 _.
    apply forward_at_bind; [|intros fs r8 _; apply forward_at_ret].
    apply forward_at_repeatM. apply forward_at_readString.
  - intros fields r2 _.
    apply forward_at_bind; [apply forward_at_readScripts|]. intros s r3 _.
    apply forward_at_ret.
Qed.

(* ================================================================== *)
(** ** The loop of the map reader ends *)

Lemma settles_comes_back (A : Type) (E : error -> Prop) (m : M A)
    (r : BinaryReader) :
  settles_at E m r -> comes_back_at m r.
Proof.
  unfold settles_at, comes_back_at. intros H o r' Hm _ ->.
  rewrite Hm in H. exact H.
Qed.

Lemma comes_back_at_bind (A B : Type) (m : M A) (f : A -> M B)
    (r : BinaryReader) :
  comes_back_at m r ->
  (forall a r1, m r = (Ok a, r1) -> comes_back_at (f a) r1) ->
  comes_back_at (bind m f) r.
Proof.
  intros Hm Hf o r' H Hr. unfold bind in H.
  destruct (m r) as [o1 r1] eqn:Em. destruct o1 as [a|e| |].
  - exact (Hf a r1 eq_refl o r' H Hr).
  - injection H as <- _. discriminate.
  - injection H as _ <-. exfalso. exact (Hm Diverge r1 Em Hr eq_refl).
  - injection H as <- _. discriminate.
Qed.

Lemma comes_back_at_ret (A : Type) (a : A) (r : BinaryReader) :
  comes_back_at (ret a) r.
Proof. intros o r' H _. injection H as <- _. discriminate. Qed.

Lemma read_value_comes_back (P : platform) (m : M jsobj) (cache : list jsstring)
    (type : Z) (r : BinaryReader) :
  comes_back_at m r -> comes_back_at (read_value P m cache type) r.
Proof.
  intro Hm. unfold read_value.
  repeat match goal with
         | |- comes_back_at (if ?c then _ else _) _ => destruct c
         end.
  - eapply settles_comes_back, settles_at_bind; [apply settles_at_readInt|].
    intros; exact I.
  - eapply settles_comes_back, settles_at_bind;
      [apply readCachedString_settles|]. intros; exact I.
  - eapply settles_comes_back, settles_at_bind; [apply settles_at_readFloat|].
    intros; exact I.
  - eapply settles_comes_back, settles_at_bind; [apply readString_settles|].
    intros; exact I.
  - eapply settles_comes_back, settles_at_bind;
      [apply settles_at_readSignedByte|]. intros; exact I.
  - apply comes_back_at_bind; [exact Hm|]. intros; apply comes_back_at_ret.
  - apply comes_back_at_ret.
  - eapply settles_comes_back, (settles_at_bind _ _ is_RangeError);
      [exact I|]. intros; exact I.
  - eapply settles_comes_back, (settles_at_bind _ _ is_RangeError);
      [exact I|]. intros d r1 _.
    apply settles_at_bind; [|intros; exact I].
    unfold settles_at, lift, rect_shorts. cbn [fst].
    destruct (getInt16 d 0), (getInt16 d 2), (getInt16 d 4), (getInt16 d 6);
      cbn; try exact I; reflexivity.
  - apply comes_back_at_ret.
Qed.

(** The bytes that remain behind a key and a type code that were read. *)
Lemma remaining_after_key_and_type (P : platform) (cache : list jsstring)
    (r r1 r2 : BinaryReader) (key : option jsstring) (type : Z) (fuel : nat) :
  _readCachedString P cache r = (Ok key, r1) ->
  readSignedByte r1 = (Ok type, r2) ->
  rewound r2 = false ->
  (Z.to_nat (blen (buffer r) - offset r) < S fuel)%nat ->
  (Z.to_nat (blen (buffer r2) - offset r2) < fuel)%nat.
Proof.
  intros Ek Eb Hr Hf.
  destruct (readSignedByte_ok _ _ _ Eb) as (H0 & H1 & Hbuf & Hoff & Hrw).
  destruct (forward_at_readCachedString P cache r _ _ Ek) as [Hb1 Hr1].
  rewrite Hrw in Hr. destruct (Hr1 Hr) as [_ Ho].
  rewrite Hbuf, Hoff, Hb1. rewrite Hb1 in H1. lia.
Qed.

Lemma readMap_comes_back (P : platform) (cache : list jsstring) (fuel : nat) :
  forall (map : jsobj) (r : BinaryReader),
    (Z.to_nat (blen (buffer r) - offset r) < fuel)%nat ->
    comes_back_at (_readMap P fuel cache map) r.
Proof.
  induction fuel as [|fuel IH]; intros map r Hf; [lia|].
  rewrite readMap_step.
  apply comes_back_at_bind;
    [eapply settles_comes_back, readCachedString_settles|].
  intros key r1 Ek.
  apply comes_back_at_bind;
    [eapply settles_comes_back, settles_at_readSignedByte|].
  intros type r2 Eb.
  destruct (type =? ENDOFMAP); [apply comes_back_at_ret|].
  apply comes_back_at_bind.
  - apply read_value_comes_back. intros o r' H Hr.
    refine (IH [] r2 _ o r' H Hr).
    destruct (forward_at_readMap P cache fuel [] r2 o r' H) as [_ Hr2].
    destruct (Hr2 Hr) as [Hr2' _].
    exact (remaining_after_key_and_type P cache r r1 r2 key type fuel
             Ek Eb Hr2' Hf).
  - intros v r3 Ev. destruct v as [value|]; [|apply comes_back_at_ret].
    apply comes_back_at_bind.
    + intros o r' H _. unfold lift in H. injection H as <- _.
      unfold assign. destruct (jsstring_eqb _ _); [destruct value|];
        discriminate.
    + intros map' r4 Ea. unfold lift in Ea. injection Ea as _ <-.
      intros o r' H Hr.
      refine (IH map' r3 _ o r' H Hr).
      destruct (forward_at_readMap P cache fuel map' r3 o r' H) as [_ Hr3].
      destruct (Hr3 Hr) as [Hr3' _].
      destruct (forward_at_read_value P (_readMap P fuel cache []) cache type r2
                  (forward_at_readMap P cache fuel [] r2) _ _ Ev) as [Hb3 Hr2].
      destruct (Hr2 Hr3') as [Hr2' Ho3].
      pose proof (remaining_after_key_and_type P cache r r1 r2 key type fuel
                    Ek Eb Hr2' Hf) as Hm.
      rewrite Hb3. lia.
Qed.

(** X13.  The loop of [_readMap] ends.  With more fuel than bytes behind
    the cursor, the map reader does not run out of fuel, unless a negative
    length moved the cursor back on the way: every round reads a type code
    that lies inside the buffer, in a nested map too, and no other read
    moves the cursor back. *)
Theorem map_reader_ends (P : platform) (cache : list jsstring) (fuel : nat)
    (map : jsobj) (r : BinaryReader) :
  (Z.to_nat (remaining r) < fuel)%nat ->
  rewound (snd (_readMap P fuel cache map r)) = false ->
  fst (_readMap P fuel cache map r) <> Diverge.
Proof.
  intros Hf Hr.
  apply (readMap_comes_back P cache fuel map r Hf _ (snd (_readMap P fuel cache map r)));
    [|exact Hr].
  destruct (_readMap P fuel cache map r); reflexivity.
Qed.

(** X14.  Decoding ends.  With more fuel than the buffer has bytes, the
    converter does not run out of fuel, unless a negative length moved the
    cursor back on the way. *)
Theorem decoding_ends (P : platform) (fuel : nat) (b : bytes) :
  (length b < fuel)%nat ->
  rewound (snd (read_design P fuel (new_BinaryReader b))) = false ->
  convertBjlToJsonFromBytes P fuel b <> Diverge.
Proof.
  intros Hf Hr. unfold convertBjlToJsonFromBytes.
  assert (Hc : comes_back_at (read_design P fuel) (new_BinaryReader b)).
  { unfold read_design.
    apply comes_back_at_bind;
      [eapply settles_comes_back, readLayoutHeader_settles|].
    intros h r1 E1. destruct (Version h <? 3).
    { intros o r' H _. injection H as <- _. discriminate. }
    apply comes_back_at_bind;
      [eapply settles_comes_back, loadStringsCache_settles|].
    intros cache r2 E2.
    apply comes_back_at_bind;
      [eapply settles_comes_back, settles_at_readInt|].
    intros n r3 E3.
    apply comes_back_at_bind.
    { eapply settles_comes_back, settles_at_repeatM. apply readVariant_settles. }
    intros vs r4 E4.
    apply comes_back_at_bind.
    - intros o r' H Hr'.
      refine (readMap_comes_back P cache fuel [] r4 _ o r' H Hr').
      destruct (forward_at_readMap P cache fuel [] r4 o r' H) as [_ H4].
      destruct (H4 Hr') as [Hr4 _].
      destruct (forward_at_repeatM _ _ (Z.to_nat n) forward_at_readVariant
                  r3 _ _ E4) as [Hb4 H3].
      destruct (H3 Hr4) as [Hr3 Ho4].
      destruct (forward_at_readInt r2 _ _ E3) as [Hb3 H2].
      destruct (H2 Hr3) as [Hr2 Ho3].
      destruct (forward_at_loadStringsCache P r1 _ _ E2) as [Hb2 H1].
      destruct (H1 Hr2) as [Hr1 Ho2].
      destruct (forward_at_readLayoutHeader P _ _ _ E1) as [Hb1 H0].
      destruct (H0 Hr1) as [_ Ho1].
      cbn [new_BinaryReader buffer offset] in Hb1, Ho1.
      rewrite Hb4, Hb3, Hb2, Hb1. unfold blen. lia.
    - intros data r5 _.
      apply comes_back_at_bind;
        [eapply settles_comes_back, settles_at_readInt|]. intros _ r6 _.
      apply comes_back_at_bind;
        [eapply settles_comes_back, settles_at_readSignedByte|].
      intros fa r7 _.
      apply comes_back_at_bind;
        [eapply settles_comes_back, settles_at_readSignedByte|].
      intros mi r8 _. apply comes_back_at_ret. }
  apply (Hc _ (snd (read_design P fuel (new_BinaryReader b)))); [|exact Hr].
  destruct (read_design P fuel (new_BinaryReader b)); reflexivity.
Qed.

(* ================================================================== *)
(** ** A length that takes the cursor back *)

Lemma readInt_ok (r r' : BinaryReader) (v : Z) :
  readInt r = (Ok v, r') ->
  buffer r' = buffer r /\ offset r' = offset r + 4.
Proof.
  unfold readInt. destruct (getInt32 _ _); intro H; [|discriminate].
  injection H as _ <-. split; reflexivity.
Qed.

(** X15.  A string value whose length field is -9 makes the map reader
    loop for ever: the nine bytes of the entry (the key reference, the
    type code 2 and the length) are read, [readBytes(-9)] takes the cursor
    back to the start of the entry, the value is stored, and the next round
    reads the same entry again.  No amount of fuel is enough. *)
Theorem negative_string_length_never_ends (P : platform) (arr : list jsstring)
    (i : Z) (rest : bytes) :
  arr <> [] ->
  int32 i = true ->
  property_key (cache_at arr i) <> str "__proto__" ->
  forall (fuel : nat) (map : jsobj) (r : BinaryReader),
    at_stream r (le_bytes 4 (wrap 32 i)
                 ++ [byte_of_Z (Z.land CSTRING 0xff)]
                 ++ le_bytes 4 (wrap 32 (-9)) ++ rest) ->
    fst (_readMap P fuel arr map r) = Diverge.
Proof.
  intros Hne Hi Hkey. induction fuel as [|fuel IH]; intros map r Hs;
    [reflexivity|].
  rewrite readMap_step.
  destruct arr as [|a arr']; [congruence|].
  destruct (reads_int i Hi r _ Hs) as (r1 & E1 & Hs1).
  destruct (reads_tag CSTRING ltac:(unfold CSTRING; lia) r1 _ Hs1)
    as (r2 & E2 & Hs2).
  destruct (reads_int (-9) ltac:(reflexivity) r2 _ Hs2) as (r3 & E3 & Hs3).
  destruct (readInt_ok _ _ _ E1) as [Hb1 Ho1].
  destruct (readSignedByte_ok _ _ _ E2) as (_ & _ & Hb2 & Ho2 & _).
  destruct (readInt_ok _ _ _ E3) as [Hb3 Ho3].
  assert (Ek : _readCachedString P (a :: arr') r
               = (Ok (cache_at (a :: arr') i), r1)).
  { unfold _readCachedString. rewrite (bind_ok _ _ _ _ _ _ _ E1). reflexivity. }
  rewrite (bind_ok _ _ _ _ _ _ _ Ek), (bind_ok _ _ _ _ _ _ _ E2).
  change (CSTRING =? ENDOFMAP) with false. cbv iota.
  rewrite read_value_CSTRING.
  assert (Ev : _readString P r2
               = (Ok (TextDecoder_decode P
                        (slice (buffer r3) (offset r3) (offset r3 + -9))),
                  {| buffer := buffer r3; offset := offset r3 + -9;
                     rewound := rewound r3 || true |})).
  { unfold _readString. rewrite (bind_ok _ _ _ _ _ _ _ E3). reflexivity. }
  unfold bind at 1. unfold bind at 1. rewrite Ev. unfold ret at 1.
  cbv iota beta.
  unfold bind at 1, lift at 1, assign.
  apply jsstring_eqb_neq in Hkey. rewrite Hkey. cbv iota beta.
  apply IH. destruct Hs as [H0 Hsk]. split; cbn [offset buffer].
  - lia.
  - rewrite Hb3, Hb2, Hb1.
    replace (offset r3 + -9) with (offset r) by lia. exact Hsk.
Qed.

(* ================================================================== *)
(** ** The collection pass *)

Lemma collect_cache_sound (k : jsstring) (st : string_cache * list jsstring) :
  cache_sound st -> cache_sound (collect k st).
Proof.
  intros (Hi & Hn & Hh). split; [apply collect_cache_indexes; exact Hi|].
  destruct st as [cache order]. unfold collect.
  destruct (obj_in k cache) eqn:Ein; [split; assumption|].
  apply obj_in_false in Ein. destruct Ein as [Eg Ek].
  cbn [fst snd] in *. split.
  - apply NoDup_app; [exact Hn | constructor; [intros []|constructor] |].
    intros s Hs [<-|[]].
    destruct Hi as [_ Hi]. specialize (Hi k). cbn [fst snd] in Hi.
    rewrite Eg in Hi. exact (Hi Hs).
  - intros s Hs. apply in_app_iff in Hs. destruct Hs as [Hs|[<-|[]]];
      [apply Hh; exact Hs | exact Ek].
Qed.

Lemma collectStrings_cache_sound (data : jsval) :
  cache_sound (_collectStringsInOrder data ([], [])).
Proof.
  apply collectStrings_closed.
  - exact collect_cache_sound.
  - split; [|split].
    + split; [reflexivity|]. intro s. cbn. tauto.
    + constructor.
    + intros s [].
Qed.

(** X16.  What the collection pass builds: the list of collected strings
    holds no string twice and no property name that an empty object
    inherits, the cache has one entry per string of the list, and the
    cache maps a string to [i] exactly when the string stands at place [i]
    of the list. *)
Theorem collection_pass_indexes (data : jsval) :
  NoDup (snd (_collectStringsInOrder data ([], [])))
  /\ length (fst (_collectStringsInOrder data ([], [])))
     = length (snd (_collectStringsInOrder data ([], [])))
  /\ (forall s, In s (snd (_collectStringsInOrder data ([], []))) ->
        inherited s = false)
  /\ (forall s i,
        obj_get s (fst (_collectStringsInOrder data ([], []))) = Some i
        <-> 0 <= i
            /\ nth_error (snd (_collectStringsInOrder data ([], [])))
                 (Z.to_nat i) = Some s).
Proof.
  destruct (collectStrings_cache_sound data) as ((Hl & Hi) & Hn & Hh).
  destruct (_collectStringsInOrder data ([], [])) as [cache order].
  cbn [fst snd] in *.
  split; [exact Hn|]. split; [exact Hl|]. split; [exact Hh|].
  intros s i. pose proof (Hi s) as His. split.
  - intro E. rewrite E in His. exact His.
  - intros [H0 Hnth].
    destruct (obj_get s cache) as [j|] eqn:Ej.
    + destruct His as [Hj0 Hj]. f_equal.
      assert (Z.to_nat j = Z.to_nat i); [|lia].
      apply (proj1 (NoDup_nth_error order) Hn).
      * apply nth_error_Some. congruence.
      * congruence.
    + exfalso. apply His. eapply nth_error_In. exact Hnth.
Qed.

(* ================================================================== *)
(** ** What the encoder refuses *)

(** X6.  References into the string cache.  A string of the list the
    collection pass built is written by [_writeCachedString] as the four
    bytes of its index, and [_readCachedString] over that list reads the
    string back.  When the pass collected nothing, the string is written
    in full and read back in full.  An index outside a list that is not
    empty is read as undefined, without an error. *)
Theorem cache_reference_roundtrip (P : platform) (data : jsval)
    (cache : string_cache) (order : list jsstring) :
  _collectStringsInOrder data ([], []) = (cache, order) ->
  count_ok (length order) = true ->
  (forall s, In s order ->
     exists bs,
       (forall w, _writeCachedString P w cache (Some s) = Ok (w ++ bs))
       /\ length bs = 4%nat
       /\ reads (_readCachedString P order) bs (Some s))
  /\ (order = [] ->
      forall s, text_ok P s = true ->
        exists bs,
          (forall w, _writeCachedString P w cache (Some s) = Ok (w ++ bs))
          /\ reads (_readCachedString P order) bs (Some s))
  /\ (order <> [] ->
      forall i, int32 i = true -> i < 0 \/ Z.of_nat (length order) <= i ->
        reads (_readCachedString P order) (le_bytes 4 (wrap 32 i)) None).
Proof.
  intros E Hc.
  destruct (collectStrings_cache_sound data) as [[Hlen Hidx] _].
  rewrite E in Hlen, Hidx. cbn [fst snd] in Hlen, Hidx.
  split; [|split].
  - intros s Hin. specialize (Hidx s).
    destruct (obj_get s cache) as [i|] eqn:Eg; [|elim Hidx; exact Hin].
    destruct Hidx as [Hi0 Hn].
    assert (Hlt : (Z.to_nat i < length order)%nat)
      by (apply nth_error_Some; congruence).
    assert (Hi : int32 i = true).
    { unfold count_ok in Hc. apply Z.ltb_lt in Hc.
      unfold int32. apply andb_true_iff. split.
      - apply Z.leb_le. assert (0 < 2 ^ 31) by reflexivity. lia.
      - apply Z.ltb_lt. lia. }
    exists (le_bytes 4 (wrap 32 i)). split; [|split].
    + intro w. unfold _writeCachedString. cbn [property_key].
      destruct cache as [|kv cache']; [discriminate|]. rewrite Eg.
      reflexivity.
    + apply length_le_bytes.
    + unfold _readCachedString.
      destruct order as [|a order']; [destruct (Z.to_nat i); discriminate|].
      eapply reads_eq.
      * eapply reads_bind; [apply reads_int; exact Hi | apply reads_ret].
      * apply app_nil_r.
      * unfold cache_at. destruct (Z.ltb_spec i 0); [lia|exact Hn].
  - intros -> s Hs. destruct cache as [|kv cache']; [|discriminate].
    exists (string_bytes P s). split.
    + intro w. unfold _writeCachedString. rewrite writeString_bytes.
      reflexivity.
    + unfold _readCachedString. eapply reads_eq.
      * eapply reads_bind; [apply reads_readString; exact Hs | apply reads_ret].
      * apply app_nil_r.
      * reflexivity.
  - intros Hne i Hi Hout. destruct order as [|a order']; [congruence|].
    unfold _readCachedString. eapply reads_eq.
    + eapply reads_bind; [apply reads_int; exact Hi | apply reads_ret].
    + apply app_nil_r.
    + apply cache_at_none. exact Hout.
Qed.

Lemma sound_cache_misses_inherited (cache : string_cache)
    (order : list jsstring) (k : jsstring) :
  cache_sound (cache, order) -> inherited k = true -> obj_get k cache = None.
Proof.
  intros ((_ & Hi) & _ & Hh) Hk. specialize (Hi k). cbn [fst snd] in *.
  destruct (obj_get k cache) as [i|]; [|reflexivity].
  destruct Hi as [_ Hn]. apply nth_error_In, Hh in Hn. congruence.
Qed.

(** X17.  A key that an empty object inherits ("constructor", "toString",
    "valueOf", ...) cannot be encoded next to other strings: the collection
    pass takes such a key for a collected one, so the cache has no index
    for it, and as soon as the cache holds any string, writing the entry
    with that key throws the cache-miss error.  The entries before it were
    written. *)
Theorem inherited_key_is_refused (P : platform) (toBil : bool) (data : jsval)
    (cache : string_cache) (order : list jsstring)
    (pre rest : jsobj) (k : jsstring) (v : jsval) (w w' : BinaryWriter) :
  _collectStringsInOrder data ([], []) = (cache, order) ->
  order <> [] ->
  inherited k = true ->
  toBil && skipped v = false ->
  _writeMap P toBil w (JObject pre) cache = Ok w' ->
  _writeMap P toBil w (JObject (pre ++ (k, v) :: rest)) cache
  = Throw (CacheMiss k).
Proof.
  intros E Ho Hk Hs Hpre.
  pose proof (collectStrings_cache_sound data) as Hsound. rewrite E in Hsound.
  pose proof (sound_cache_misses_inherited cache order k Hsound Hk) as Hg.
  cbn [_writeMap] in *. rewrite write_entries_app, Hpre.
  cbn [outcome_bind write_entries].
  rewrite write_entry_not_skipped by exact Hs.
  unfold _writeCachedString. cbn [property_key]. rewrite Hg.
  destruct cache as [|c cache']; [|reflexivity].
  destruct Hsound as ((Hl & _) & _). cbn [fst snd length] in Hl.
  destruct order; [congruence|discriminate].
Qed.

(** X18.  A value that is undefined, or a number that is no integer and
    carries no type tag, is refused: once the key of the entry was
    written, [_writeMap] throws the error of an unsupported value type. *)
Theorem unsupported_value_is_refused (P : platform) (toBil : bool)
    (cache : string_cache) (pre rest : jsobj) (k : jsstring) (v : jsval)
    (w w' w'' : BinaryWriter) :
  v = JUndefined \/ (exists bits, v = JFloat bits /\ f32_int_value bits = None) ->
  _writeMap P toBil w (JObject pre) cache = Ok w' ->
  _writeCachedString P w' cache (Some k) = Ok w'' ->
  _writeMap P toBil w (JObject (pre ++ (k, v) :: rest)) cache
  = Throw UnsupportedValueType.
Proof.
  intros Hv Hpre Hkey.
  cbn [_writeMap] in *. rewrite write_entries_app, Hpre.
  cbn [outcome_bind write_entries].
  assert (Hs : toBil && skipped v = false).
  { destruct Hv as [->|(bits & -> & _)]; apply andb_false_r. }
  rewrite write_entry_not_skipped by exact Hs. rewrite Hkey.
  cbn [outcome_bind].
  destruct Hv as [->|(bits & -> & Hb)]; cbn [is_object as_integer].
  - reflexivity.
  - rewrite Hb. reflexivity.
Qed.

(* ================================================================== *)
(** ** Values that come back in another form *)

Lemma assign_plain (k : jsstring) (v : jsval) :
  k <> str "__proto__" -> assign k v [] = Ok [(k, v)].
Proof.
  intro H. unfold assign. apply jsstring_eqb_neq in H. rewrite H. reflexivity.
Qed.

Lemma one_entry_roundtrip (P : platform) (toBil : bool) (cache : string_cache)
    (arr : list jsstring) (k : jsstring) (val val' : jsval) (type : Z)
    (fuel : nat) (kb pb : bytes) :
  platform_ok P ->
  k <> str "__proto__" ->
  reads (_readCachedString P arr) kb (Some k) ->
  0 <= type < 128 -> type <> ENDOFMAP ->
  (forall w, _writeMap P toBil w (JObject [(k, val)]) cache
             = Ok (w ++ kb ++ [byte_of_Z (Z.land type 0xff)] ++ pb)) ->
  reads (read_value P (_readMap P fuel arr []) arr type) pb (Some val') ->
  exists bs,
    (forall w, _writeMap P toBil w (JObject [(k, val)]) cache = Ok (w ++ bs))
    /\ reads (_readMap P (S (S fuel)) arr []) (bs ++ sentinel P) [(k, val')].
Proof.
  intros HP Hk Hkr Ht Hne Hw Hv.
  exists (kb ++ [byte_of_Z (Z.land type 0xff)] ++ pb).
  split; [exact Hw|].
  apply (reads_map_of_wire P fuel arr _ [(Some k, val')] _ HP).
  - pose proof (wire_reads_cons P fuel arr kb pb [] (Some k) type
                  val' [] Hkr Ht Hne Hv (wire_reads_nil P fuel arr)) as Hwr.
    rewrite app_nil_r in Hwr. exact Hwr.
  - cbn [assign_all property_key]. rewrite assign_plain by exact Hk. reflexivity.
Qed.

Lemma writeMap_one (P : platform) (toBil : bool) (cache : string_cache)
    (k : jsstring) (val : jsval) (w : BinaryWriter) :
  _writeMap P toBil w (JObject [(k, val)]) cache
  = write_entry P toBil cache (fun w' => _writeMap P toBil w' val cache) k val w.
Proof.
  cbn [_writeMap write_entries].
  destruct (write_entry P toBil cache _ k val w); reflexivity.
Qed.

(** X19.  Values that are written in the form of another value.  A bare
    [null] is written as the type code of Null, in reduced mode too, and
    comes back as the tagged value [{ ValueType: 12 }]; a bare integer is
    written as [v | 0] and comes back as that 32-bit number; an empty
    array is written as a nested map without entries and comes back as an
    empty object. *)
Theorem bare_values_come_back_normalised (P : platform) (toBil : bool)
    (cache : string_cache) (arr : list jsstring) (k : jsstring) :
  platform_ok P ->
  served cache arr k ->
  k <> str "__proto__" ->
  (exists bs,
     (forall w, _writeMap P toBil w (JObject [(k, JNull)]) cache = Ok (w ++ bs))
     /\ reads (_readMap P 3 arr []) (bs ++ sentinel P) [(k, tagged CNULL [])])
  /\ (forall z, exists bs,
        (forall w, _writeMap P toBil w (JObject [(k, JInt z)]) cache
                   = Ok (w ++ bs))
        /\ reads (_readMap P 3 arr []) (bs ++ sentinel P)
             [(k, JInt (wrap 32 z))])
  /\ (exists bs,
        (forall w, _writeMap P toBil w (JObject [(k, JArray [])]) cache
                   = Ok (w ++ bs))
        /\ reads (_readMap P 3 arr []) (bs ++ sentinel P) [(k, JObject [])]).
Proof.
  intros HP Hs Hk.
  destruct (served_cached_string P cache arr k Hs) as (kb & Hkw & Hkr).
  split; [|split].
  - destruct (one_entry_roundtrip P toBil cache arr k JNull (tagged CNULL [])
                CNULL 1 kb [] HP Hk Hkr) as (bs & Hw & Hr).
    + unfold CNULL. lia.
    + discriminate.
    + intro w. rewrite writeMap_one.
      rewrite write_entry_not_skipped by apply andb_false_r.
      rewrite Hkw. cbn [outcome_bind is_object as_integer].
      unfold writeByte. rewrite <- !app_assoc. reflexivity.
    + rewrite read_value_CNULL. apply reads_ret.
    + exists bs. split; [exact Hw|exact Hr].
  - intro z.
    destruct (one_entry_roundtrip P toBil cache arr k (JInt z)
                (JInt (wrap 32 z)) CINT 1 kb (le_bytes 4 (wrap 32 z))
                HP Hk Hkr) as (bs & Hw & Hr).
    + unfold CINT. lia.
    + discriminate.
    + intro w. rewrite writeMap_one.
      rewrite write_entry_not_skipped by apply andb_false_r.
      rewrite Hkw. cbn [outcome_bind is_object as_integer].
      unfold writeByte, writeInt. rewrite <- !app_assoc. reflexivity.
    + rewrite read_value_CINT.
      apply (reads_one _ readInt (le_bytes 4 (wrap 32 z)) (wrap 32 z) _
               (fun x => Some (JInt x))).
      eapply reads_eq; [apply reads_readInt|reflexivity|].
      apply wrap_wrap. lia.
    + exists bs. split; [exact Hw|exact Hr].
  - destruct (one_entry_roundtrip P toBil cache arr k (JArray []) (JObject [])
                CMAP 1 kb (sentinel P) HP Hk Hkr) as (bs & Hw & Hr).
    + unfold CMAP. lia.
    + discriminate.
    + intro w. rewrite writeMap_one.
      rewrite write_entry_not_skipped by apply andb_false_r.
      rewrite Hkw. cbn [outcome_bind is_object get_prop is_undefined negb].
      cbn [_writeMap write_items outcome_bind].
      rewrite sentinel_bytes. unfold writeByte.
      rewrite <- !app_assoc. reflexivity.
    + rewrite read_value_CMAP.
      apply (reads_one _ (_readMap P 1 arr []) (sentinel P) [] _
               (fun x => Some (JObject x))).
      apply (reads_map_of_wire P 0 arr [] [] [] HP);
        [apply wire_reads_nil|reflexivity].
    + exists bs. split; [exact Hw|exact Hr].
Qed.

(** X20.  The elements of an array have no cache index: the collection
    pass walks the elements of an array without collecting their indices,
    and [_writeMap] writes an array as the map of its indices.  So writing
    an entry whose value is an array that is not empty throws the
    cache-miss error for the key "0", unless that string was collected
    elsewhere. *)
Theorem array_value_is_refused (P : platform) (toBil : bool)
    (cache : string_cache) (pre rest : jsobj) (k : jsstring)
    (x : jsval) (items : list jsval) (w w' w'' : BinaryWriter) :
  cache <> [] ->
  obj_get (str "0") cache = None ->
  toBil && skipped x = false ->
  _writeMap P toBil w (JObject pre) cache = Ok w' ->
  _writeCachedString P w' cache (Some k) = Ok w'' ->
  _writeMap P toBil w (JObject (pre ++ (k, JArray (x :: items)) :: rest)) cache
  = Throw (CacheMiss (str "0")).
Proof.
  intros Hne H0 Hx Hpre Hkey.
  cbn [_writeMap] in Hpre. cbn [_writeMap]. rewrite write_entries_app, Hpre.
  cbn [outcome_bind write_entries].
  rewrite write_entry_not_skipped by apply andb_false_r. rewrite Hkey.
  cbn [outcome_bind is_object get_prop is_undefined negb].
  cbn [_writeMap write_items].
  rewrite write_entry_not_skipped by exact Hx.
  change (index_key 0) with (str "0").
  unfold _writeCachedString at 1. cbn [property_key]. rewrite H0.
  destruct cache as [|c cache']; [congruence|reflexivity].
Qed.

(* ================================================================== *)
(** ** The bytes the encoder writes *)

Lemma prefix_app (p a x : bytes) :
  (exists f, a = p ++ f) -> exists f, a ++ x = p ++ f.
Proof.
  intros (f & ->). exists (f ++ x). symmetry. apply app_assoc.
Qed.

Lemma writeLayoutHeader_layout (P : platform) (h : layout_header)
    (variants : list variant) (hb : bytes) :
  _writeLayoutHeader P h new_BinaryWriter variants = Ok hb ->
  exists fields,
    hb = le_bytes 4 (wrap 32 (if Version h =? 0 then 4 else Version h))
         ++ le_bytes 4 (wrap 32 (Z.of_nat (length fields))) ++ fields.
Proof.
  unfold _writeLayoutHeader. cbv zeta.
  destruct (write_control_headers P _ _ _) as [tw| | |]; cbn [outcome_bind];
    try discriminate.
  intro H. injection H as <-.
  unfold writer_offset, getBuffer, writeBytes, new_BinaryWriter.
  rewrite !fold_writeString. unfold writeInt. cbn [app].
  set (version := if Version h =? 0 then 4 else Version h).
  set (v4 := le_bytes 4 (wrap 32 version)).
  match goal with
  | |- exists fields, updateInt ?w _ _ = _ =>
      assert (Hw : exists fields, w = (v4 ++ le_bytes 4 (wrap 32 0)) ++ fields)
  end.
  { do 7 apply prefix_app.
    destruct (4 <=? version).
    - eexists. reflexivity.
    - exists []. symmetry. apply app_nil_r. }
  destruct Hw as (fields & Hw). exists fields. rewrite Hw.
  rewrite <- (app_assoc v4).
  rewrite updateInt_patch by reflexivity.
  f_equal. f_equal. f_equal. f_equal.
  rewrite !length_app. subst v4. rewrite !length_le_bytes. lia.
Qed.

Lemma writeAllLayout_layout (P : platform) (toBil : bool) (w w' : BinaryWriter)
    (variants : list variant) (data : jsobj) :
  _writeAllLayout P toBil w variants data = Ok w' ->
  exists body, w' = w ++ body ++ le_bytes 4 (wrap 32 0).
Proof.
  unfold _writeAllLayout.
  destruct (_collectStringsInOrder (JObject data) ([], [])) as [cache order].
  destruct (_writeMap P toBil _ (JObject data) cache) as [tw| | |];
    cbn [outcome_bind]; try discriminate.
  intro H. injection H as <-.
  unfold _writeStringsCacheInOrder. rewrite fold_writeString.
  unfold writeInt, writeBytes, getBuffer.
  exists (le_bytes 4 (wrap 32 (Z.of_nat (length order)))
          ++ List.concat (List.map (string_bytes P) order)
          ++ writeByte (_writeString P tw []) ENDOFMAP).
  rewrite <- !app_assoc. reflexivity.
Qed.

(** X21.  The layout of the bytes the encoder returns: the version (4
    when the document gives none), the header length, which is the number
    of bytes the header takes behind that field, the header, the body,
    four zero bytes, and one byte for each of the two flags, 1 for true
    and 0 for false. *)
Theorem encoded_layout (P : platform) (toBil : bool) (d : design) (b : bytes) :
  convertJsonToBjlToBytes P toBil d = Ok b ->
  exists fields body,
    _writeLayoutHeader P (LayoutHeader d) new_BinaryWriter (Variants d)
    = Ok (le_bytes 4 (wrap 32 (if Version (LayoutHeader d) =? 0 then 4
                               else Version (LayoutHeader d)))
          ++ le_bytes 4 (wrap 32 (Z.of_nat (length fields))) ++ fields)
    /\ b = le_bytes 4 (wrap 32 (if Version (LayoutHeader d) =? 0 then 4
                                else Version (LayoutHeader d)))
           ++ le_bytes 4 (wrap 32 (Z.of_nat (length fields))) ++ fields
           ++ body
           ++ [x00; x00; x00; x00]
           ++ [if FontAwesome d then x01 else x00;
               if MaterialIcons d then x01 else x00].
Proof.
  unfold convertJsonToBjlToBytes.
  destruct (_writeLayoutHeader P _ _ _) as [hb| | |] eqn:Eh;
    cbn [outcome_bind]; try discriminate.
  destruct (_writeAllLayout P toBil hb _ _) as [w2| | |] eqn:Eb;
    cbn [outcome_bind]; try discriminate.
  intro H. injection H as <-.
  destruct (writeLayoutHeader_layout P _ _ _ Eh) as (fields & ->).
  destruct (writeAllLayout_layout P toBil _ _ _ _ Eb) as (body & ->).
  exists fields, body. split; [reflexivity|].
  unfold getBuffer, writeByte. rewrite <- !app_assoc.
  destruct (FontAwesome d), (MaterialIcons d); reflexivity.
Qed.

(* ================================================================== *)
(** ** Reduced mode without Null and Rect values *)

Lemma write_entry_flag (P : platform) (cache : string_cache)
    (n1 n2 : BinaryWriter -> outcome BinaryWriter)
    (k : jsstring) (val : jsval) (w : BinaryWriter) :
  skipped val = false ->
  (forall w', n1 w' = n2 w') ->
  write_entry P true cache n1 k val w = write_entry P false cache n2 k val w.
Proof.
  intros Hs Hn.
  rewrite !write_entry_not_skipped by (rewrite ?Hs; reflexivity).
  destruct (_writeCachedString P w cache (Some k)); cbn [outcome_bind];
    try reflexivity.
  destruct (is_object val); [|reflexivity].
  destruct (negb (is_undefined (get_prop "ValueType" val))); [reflexivity|].
  rewrite Hn. reflexivity.
Qed.

Lemma writeMap_flag (P : platform) (cache : string_cache) (m : jsval) :
  no_skipped m = true ->
  forall w, _writeMap P true w m cache = _writeMap P false w m cache.
Proof.
  induction m as [| | | | | |items IH|props IH] using jsval_induction;
    intros Hm w; try reflexivity.
  - cbn [_writeMap]. cbn [no_skipped] in Hm.
    generalize 0%nat as i. revert w.
    induction IH as [|x items Hx _ IHl]; intros w i; [reflexivity|].
    cbn [forallb] in Hm. apply andb_true_iff in Hm. destruct Hm as [Hx' Hm].
    apply andb_true_iff in Hx'. destruct Hx' as [Hsk Hns].
    apply negb_true_iff in Hsk.
    cbn [write_items].
    rewrite (write_entry_flag P cache _
               (fun w' => _writeMap P false w' x cache) _ x w Hsk (Hx Hns)).
    destruct (write_entry P false cache _ (index_key i) x w);
      cbn [outcome_bind]; try reflexivity.
    apply (IHl Hm).
  - cbn [_writeMap]. cbn [no_skipped] in Hm. revert w.
    induction IH as [|[k x] props Hx _ IHl]; intro w; [reflexivity|].
    cbn [forallb snd] in Hm. apply andb_true_iff in Hm. destruct Hm as [Hx' Hm].
    apply andb_true_iff in Hx'. destruct Hx' as [Hsk Hns].
    apply negb_true_iff in Hsk. cbn [snd] in Hx.
    cbn [write_entries].
    rewrite (write_entry_flag P cache _
               (fun w' => _writeMap P false w' x cache) _ x w Hsk (Hx Hns)).
    destruct (write_entry P false cache _ k x w);
      cbn [outcome_bind]; try reflexivity.
    apply (IHl Hm).
Qed.

(** X22.  Reduced mode changes nothing for a document without Null and
    Rect values: when no value of the body, at any depth, is an object
    with one of these two type codes, the encoder returns the same bytes,
    or fails the same way, with the flag set and without it. *)
Theorem reduced_mode_without_null_and_rect (P : platform) (d : design) :
  no_skipped (JObject (Data d)) = true ->
  convertJsonToBjlToBytes P true d = convertJsonToBjlToBytes P false d.
Proof.
  intro H. unfold convertJsonToBjlToBytes, _writeAllLayout.
  destruct (_writeLayoutHeader P _ _ _) as [hb| | |]; cbn [outcome_bind];
    try reflexivity.
  destruct (_collectStringsInOrder (JObject (Data d)) ([], []))
    as [cache order].
  rewrite (writeMap_flag P cache (JObject (Data d)) H). reflexivity.
Qed.

(* ================================================================== *)
(** ** Buffers that end early *)

(** X23.  A buffer of fewer than four bytes holds no version: decoding
    throws the RangeError of the first read, for the empty buffer too. *)
Theorem short_buffer_is_refused (P : platform) (fuel : nat) (b : bytes) :
  (length b < 4)%nat ->
  convertBjlToJsonFromBytes P fuel b = Throw RangeError.
Proof.
  intro H. unfold convertBjlToJsonFromBytes, read_design, _readLayoutHeader.
  assert (E : readInt (new_BinaryReader b)
              = (Throw RangeError, new_BinaryReader b)).
  { unfold readInt, getInt32, in_view. cbn [new_BinaryReader buffer offset].
    destruct (Z.leb_spec (0 + 4) (blen b)) as [Hle|_];
      [unfold blen in Hle; lia|]. reflexivity. }
  unfold bind. rewrite E. reflexivity.
Qed.

(* ================================================================== *)
(** ** Variants *)

(** X24.  A variant is written in twelve bytes and read back with the
    scale the writer chose: the scale of the variant, or 1 when that scale
    is zero or NaN ([v.Scale || 1]); width and height come back as 32-bit
    numbers. *)
Theorem variant_roundtrip (w : BinaryWriter) (v : variant) :
  0 <= Scale v < 2 ^ 32 ->
  exists bs,
    _writeVariant w v = w ++ bs
    /\ length bs = 12%nat
    /\ reads _readVariantFromStream bs
         {| Scale := if f32_is_zero (Scale v) || f32_is_nan (Scale v)
                     then f32_one else Scale v;
            Width := wrap 32 (Width v);
            Height := wrap 32 (Height v) |}.
Proof.
  intro Hs. exists (variant_bytes v). split; [apply writeVariant_bytes|].
  split.
  - unfold variant_bytes. rewrite !length_app, !length_le_bytes. reflexivity.
  - unfold _readVariantFromStream, variant_bytes.
    fold (scale_or_one (Scale v)).
    assert (Hr : 0 <= scale_or_one (Scale v) < 2 ^ 32).
    { unfold scale_or_one. destruct (_ || _); [|exact Hs].
      split; [discriminate|reflexivity]. }
    eapply reads_bind.
    { eapply reads_eq; [apply reads_readFloat|reflexivity|].
      apply Z.mod_small. exact Hr. }
    cbv beta.
    eapply reads_bind.
    { eapply reads_eq; [apply reads_readInt|reflexivity|].
      apply wrap_wrap. lia. }
    cbv beta. eapply reads_eq.
    + eapply reads_bind; [|apply reads_ret].
      eapply reads_eq; [apply reads_readInt|reflexivity|].
      apply wrap_wrap. lia.
    + apply app_nil_r.
    + reflexivity.
Qed.

(* ================================================================== *)
(** ** Hexadecimal strings *)

Lemma list_pair_ind (A : Type) (Q : list A -> Prop) :
  Q [] -> (forall x, Q [x]) -> (forall x y l, Q l -> Q (x :: y :: l)) ->
  forall l, Q l.
Proof.
  intros H0 H1 H2 l.
  assert (H : Q l /\ forall x, Q (x :: l)).
  { induction l as [|a l [IH1 IH2]]; [split; [exact H0|exact H1]|].
    split; [apply IH2|]. intro x. apply H2. exact IH1. }
  exact (proj1 H).
Qed.

Lemma hexFromBytes_cons (b : byte) (d : bytes) :
  _hexFromBytes (b :: d)
  = toUpperCase (padStart2 (toString16 b)) ++ _hexFromBytes d.
Proof.
  unfold _hexFromBytes. cbn [List.map List.concat]. apply toUpperCase_app.
Qed.

Lemma hex_byte_form (b : byte) :
  length (toUpperCase (padStart2 (toString16 b))) = 2%nat
  /\ forallb upper_hex (toUpperCase (padStart2 (toString16 b))) = true.
Proof. destruct b; split; reflexivity. Qed.

(** X25.  [_hexFromBytes] writes two digits for every byte, of the digits
    0 to 9 and A to F, and [_hexToBytes] gives the bytes back, for a byte
    array of any length. *)
Theorem hex_of_bytes (d : bytes) :
  length (_hexFromBytes d) = (2 * length d)%nat
  /\ forallb upper_hex (_hexFromBytes d) = true
  /\ _hexToBytes (_hexFromBytes d) = d.
Proof.
  split; [|split; [|apply hexToBytes_hexFromBytes]].
  - induction d as [|b d IH]; [reflexivity|].
    rewrite hexFromBytes_cons, length_app, IH.
    rewrite (proj1 (hex_byte_form b)). cbn [length]. lia.
  - induction d as [|b d IH]; [reflexivity|].
    rewrite hexFromBytes_cons, forallb_app, IH.
    rewrite (proj2 (hex_byte_form b)). reflexivity.
Qed.

Lemma upper_hex_cases (c : N) :
  upper_hex c = true ->
  In c [48; 49; 50; 51; 52; 53; 54; 55; 56; 57; 65; 66; 67; 68; 69; 70]%N.
Proof.
  unfold upper_hex. intro H. apply orb_true_iff in H.
  assert (Hc : (48 <= c <= 57 \/ 65 <= c <= 70)%N).
  { destruct H as [H|H]; apply andb_true_iff in H; destruct H as [H1 H2];
      apply N.leb_le in H1, H2; [left|right]; split; assumption. }
  cbn [In].
  assert (Hz : (c = 48 \/ c = 49 \/ c = 50 \/ c = 51 \/ c = 52 \/ c = 53
                \/ c = 54 \/ c = 55 \/ c = 56 \/ c = 57 \/ c = 65 \/ c = 66
                \/ c = 67 \/ c = 68 \/ c = 69 \/ c = 70)%N) by lia.
  intuition.
Qed.

Lemma upper_hex_is_hex (c : N) : upper_hex c = true -> is_hex c = true.
Proof.
  intro H. apply upper_hex_cases in H. cbn [In] in H.
  repeat (destruct H as [<-|H]; [reflexivity|]). destruct H.
Qed.

Lemma hex_pair_form (a b : N) :
  upper_hex a = true -> upper_hex b = true ->
  toUpperCase
    (padStart2 (toString16 (byte_of_Z (16 * hex_or_zero a + hex_or_zero b))))
  = [a; b].
Proof.
  intros Ha Hb. apply upper_hex_cases in Ha, Hb. cbn [In] in Ha, Hb.
  repeat (destruct Ha as [<-|Ha];
          [repeat (destruct Hb as [<-|Hb]; [vm_compute; reflexivity|]);
           destruct Hb|]).
  destruct Ha.
Qed.

Lemma filter_all (A : Type) (f : A -> bool) (l : list A) :
  forallb f l = true -> List.filter f l = l.
Proof.
  induction l as [|x l IH]; [reflexivity|]. cbn [forallb List.filter].
  intro H. apply andb_true_iff in H. destruct H as [Hx Hl].
  rewrite Hx, (IH Hl). reflexivity.
Qed.

Lemma length_hex_pairs (s : jsstring) :
  length (hex_pairs s) = Nat.div2 (length s).
Proof.
  induction s as [| x | x y s IH] using list_pair_ind; [reflexivity..|].
  cbn [hex_pairs length Nat.div2]. rewrite IH. reflexivity.
Qed.

(** X26.  [_hexToBytes] keeps the hexadecimal digits of its argument and
    makes one byte of every two of them; a last single digit is dropped.
    On a string of an even number of the digits 0 to 9 and A to F,
    [_hexFromBytes] gives the string back. *)
Theorem bytes_of_hex (s : jsstring) :
  length (_hexToBytes s) = Nat.div2 (length (List.filter is_hex s))
  /\ (forallb upper_hex s = true -> Nat.even (length s) = true ->
      _hexFromBytes (_hexToBytes s) = s).
Proof.
  split; [apply length_hex_pairs|].
  intros Hu He. unfold _hexToBytes.
  rewrite filter_all
    by (rewrite forallb_forall in *; intros c Hc; apply upper_hex_is_hex, Hu, Hc).
  revert Hu He.
  induction s as [| x | x y s IH] using list_pair_ind; intros Hu He.
  - reflexivity.
  - discriminate He.
  - cbn [forallb] in Hu. apply andb_true_iff in Hu. destruct Hu as [Hx Hu].
    apply andb_true_iff in Hu. destruct Hu as [Hy Hu].
    cbn [hex_pairs]. rewrite hexFromBytes_cons, (hex_pair_form x y Hx Hy).
    cbn [app]. f_equal. f_equal. apply IH; [exact Hu|exact He].
Qed.

(* ================================================================== *)
(** ** Shorts *)

Lemma le_bytes_mod (n : nat) (z : Z) :
  le_bytes n (z mod 256 ^ Z.of_nat n) = le_bytes n z.
Proof.
  pose proof (le_bytes_le_unsigned (le_bytes n z)) as H.
  rewrite length_le_bytes, le_unsigned_le_bytes in H. exact H.
Qed.

Lemma le_bytes_wrap16 (z : Z) : le_bytes 2 (wrap 16 z) = le_bytes 2 z.
Proof.
  rewrite <- (le_bytes_mod 2 (wrap 16 z)), <- (le_bytes_mod 2 z).
  f_equal. change (256 ^ Z.of_nat 2) with (2 ^ 16).
  unfold wrap, to_signed.
  assert (0 <= z mod 2 ^ 16 < 2 ^ 16) by (apply Z.mod_pos_bound; reflexivity).
  destruct (z mod 2 ^ 16 <? 2 ^ (16 - 1)).
  - apply Z.mod_mod. discriminate.
  - change (2 ^ 16) with 65536 in *.
    symmetry. apply Z.mod_unique with (q := -1); lia.
Qed.

Lemma shorts_bytes_ints (zs : list Z) :
  shorts_bytes (List.map JInt zs)
  = Ok (List.concat (List.map (fun z => le_bytes 2 (wrap 16 z)) zs)).
Proof.
  induction zs as [|z zs IH]; [reflexivity|].
  cbn [List.map shorts_bytes as_integer List.concat]. rewrite IH. reflexivity.
Qed.

Lemma shorts_from_written (zs : list Z) :
  forall (a : bytes) (rounds : nat),
    (length zs <= rounds)%nat ->
    shorts_from
      (a ++ List.concat (List.map (fun z => le_bytes 2 (wrap 16 z)) zs))
      (blen a) rounds
    = Ok (List.map (fun z => JInt (wrap 16 z)) zs).
Proof.
  induction zs as [|z zs IH]; intros a rounds Hr.
  - cbn [List.map List.concat]. rewrite app_nil_r.
    destruct rounds; [reflexivity|]. cbn [shorts_from].
    rewrite Z.ltb_irrefl. reflexivity.
  - destruct rounds as [|rounds]; [cbn in Hr; lia|].
    cbn [List.map List.concat shorts_from].
    assert (Hlt : blen a
                  < blen (a ++ le_bytes 2 (wrap 16 z)
                            ++ List.concat
                                 (List.map (fun z0 => le_bytes 2 (wrap 16 z0)) zs))).
    { unfold blen. rewrite !length_app, length_le_bytes. lia. }
    apply Z.ltb_lt in Hlt. rewrite Hlt.
    rewrite getInt16_le, wrap_wrap by lia.
    specialize (IH (a ++ le_bytes 2 (wrap 16 z)) rounds ltac:(cbn in Hr; lia)).
    rewrite <- app_assoc in IH.
    replace (blen (a ++ le_bytes 2 (wrap 16 z))) with (blen a + 2) in IH
      by (unfold blen; rewrite length_app, length_le_bytes; lia).
    rewrite IH. reflexivity.
Qed.

Lemma shorts_from_odd (d : bytes) :
  forall (a : bytes) (x : byte) (rounds : nat),
    Nat.even (length d) = true -> (length d < 2 * rounds)%nat ->
    shorts_from (a ++ d ++ [x]) (blen a) rounds = Throw RangeError.
Proof.
  induction d as [| y | y1 y2 d IH] using list_pair_ind;
    intros a x rounds He Hr.
  - destruct rounds as [|rounds]; [cbn in Hr; lia|].
    cbn [app shorts_from].
    assert (Hlt : (blen a <? blen (a ++ [x])) = true)
      by (apply Z.ltb_lt; unfold blen; rewrite length_app; cbn [length]; lia).
    rewrite Hlt. unfold getInt16, in_view.
    assert (Hout : (blen a + 2 <=? blen (a ++ [x])) = false)
      by (apply Z.leb_gt; unfold blen; rewrite length_app; cbn [length]; lia).
    rewrite Hout, andb_false_r. reflexivity.
  - discriminate He.
  - destruct rounds as [|rounds]; [cbn in Hr; lia|].
    cbn [shorts_from].
    assert (Hlt : (blen a <? blen (a ++ (y1 :: y2 :: d) ++ [x])) = true).
    { apply Z.ltb_lt. unfold blen. rewrite !length_app. cbn [length]. lia. }
    rewrite Hlt.
    change (a ++ (y1 :: y2 :: d) ++ [x]) with (a ++ [y1; y2] ++ d ++ [x]).
    rewrite <- (le_bytes_le_unsigned [y1; y2]). cbn [length].
    rewrite getInt16_le. cbn [outcome_bind].
    specialize (IH (a ++ le_bytes 2 (le_unsigned [y1; y2])) x rounds He
                  ltac:(cbn [length] in Hr; lia)).
    rewrite <- app_assoc in IH.
    replace (blen (a ++ le_bytes 2 (le_unsigned [y1; y2])))
      with (blen a + 2) in IH
      by (unfold blen; rewrite length_app, length_le_bytes; lia).
    rewrite IH. reflexivity.
Qed.

Lemma even_bytes_are_shorts (d : bytes) :
  Nat.even (length d) = true ->
  exists zs, d = List.concat (List.map (fun z => le_bytes 2 (wrap 16 z)) zs)
             /\ (2 * length zs = length d)%nat.
Proof.
  induction d as [| y | y1 y2 d IH] using list_pair_ind; intro He.
  - exists []. split; reflexivity.
  - discriminate He.
  - destruct (IH He) as (zs & Hd & Hl).
    exists (le_unsigned [y1; y2] :: zs). split.
    + cbn [List.map List.concat]. rewrite le_bytes_wrap16.
      pose proof (le_bytes_le_unsigned [y1; y2]) as Hp. cbn [length] in Hp.
      rewrite Hp, <- Hd. reflexivity.
    + cbn [length]. lia.
Qed.

(** X28.  Shorts and bytes: [_shortsToBytes] writes every integer of the
    array as its low sixteen bits, and [_shortsFromBytes] reads them back
    as signed 16-bit numbers; on an even number of bytes, reading the
    shorts and writing them gives the bytes again; on an odd number of
    bytes [_shortsFromBytes] throws a RangeError at the last byte. *)
Theorem shorts_and_bytes (d : bytes) (zs : list Z) :
  (bs <~ _shortsToBytes (JArray (List.map JInt zs)) ;; _shortsFromBytes bs)
  = Ok (JArray (List.map (fun z => JInt (wrap 16 z)) zs))
  /\ (Nat.even (length d) = true ->
      (shorts <~ _shortsFromBytes d ;; _shortsToBytes shorts) = Ok d)
  /\ (Nat.even (length d) = false -> _shortsFromBytes d = Throw RangeError).
Proof.
  split; [|split].
  - cbn [_shortsToBytes]. rewrite shorts_bytes_ints. cbn [outcome_bind].
    unfold _shortsFromBytes.
    rewrite (shorts_from_written zs [] _).
    + reflexivity.
    + clear. induction zs as [|z zs IH]; [apply Nat.le_refl|].
      cbn [List.map List.concat length]. rewrite length_app, length_le_bytes.
      cbn [length]. lia.
  - intro He. destruct (even_bytes_are_shorts d He) as (ys & -> & Hl).
    unfold _shortsFromBytes.
    rewrite (shorts_from_written ys [] _) by lia. cbn [outcome_bind].
    cbn [_shortsToBytes].
    rewrite <- (List.map_map (fun z => wrap 16 z) JInt), shorts_bytes_ints.
    rewrite List.map_map. f_equal. f_equal. apply List.map_ext.
    intro z. rewrite wrap_wrap by lia. reflexivity.
  - intro Ho.
    assert (Hd : exists d' x, d = d' ++ [x] /\ Nat.even (length d') = true).
    { destruct d as [|y d] using rev_ind; [discriminate Ho|].
      exists d, y. split; [reflexivity|].
      rewrite length_app in Ho. cbn [length] in Ho.
      rewrite Nat.add_1_r, Nat.even_succ in Ho.
      rewrite <- Nat.negb_odd. rewrite Ho. reflexivity. }
    destruct Hd as (d' & x & -> & He).
    unfold _shortsFromBytes.
    rewrite (shorts_from_odd d' [] x _ He); [reflexivity|].
    rewrite length_app. cbn [length]. lia.
Qed.

(* ================================================================== *)
(** ** Bytes behind the document *)

Lemma view_bytes_extend (b extra : bytes) (off n : Z) :
  0 <= n -> in_view b off n = true ->
  view_bytes (b ++ extra) off (Z.to_nat n) = view_bytes b off (Z.to_nat n)
  /\ in_view (b ++ extra) off n = true.
Proof.
  intros Hn H. unfold in_view in *. apply andb_true_iff in H.
  destruct H as [H0 H1]. apply Z.leb_le in H0, H1. split.
  - unfold view_bytes. unfold blen in H1.
    rewrite skipn_app, firstn_app, length_skipn.
    replace (Z.to_nat n - (length b - Z.to_nat off))%nat with 0%nat by lia.
    cbn [firstn]. apply app_nil_r.
  - apply andb_true_iff. split; apply Z.leb_le; [exact H0|].
    rewrite blen_app. pose proof (blen_nonneg extra). lia.
Qed.

Lemma slice_extend (b extra : bytes) (off len : Z) :
  0 <= off -> 0 <= len -> off + len <= blen b ->
  slice (b ++ extra) off (off + len) = slice b off (off + len).
Proof.
  intros H0 Hl Hb. unfold slice, rel_index.
  pose proof (blen_nonneg extra) as He. rewrite blen_app.
  destruct (Z.ltb_spec off 0); [lia|].
  destruct (Z.ltb_spec (off + len) 0); [lia|].
  rewrite !Z.min_l by lia.
  unfold blen in Hb.
  rewrite skipn_app, firstn_app, length_skipn.
  replace (Z.to_nat (off + len - off) - (length b - Z.to_nat off))%nat
    with 0%nat by lia.
  cbn [firstn]. apply app_nil_r.
Qed.

Lemma steady_at_ret (A : Type) (a : A) (r : BinaryReader) (extra : bytes) :
  steady_at (ret a) r extra.
Proof.
  split; [apply forward_at_ret|]. intros x r' H _ _ _.
  injection H as <- <-. reflexivity.
Qed.

Lemma steady_at_lift (A : Type) (o : outcome A) (r : BinaryReader)
    (extra : bytes) :
  steady_at (lift o) r extra.
Proof.
  split; [apply forward_at_lift|]. intros x r' H _ _ _.
  unfold lift in *. injection H as -> <-. reflexivity.
Qed.

Lemma steady_at_bind (A B : Type) (m : M A) (f : A -> M B) (r : BinaryReader)
    (extra : bytes) :
  steady_at m r extra ->
  (forall a r1, m r = (Ok a, r1) -> steady_at (f a) r1 extra) ->
  steady_at (bind m f) r extra.
Proof.
  intros [Hmf Hma] Hf. split.
  - apply forward_at_bind; [exact Hmf|]. intros a r1 E. exact (proj1 (Hf a r1 E)).
  - intros b r' H Hrw H0 Hle.
    apply bind_ok_inv in H. destruct H as (a & r1 & Em & Ef).
    destruct (Hf a r1 Em) as [Hff Hfa].
    destruct (Hff _ _ Ef) as [Hb2 Hr2]. destruct (Hr2 Hrw) as [Hrw1 Ho2].
    destruct (Hmf _ _ Em) as [Hb1 Hr1]. destruct (Hr1 Hrw1) as [_ Ho1].
    unfold bind.
    rewrite (Hma a r1 Em Hrw1 H0 ltac:(lia)).
    apply Hfa; [exact Ef|exact Hrw|lia|rewrite Hb1; exact Hle].
Qed.

Lemma steady_at_readInt (r : BinaryReader) (extra : bytes) :
  steady_at readInt r extra.
Proof.
  split; [apply forward_at_readInt|]. intros v r' H _ _ _.
  unfold readInt, getInt32 in *. cbn [extend buffer offset].
  destruct (in_view (buffer r) (offset r) 4) eqn:Ev; [|discriminate].
  destruct (view_bytes_extend (buffer r) extra (offset r) 4 ltac:(lia) Ev)
    as [Hv Hi].
  change (Z.to_nat 4) with 4%nat in Hv. rewrite Hi, Hv.
  injection H as <- <-. reflexivity.
Qed.

Lemma steady_at_readFloat (r : BinaryReader) (extra : bytes) :
  steady_at readFloat r extra.
Proof.
  split; [apply forward_at_readFloat|]. intros v r' H _ _ _.
  unfold readFloat, getFloat32 in *. cbn [extend buffer offset].
  destruct (in_view (buffer r) (offset r) 4) eqn:Ev; [|discriminate].
  destruct (view_bytes_extend (buffer r) extra (offset r) 4 ltac:(lia) Ev)
    as [Hv Hi].
  change (Z.to_nat 4) with 4%nat in Hv. rewrite Hi, Hv.
  injection H as <- <-. reflexivity.
Qed.

Lemma steady_at_readSignedByte (r : BinaryReader) (extra : bytes) :
  steady_at readSignedByte r extra.
Proof.
  split; [apply forward_at_readSignedByte|]. intros v r' H _ _ _.
  unfold readSignedByte, getInt8 in *. cbn [extend buffer offset].
  destruct (in_view (buffer r) (offset r) 1) eqn:Ev; [|discriminate].
  destruct (view_bytes_extend (buffer r) extra (offset r) 1 ltac:(lia) Ev)
    as [Hv Hi].
  change (Z.to_nat 1) with 1%nat in Hv. rewrite Hi, Hv.
  injection H as <- <-. reflexivity.
Qed.

Lemma steady_at_readBytes (len : Z) (r : BinaryReader) (extra : bytes) :
  steady_at (readBytes len) r extra.
Proof.
  split; [apply forward_at_readBytes|]. intros v r' H Hrw H0 Hle.
  unfold readBytes in *. injection H as <- <-.
  cbn [rewound offset buffer] in Hrw, Hle.
  apply orb_false_iff in Hrw. destruct Hrw as [_ Hl]. apply Z.ltb_ge in Hl.
  cbn [extend buffer offset rewound].
  rewrite slice_extend by lia. reflexivity.
Qed.

Lemma steady_at_skip (n : Z) (r : BinaryReader) (extra : bytes) :
  0 <= n -> steady_at (skip n) r extra.
Proof.
  intro Hn. split; [apply forward_at_skip; exact Hn|].
  intros v r' H _ _ _. unfold skip in *. injection H as <- <-. reflexivity.
Qed.

Lemma steady_at_repeatM (A : Type) (m : M A) (n : nat) (extra : bytes) :
  (forall r, steady_at m r extra) -> forall r, steady_at (repeatM n m) r extra.
Proof.
  intro Hm. induction n as [|n IH]; intro r; cbn [repeatM].
  - apply steady_at_ret.
  - apply steady_at_bind; [apply Hm|]. intros a r1 _.
    apply steady_at_bind; [apply IH|]. intros l r2 _. apply steady_at_ret.
Qed.

Lemma steady_at_readString (P : platform) (r : BinaryReader) (extra : bytes) :
  steady_at (_readString P) r extra.
Proof.
  unfold _readString.
  apply steady_at_bind; [apply steady_at_readInt|]. intros len r1 _.
  apply steady_at_bind; [apply steady_at_readBytes|]. intros d r2 _.
  apply steady_at_ret.
Qed.

Lemma steady_at_loadStringsCache (P : platform) (r : BinaryReader)
    (extra : bytes) :
  steady_at (_loadStringsCache P) r extra.
Proof.
  unfold _loadStringsCache.
  apply steady_at_bind; [apply steady_at_readInt|]. intros count r1 _.
  destruct (count <? 0); [apply steady_at_lift|].
  apply steady_at_repeatM. intro r'. apply steady_at_readString.
Qed.

Lemma steady_at_readCachedString (P : platform) (cache : list jsstring)
    (r : BinaryReader) (extra : bytes) :
  steady_at (_readCachedString P cache) r extra.
Proof.
  unfold _readCachedString. destruct cache as [|c cache].
  - apply steady_at_bind; [apply steady_at_readString|]. intros s r1 _.
    apply steady_at_ret.
  - apply steady_at_bind; [apply steady_at_readInt|]. intros i r1 _.
    apply steady_at_ret.
Qed.

Lemma steady_at_read_value (P : platform) (m : M jsobj) (cache : list jsstring)
    (type : Z) (r : BinaryReader) (extra : bytes) :
  steady_at m r extra -> steady_at (read_value P m cache type) r extra.
Proof.
  intro Hm. unfold read_value.
  repeat match goal with
         | |- steady_at (if ?c then _ else _) _ _ => destruct c
         end;
    try (apply steady_at_bind;
         [first [ apply steady_at_readInt | apply steady_at_readFloat
                | apply steady_at_readString | apply steady_at_readSignedByte
                | apply steady_at_readCachedString | apply steady_at_readBytes
                | exact Hm ]
         | intros; try apply steady_at_ret ]);
    try apply steady_at_ret.
  apply steady_at_bind; [apply steady_at_lift|]. intros; apply steady_at_ret.
Qed.

Lemma steady_at_readMap (P : platform) (cache : list jsstring) (extra : bytes)
    (fuel : nat) :
  forall (map : jsobj) (r : BinaryReader),
    steady_at (_readMap P fuel cache map) r extra.
Proof.
  induction fuel as [|fuel IH]; intros map r.
  - apply steady_at_lift.
  - rewrite readMap_step.
    apply steady_at_bind; [apply steady_at_readCachedString|].
    intros key r1 _.
    apply steady_at_bind; [apply steady_at_readSignedByte|].
    intros type r2 _.
    destruct (type =? ENDOFMAP); [apply steady_at_ret|].
    apply steady_at_bind; [apply steady_at_read_value, IH|].
    intros v r3 _. destruct v as [value|]; [|apply steady_at_ret].
    apply steady_at_bind; [apply steady_at_lift|]. intros map' r4 _.
    apply IH.
Qed.

Lemma steady_at_readVariant (r : BinaryReader) (extra : bytes) :
  steady_at _readVariantFromStream r extra.
Proof.
  unfold _readVariantFromStream.
  apply steady_at_bind; [apply steady_at_readFloat|]. intros s r1 _.
  apply steady_at_bind; [apply steady_at_readInt|]. intros w r2 _.
  apply steady_at_bind; [apply steady_at_readInt|]. intros h r3 _.
  apply steady_at_ret.
Qed.

Lemma steady_at_readScripts (P : platform) (r : BinaryReader) (extra : bytes) :
  steady_at (_readScripts P) r extra.
Proof.
  unfold _readScripts.
  apply steady_at_bind; [apply steady_at_readInt|]. intros len r1 _.
  apply steady_at_bind; [apply steady_at_readBytes|]. intros raw r2 _.
  destruct (pako_ungzip P raw) as [d|]; [|apply steady_at_ret].
  destruct (fst (read_script_stream P (new_BinaryReader d)));
    first [apply steady_at_ret | apply steady_at_lift].
Qed.

Lemma steady_at_readLayoutHeader (P : platform) (r : BinaryReader)
    (extra : bytes) :
  steady_at (_readLayoutHeader P) r extra.
Proof.
  unfold _readLayoutHeader.
  apply steady_at_bind; [apply steady_at_readInt|]. intros version r1 _.
  destruct (version <? 3); [apply steady_at_ret|].
  apply steady_at_bind.
  - unfold read_header_fields.
    apply steady_at_bind; [apply steady_at_skip; lia|]. intros _ r2 _.
    apply steady_at_bind.
    { destruct (4 <=? version); [apply steady_at_readInt|apply steady_at_ret]. }
    intros g r3 _.
    apply steady_at_bind; [apply steady_at_loadStringsCache|].
    intros cache r4 _.
    apply steady_at_bind; [apply steady_at_readInt|]. intros n r5 _.
    apply steady_at_bind.
    { apply steady_at_repeatM. intro r'. unfold read_control_header.
      apply steady_at_bind; [apply steady_at_readCachedString|].
      intros a ra _.
      apply steady_at_bind; [apply steady_at_readCachedString|].
      intros b rb _.
      apply steady_at_bind; [apply steady_at_readCachedString|].
      intros c rc _. apply steady_at_ret. }
    intros cs r6 _.
    apply steady_at_bind; [apply steady_at_readInt|]. intros fc r7 _.
    apply steady_at_bind; [|intros fs r8 _; apply steady_at_ret].
    apply steady_at_repeatM. intro r'. apply steady_at_readString.
  - intros fields r2 _.
    apply steady_at_bind; [apply steady_at_readScripts|]. intros s r3 _.
    apply steady_at_ret.
Qed.

Lemma steady_at_read_design (P : platform) (fuel : nat) (r : BinaryReader)
    (extra : bytes) :
  steady_at (read_design P fuel) r extra.
Proof.
  unfold read_design.
  apply steady_at_bind; [apply steady_at_readLayoutHeader|]. intros h r1 _.
  destruct (Version h <? 3); [apply steady_at_lift|].
  apply steady_at_bind; [apply steady_at_loadStringsCache|]. intros cache r2 _.
  apply steady_at_bind; [apply steady_at_readInt|]. intros n r3 _.
  apply steady_at_bind.
  { apply steady_at_repeatM. intro r'. apply steady_at_readVariant. }
  intros vs r4 _.
  apply steady_at_bind; [apply steady_at_readMap|]. intros data r5 _.
  apply steady_at_bind; [apply steady_at_readInt|]. intros _ r6 _.
  apply steady_at_bind; [apply steady_at_readSignedByte|]. intros fa r7 _.
  apply steady_at_bind; [apply steady_at_readSignedByte|]. intros mi r8 _.
  apply steady_at_ret.
Qed.

(** A document that was read ends inside the buffer: its last byte is the
    second flag. *)
Lemma read_design_ends_inside (P : platform) (fuel : nat) (r r' : BinaryReader)
    (d : design) :
  read_design P fuel r = (Ok d, r') -> offset r' <= blen (buffer r').
Proof.
  unfold read_design. intro H.
  apply bind_ok_inv in H. destruct H as (h & r1 & _ & H).
  destruct (Version h <? 3); [discriminate H|].
  apply bind_ok_inv in H. destruct H as (cache & r2 & _ & H).
  apply bind_ok_inv in H. destruct H as (n & r3 & _ & H).
  apply bind_ok_inv in H. destruct H as (vs & r4 & _ & H).
  apply bind_ok_inv in H. destruct H as (data & r5 & _ & H).
  apply bind_ok_inv in H. destruct H as (x & r6 & _ & H).
  apply bind_ok_inv in H. destruct H as (fa & r7 & _ & H).
  apply bind_ok_inv in H. destruct H as (mi & r8 & Hm & H).
  injection H as _ <-.
  destruct (readSignedByte_ok _ _ _ Hm) as (_ & H1 & Hb & Ho & _).
  rewrite Hb, Ho. exact H1.
Qed.

(** X30.  Bytes behind the second flag are not looked at: when a buffer
    decodes to a document, and no negative length was read on the way, the
    buffer followed by any further bytes decodes to the same document. *)
Theorem trailing_bytes_are_ignored (P : platform) (fuel : nat)
    (b extra : bytes) (d : design) :
  convertBjlToJsonFromBytes P fuel b = Ok d ->
  rewound (snd (read_design P fuel (new_BinaryReader b))) = false ->
  convertBjlToJsonFromBytes P fuel (b ++ extra) = Ok d.
Proof.
  unfold convertBjlToJsonFromBytes. intros H Hrw.
  destruct (read_design P fuel (new_BinaryReader b)) as [o r'] eqn:E.
  cbn [fst snd] in H, Hrw. subst o.
  destruct (steady_at_read_design P fuel (new_BinaryReader b) extra)
    as [Hf Ha].
  pose proof (read_design_ends_inside P fuel _ _ _ E) as Hin.
  destruct (Hf _ _ E) as [Hb _]. rewrite Hb in Hin.
  rewrite (Ha d r' E Hrw (Z.le_refl 0) Hin : read_design P fuel
             (new_BinaryReader (b ++ extra)) = _).
  reflexivity.
Qed.

(* ================================================================== *)
(** ** Examples on concrete inputs *)

(** C3: [readBytes(5)] with three bytes left returns these three bytes. *)
Lemma readBytes_past_end_returns :
  remaining (new_BinaryReader [x01; x02; x03]) < 5
  /\ fst (readBytes 5 (new_BinaryReader [x01; x02; x03])) = Ok [x01; x02; x03]
  /\ offset (snd (readBytes 5 (new_BinaryReader [x01; x02; x03]))) = 5.
Proof. repeat split. Qed.

Lemma cursor_reads_at_end_witness :
  remaining (new_BinaryReader [x01; x02; x03]) < 4
  /\ fst (readInt (new_BinaryReader [x01; x02; x03])) = Throw RangeError.
Proof.
  split; [reflexivity|].
  apply (cursor_reads_at_end (new_BinaryReader [x01; x02; x03])).
  reflexivity.
Defined.

Lemma version_gate_witness :
  convertBjlToJsonFromBytes example_platform 0
    [x02; x00; x00; x00; xff; xff]
  = Throw UnsupportedVersion.
Proof.
  apply (version_gate example_platform 0 x02 x00 x00 x00 [xff; xff]).
  reflexivity.
Defined.

(** C7: the key "constructor" is inherited by the empty cache, so the
    collection pass leaves the cache empty; the encoder then writes the key
    in full instead of throwing. *)
Lemma inherited_key_is_written_in_full :
  _collectStringsInOrder (JObject [(str "constructor", JInt 1)]) ([], [])
  = ([], [])
  /\ (forall (P : platform) (w : BinaryWriter),
        _writeMap P false w (JObject [(str "constructor", JInt 1)]) []
        = Ok (writeInt (writeByte (_writeString P w (str "constructor")) CINT) 1))
  /\ (forall P : platform,
        exists out,
          convertJsonToBjlToBytes P false
            {| LayoutHeader := {| Version := 4; GridSize := 10;
                                  ControlsHeaders := []; Files := [];
                                  DesignerScript := [] |};
               Variants := [];
               Data := [(str "constructor", JInt 1)];
               FontAwesome := false; MaterialIcons := false |}
          = Ok out).
Proof.
  split; [reflexivity|]. split; [reflexivity|].
  intro P. eexists. reflexivity.
Qed.

Lemma uncollected_string_write_witness :
  _writeCachedString example_platform [] [(str "a", 0)] (Some (str "b"))
  = Throw (CacheMiss (str "b")).
Proof.
  apply (uncollected_string_write example_platform
           (JObject [(str "a", JInt 1)]) [(str "a", 0)] [str "a"] []
           (str "b")).
  - reflexivity.
  - cbn. intros [H|[]]. discriminate H.
  - discriminate.
Defined.

(** C6: a header that ends behind its file list, before the length field
    of the script block, and the same header followed by two bytes of that
    field.  Reading the header throws, and so does decoding. *)
Lemma absent_script_block_throws :
  fst (_readLayoutHeader example_platform
         (new_BinaryReader [x04; x00; x00; x00; x10; x00; x00; x00;
                            x0a; x00; x00; x00; x00; x00; x00; x00;
                            x00; x00; x00; x00; x00; x00; x00; x00]))
  = Throw RangeError
  /\ (forall fuel,
        convertBjlToJsonFromBytes example_platform fuel
          [x04; x00; x00; x00; x10; x00; x00; x00;
           x0a; x00; x00; x00; x00; x00; x00; x00;
           x00; x00; x00; x00; x00; x00; x00; x00]
        = Throw RangeError)
  /\ (forall fuel,
        convertBjlToJsonFromBytes example_platform fuel
          [x04; x00; x00; x00; x10; x00; x00; x00;
           x0a; x00; x00; x00; x00; x00; x00; x00;
           x00; x00; x00; x00; x00; x00; x00; x00; x05; x00]
        = Throw RangeError).
Proof.
  split; [vm_compute; reflexivity|].
  split; intro fuel; vm_compute; reflexivity.
Qed.

Lemma undecodable_scripts_are_empty_witness :
  _readScripts example_platform (new_BinaryReader [x00; x00; x00; x00])
  = (Ok [], {| buffer := [x00; x00; x00; x00]; offset := 4; rewound := false |}).
Proof.
  apply (proj1 (undecodable_scripts_are_empty example_platform)
           (new_BinaryReader [x00; x00; x00; x00])
           {| buffer := [x00; x00; x00; x00]; offset := 4; rewound := false |} 0).
  - reflexivity.
  - left. reflexivity.
Defined.

(** C4: two entries with the key "k" on the wire are decoded to one
    property, which holds the second value; and the keys "b", "1", sent in
    this order, are listed as "1", "b" in the decoded object. *)
Lemma repeated_key_collapses :
  exists wire wire' : bytes,
    (forall P : platform,
       (exists r',
          wire_entries P 0 [str "k"]
            [(Some (str "k"), JInt 1); (Some (str "k"), JInt 2)]
            (new_BinaryReader wire) r')
       /\ fst (_readMap P 3 [str "k"] [] (new_BinaryReader wire))
          = Ok [(str "k", JInt 2)])
    /\ (forall P : platform,
          (exists r',
             wire_entries P 0 [str "b"; str "1"]
               [(Some (str "b"), JInt 1); (Some (str "1"), JInt 2)]
               (new_BinaryReader wire') r')
          /\ fst (_readMap P 3 [str "b"; str "1"] [] (new_BinaryReader wire'))
             = Ok [(str "1", JInt 2); (str "b", JInt 1)]).
Proof.
  exists [x00; x00; x00; x00; x01; x01; x00; x00; x00;
          x00; x00; x00; x00; x01; x02; x00; x00; x00;
          x00; x00; x00; x00; x04].
  exists [x00; x00; x00; x00; x01; x01; x00; x00; x00;
          x01; x00; x00; x00; x01; x02; x00; x00; x00;
          x00; x00; x00; x00; x04].
  split; intro P; (split; [|reflexivity]);
    eexists; cbn [wire_entries];
    do 4 eexists; (split; [reflexivity|]); (split; [reflexivity|]);
    (split; [discriminate|]); (split; [reflexivity|]);
    do 4 eexists; (split; [reflexivity|]); (split; [reflexivity|]);
    (split; [discriminate|]); (split; [reflexivity|]); reflexivity.
Qed.

(** C4: the entries "b", "1", "b", "a", sent in this order.  The repeated
    key "b" keeps the place of its first occurrence and takes the value of
    its last one, and the array index "1" is listed before both other
    keys. *)
Lemma decoded_map_is_an_object_witness :
  _readMap example_platform 5 [str "b"; str "1"; str "a"] []
    (new_BinaryReader [x00; x00; x00; x00; x01; x01; x00; x00; x00;
                       x01; x00; x00; x00; x01; x02; x00; x00; x00;
                       x00; x00; x00; x00; x01; x03; x00; x00; x00;
                       x02; x00; x00; x00; x01; x04; x00; x00; x00;
                       x00; x00; x00; x00; x04])
  = (Ok [(str "1", JInt 2); (str "b", JInt 3); (str "a", JInt 4)],
     {| buffer := [x00; x00; x00; x00; x01; x01; x00; x00; x00;
                   x01; x00; x00; x00; x01; x02; x00; x00; x00;
                   x00; x00; x00; x00; x01; x03; x00; x00; x00;
                   x02; x00; x00; x00; x01; x04; x00; x00; x00;
                   x00; x00; x00; x00; x04];
        offset := 41; rewound := false |}).
Proof.
  refine (proj1 (decoded_map_is_an_object example_platform 0
                   [str "b"; str "1"; str "a"]
                   [(Some (str "b"), JInt 1); (Some (str "1"), JInt 2);
                    (Some (str "b"), JInt 3); (Some (str "a"), JInt 4)]
                   (new_BinaryReader _) (mkReader _ 36 false)
                   (mkReader _ 40 false) (mkReader _ 41 false)
                   (Some (str "b"))
                   [(str "1", JInt 2); (str "b", JInt 3); (str "a", JInt 4)]
                   _ _ _ _)).
  - cbn [wire_entries].
    do 4 eexists.
    split; [reflexivity|]. split; [reflexivity|]. split; [discriminate|].
    split; [reflexivity|].
    do 4 eexists.
    split; [reflexivity|]. split; [reflexivity|]. split; [discriminate|].
    split; [reflexivity|].
    do 4 eexists.
    split; [reflexivity|]. split; [reflexivity|]. split; [discriminate|].
    split; [reflexivity|].
    do 4 eexists.
    split; [reflexivity|]. split; [reflexivity|]. split; [discriminate|].
    split; reflexivity.
  - reflexivity.
  - reflexivity.
  - reflexivity.
Defined.


(** C10: in these two buffers, which differ in the header length only, the
    first string of the header has the length -12, which takes the cursor
    back to offset 4; the header length is then read as the number of
    control types.  With 0 there decoding goes on; with 1 it runs past the
    end of the buffer. *)
Lemma header_length_read_after_rewind :
  exists b1 b2 : bytes,
    same_outside_header_length b1 b2
    /\ (forall (P : platform) (fuel : nat),
          convertBjlToJsonFromBytes P fuel b2 = Throw RangeError
          /\ convertBjlToJsonFromBytes P fuel b1 <> Throw RangeError)
    /\ convertBjlToJsonFromBytes example_platform 1 b1
       = Ok {| LayoutHeader := {| Version := 3; GridSize := 10;
                                  ControlsHeaders := []; Files := [[]];
                                  DesignerScript := [] |};
               Variants := []; Data := [];
               FontAwesome := true; MaterialIcons := false |}.
Proof.
  exists [x03; x00; x00; x00; x00; x00; x00; x00; x01; x00; x00; x00;
          xf4; xff; xff; xff; x00; x01; x00].
  exists [x03; x00; x00; x00; x01; x00; x00; x00; x01; x00; x00; x00;
          xf4; xff; xff; xff; x00; x01; x00].
  split; [|split; [|reflexivity]].
  - split; [reflexivity|]. intros i Hi.
    do 4 (destruct i as [|i]; [reflexivity|]).
    do 4 (destruct i as [|i]; [lia|]). reflexivity.
  - intros P fuel. split; [vm_compute; reflexivity|].
    unfold convertBjlToJsonFromBytes. rewrite read_design_unfold.
    match goal with
    | |- context [readInt ?r] =>
        change (readInt r) with (Ok 3, set_offset r 4)
    end.
    cbv iota beta. change (3 <? 3) with false. cbv iota.
    unfold design_behind_length.
    match goal with
    | |- fst (bind (bind ?hr ?g) ?k ?r8) <> _ =>
        assert (Hh : exists r4, hr r8 = (Ok (10, [], [TextDecoder_decode P []]), r4)
                                /\ readInt r4 = (Ok 0, set_offset r4 8)
                                /\ buffer r4 = buffer r8 /\ offset r4 = 4)
          by (eexists; repeat split)
    end.
    destruct Hh as (r4 & Hh & Hlen & Hbuf & Hoff).
    unfold bind at 1. rewrite (bind_ok _ _ _ _ _ _ _ Hh).
    destruct (readScripts_outcome P r4 _ 0 Hlen) as (o & Es & Hne).
    unfold bind at 1. rewrite Es.
    destruct o as [scripts|e| |]; try (cbn; discriminate).
    + unfold ret at 1. cbv beta iota.
      destruct r4 as [buf4 off4 rw4]. cbn [buffer offset] in Hbuf, Hoff.
      subst buf4 off4.
      destruct fuel as [|fuel]; vm_compute; discriminate.
    + exfalso. exact (Hne e eq_refl).
Qed.

Lemma header_length_is_not_read_witness :
  convertBjlToJsonFromBytes example_platform 1
    [x04; x00; x00; x00; xff; xff; xff; xff; x0a; x00; x00; x00;
     x00; x00; x00; x00; x00; x00; x00; x00; x00; x00; x00; x00;
     x00; x00; x00; x00;
     x00; x00; x00; x00; x00; x00; x00; x00;
     x00; x00; x00; x00; x04;
     x00; x00; x00; x00; x01; x00]
  = convertBjlToJsonFromBytes example_platform 1
      [x04; x00; x00; x00; x1b; x00; x00; x00; x0a; x00; x00; x00;
       x00; x00; x00; x00; x00; x00; x00; x00; x00; x00; x00; x00;
       x00; x00; x00; x00;
       x00; x00; x00; x00; x00; x00; x00; x00;
       x00; x00; x00; x00; x04;
       x00; x00; x00; x00; x01; x00]
  /\ convertBjlToJsonFromBytes example_platform 1
       [x04; x00; x00; x00; x1b; x00; x00; x00; x0a; x00; x00; x00;
        x00; x00; x00; x00; x00; x00; x00; x00; x00; x00; x00; x00;
        x00; x00; x00; x00;
        x00; x00; x00; x00; x00; x00; x00; x00;
        x00; x00; x00; x00; x04;
        x00; x00; x00; x00; x01; x00]
     = Ok {| LayoutHeader := {| Version := 4; GridSize := 10;
                                ControlsHeaders := []; Files := [];
                                DesignerScript := [] |};
             Variants := []; Data := [];
             FontAwesome := true; MaterialIcons := false |}.
Proof.
  split; [|reflexivity].
  refine (proj1 (header_length_is_not_read example_platform 1 _ _ _ _)).
  - split; [reflexivity|]. intros i Hi.
    do 4 (destruct i as [|i]; [reflexivity|]).
    do 4 (destruct i as [|i]; [lia|]). reflexivity.
  - reflexivity.
Defined.





(* ================================================================== *)
(** ** Further examples on concrete inputs *)

Lemma example_platform_ok : platform_ok example_platform.
Proof. split; [reflexivity | intro b; reflexivity]. Defined.

Lemma updateInt_patches_four_bytes_witness :
  length (updateInt [x01; x02; x03; x04; x05; x06] 1 258) = 6%nat
  /\ firstn 1 (updateInt [x01; x02; x03; x04; x05; x06] 1 258) = [x01]
  /\ skipn (1 + 4) (updateInt [x01; x02; x03; x04; x05; x06] 1 258) = [x06]
  /\ getInt32 (updateInt [x01; x02; x03; x04; x05; x06] 1 258) 1 = Some 258.
Proof.
  apply (updateInt_patches_four_bytes [x01; x02; x03; x04; x05; x06] 1 258).
  cbn. lia.
Defined.

Lemma string_roundtrip_witness :
  exists bs,
    _writeString example_platform [xff] (str "ab") = [xff] ++ bs
    /\ length bs = (4 + length (TextEncoder_encode example_platform (str "ab")))%nat
    /\ reads (_readString example_platform) bs (str "ab").
Proof.
  apply (string_roundtrip example_platform [xff] (str "ab")). reflexivity.
Defined.

Lemma strings_cache_roundtrip_witness :
  exists bs,
    _writeStringsCacheInOrder example_platform [] [str "a"; str "bc"] = [] ++ bs
    /\ reads (_loadStringsCache example_platform) bs [str "a"; str "bc"].
Proof.
  apply (strings_cache_roundtrip example_platform [] [str "a"; str "bc"]);
    reflexivity.
Defined.

Lemma cache_reference_roundtrip_witness :
  exists bs,
    (forall w, _writeCachedString example_platform w
                 [(str "a", 0); (str "b", 1)] (Some (str "b")) = Ok (w ++ bs))
    /\ length bs = 4%nat
    /\ reads (_readCachedString example_platform [str "a"; str "b"]) bs
         (Some (str "b")).
Proof.
  apply (proj1 (cache_reference_roundtrip example_platform
                  (JObject [(str "a", JString (str "b"))])
                  [(str "a", 0); (str "b", 1)] [str "a"; str "b"]
                  ltac:(reflexivity) ltac:(reflexivity))
               (str "b")).
  right. left. reflexivity.
Defined.

Lemma entry_with_a_key_outside_the_cache_witness :
  reads (_readMap example_platform 2 [str "a"] [])
        ((le_bytes 4 (wrap 32 5) ++ [byte_of_Z (Z.land CINT 0xff)]
          ++ le_bytes 4 (wrap 32 7) ++ [])
         ++ sentinel example_platform)
        [(str "undefined", JInt 7)].
Proof.
  apply (entry_with_a_key_outside_the_cache example_platform [str "a"] 5 7).
  - exact example_platform_ok.
  - discriminate.
  - reflexivity.
  - right. cbn. lia.
  - reflexivity.
Defined.

Lemma length_prefix_roundtrip_witness :
  exists bs,
    write_length 5 [] 300 = [] ++ bs
    /\ (1 <= length bs <= 5)%nat
    /\ (300 < 128 -> length bs = 1%nat)
    /\ forall rf, (length bs <= rf)%nat ->
         reads (binary_string_length rf 0 0) bs 300.
Proof.
  apply (length_prefix_roundtrip [] 300). split; [lia | reflexivity].
Defined.

(** The string of the one code unit U+00E9 is encoded to the two bytes
    C3 A9.  The prefix says 1, so the reader takes C3 only, which decodes
    to U+FFFD, and A9 stays in the stream. *)
Lemma binary_string_counts_code_units_witness :
  exists bs,
    (forall w, _writeBinaryString utf8_platform w [233%N] = w ++ bs ++ [xa9])
    /\ reads (_readBinaryString utf8_platform) bs [65533%N].
Proof.
  apply (binary_string_counts_code_units utf8_platform [233%N] [xc3] [xa9]);
    reflexivity.
Defined.

Lemma script_block_roundtrip_witness :
  reads (_readScripts example_platform)
        (le_bytes 4
           (wrap 32
              (blen (_writeScripts example_platform [str "a"]
                       [{| Scale := f32_one; Width := 1; Height := 2 |}])))
         ++ _writeScripts example_platform [str "a"]
              [{| Scale := f32_one; Width := 1; Height := 2 |}])
        (List.map (script_at [str "a"]) (seq 0 2)).
Proof.
  apply (script_block_roundtrip example_platform [str "a"]
           [{| Scale := f32_one; Width := 1; Height := 2 |}]).
  - exact example_platform_ok.
  - reflexivity.
  - repeat constructor. cbn. discriminate.
  - intros j Hj. destruct j as [|[|j]]; [reflexivity | reflexivity |].
    cbn in Hj. lia.
  - vm_compute. reflexivity.
Defined.

Lemma decode_errors_witness :
  UnsupportedVersion = RangeError \/ UnsupportedVersion = UnsupportedVersion.
Proof.
  apply (decode_errors example_platform 0 [x02; x00; x00; x00; xff; xff]).
  reflexivity.
Defined.

Lemma map_reader_ends_witness :
  fst (_readMap example_platform 6 [] []
         (new_BinaryReader (sentinel example_platform))) <> Diverge.
Proof.
  apply (map_reader_ends example_platform [] 6 []
           (new_BinaryReader (sentinel example_platform))).
  - vm_compute. lia.
  - vm_compute. reflexivity.
Defined.

Lemma decoding_ends_witness :
  convertBjlToJsonFromBytes example_platform 400 example_bytes <> Diverge.
Proof.
  apply (decoding_ends example_platform 400 example_bytes).
  - apply Nat.ltb_lt. vm_compute. reflexivity.
  - vm_compute. reflexivity.
Defined.

Lemma negative_string_length_never_ends_witness :
  fst (_readMap example_platform 1000 [str "a"] []
         (new_BinaryReader
            (le_bytes 4 (wrap 32 0) ++ [byte_of_Z (Z.land CSTRING 0xff)]
             ++ le_bytes 4 (wrap 32 (-9)) ++ [x04])))
  = Diverge.
Proof.
  apply (negative_string_length_never_ends example_platform [str "a"] 0 [x04]).
  - discriminate.
  - reflexivity.
  - vm_compute. discriminate.
  - split; [cbn; lia | reflexivity].
Defined.

Lemma inherited_key_is_refused_witness :
  _writeMap example_platform false []
    (JObject ([(str "a", JInt 1)] ++ (str "constructor", JInt 2) :: []))
    [(str "a", 0)]
  = Throw (CacheMiss (str "constructor")).
Proof.
  apply (inherited_key_is_refused example_platform false
           (JObject [(str "a", JInt 1); (str "constructor", JInt 2)])
           [(str "a", 0)] [str "a"] [(str "a", JInt 1)] []
           (str "constructor") (JInt 2) []
           (writeInt (writeByte (writeInt [] 0) CINT) 1)).
  - reflexivity.
  - discriminate.
  - reflexivity.
  - reflexivity.
  - reflexivity.
Defined.

Lemma unsupported_value_is_refused_witness :
  _writeMap example_platform false []
    (JObject ([] ++ (str "x", JUndefined) :: [])) []
  = Throw UnsupportedValueType.
Proof.
  apply (unsupported_value_is_refused example_platform false [] [] []
           (str "x") JUndefined [] []
           (_writeString example_platform [] (str "x"))).
  - left. reflexivity.
  - reflexivity.
  - reflexivity.
Defined.

Lemma bare_values_come_back_normalised_witness :
  exists bs,
    (forall w, _writeMap example_platform true w (JObject [(str "a", JNull)])
                 [(str "a", 0)] = Ok (w ++ bs))
    /\ reads (_readMap example_platform 3 [str "a"] [])
         (bs ++ sentinel example_platform) [(str "a", tagged CNULL [])].
Proof.
  apply (proj1 (bare_values_come_back_normalised example_platform true
                  [(str "a", 0)] [str "a"] (str "a")
                  example_platform_ok
                  (ex_intro _ 0 (conj eq_refl (conj eq_refl
                     (conj (Z.le_refl 0) eq_refl))))
                  ltac:(vm_compute; discriminate))).
Defined.

Lemma array_value_is_refused_witness :
  _writeMap example_platform false []
    (JObject ([] ++ (str "a", JArray (JInt 1 :: [])) :: [])) [(str "a", 0)]
  = Throw (CacheMiss (str "0")).
Proof.
  apply (array_value_is_refused example_platform false [(str "a", 0)] [] []
           (str "a") (JInt 1) [] [] [] (writeInt [] 0)).
  - discriminate.
  - reflexivity.
  - reflexivity.
  - reflexivity.
  - reflexivity.
Defined.

Lemma encoded_layout_witness :
  exists fields body,
    _writeLayoutHeader example_platform (LayoutHeader example_design)
      new_BinaryWriter (Variants example_design)
    = Ok (le_bytes 4 (wrap 32 (if Version (LayoutHeader example_design) =? 0
                               then 4
                               else Version (LayoutHeader example_design)))
          ++ le_bytes 4 (wrap 32 (Z.of_nat (length fields))) ++ fields)
    /\ example_bytes
       = le_bytes 4 (wrap 32 (if Version (LayoutHeader example_design) =? 0
                              then 4
                              else Version (LayoutHeader example_design)))
         ++ le_bytes 4 (wrap 32 (Z.of_nat (length fields))) ++ fields
         ++ body
         ++ [x00; x00; x00; x00]
         ++ [if FontAwesome example_design then x01 else x00;
             if MaterialIcons example_design then x01 else x00].
Proof.
  apply (encoded_layout example_platform false example_design example_bytes).
  vm_compute. reflexivity.
Defined.

Lemma reduced_mode_without_null_and_rect_witness :
  convertJsonToBjlToBytes example_platform true plain_design
  = convertJsonToBjlToBytes example_platform false plain_design.
Proof.
  apply (reduced_mode_without_null_and_rect example_platform plain_design).
  reflexivity.
Defined.

Lemma short_buffer_is_refused_witness :
  convertBjlToJsonFromBytes example_platform 0 [x04; x00; x00]
  = Throw RangeError.
Proof.
  apply (short_buffer_is_refused example_platform 0 [x04; x00; x00]).
  cbn. lia.
Defined.

Lemma variant_roundtrip_witness :
  exists bs,
    _writeVariant [] {| Scale := 0; Width := 320; Height := 480 |} = [] ++ bs
    /\ length bs = 12%nat
    /\ reads _readVariantFromStream bs
         {| Scale := f32_one; Width := 320; Height := 480 |}.
Proof.
  apply (variant_roundtrip [] {| Scale := 0; Width := 320; Height := 480 |}).
  cbn [Scale]. split; [lia | reflexivity].
Defined.

Lemma encode_errors_witness :
  (exists b,
     convertJsonToBjlToBytes example_platform false rect_without_value_design
     = Ok b)
  \/ (exists e,
        convertJsonToBjlToBytes example_platform false rect_without_value_design
        = Throw e
        /\ ((exists s, e = CacheMiss s)
            \/ e = UnsupportedValueType \/ e = TypeError)).
Proof.
  apply (encode_errors example_platform false rect_without_value_design).
  reflexivity.
Defined.

Lemma trailing_bytes_are_ignored_witness :
  convertBjlToJsonFromBytes example_platform 400 (example_bytes ++ [xff; xff])
  = Ok example_design.
Proof.
  apply (trailing_bytes_are_ignored example_platform 400 example_bytes
           [xff; xff] example_design).
  - vm_compute. reflexivity.
  - vm_compute. reflexivity.
Defined.
